(** * Grasp scoring, selection and trajectory synthesis

    A shallow embedding of [scripts/gen_grasp_refactor_record.py]: the
    semantic/geometric scoring loop, the score fusion with its quantile
    selection and rescale, the candidate/rotation retry search of the
    trajectory handler with its best-result choice and stage composition,
    the slider that samples the composed trajectory, the grasp proposals
    of [get_grasps], the waypoints sent to the robot and the reset.

    Numbers.  The script computes on binary64 values.  Here a finite value
    is an exact rational; the three non-finite values of IEEE-754 are kept,
    with their rules for the four operations and for comparison, because
    the rescale step of the script turns on them.  Zero is the positive
    zero.  Rounding is modelled where an integer is cut out of a product,
    at the slider: there the product is rounded as binary64 rounds it.

    Collaborators that are not part of the script (open3d's box query, the
    quaternion conversions of viser, the rotation builders of autolab_core,
    numpy's vector norm and the UR5 motion planner) are fields of one record
    of externals over which the handlers are parametrised.  What the
    handlers draw into the viser scene is left out, and so are the
    debugger stops ([pdb.set_trace]) of the trajectory handler. *)

From Stdlib Require Import QArith Qround Qabs ZArith Lia Lqa Bool.
From Stdlib Require Import Sorting.Sorted Sorting.Permutation.
From Stdlib Require Floats.
From stdpp Require Import gmap list sorting.

Set Default Proof Using "Type".

(** ** Binary64 values, idealised *)

Module NpFloat.

Inductive float : Type :=
| Fin (q : Q)
| PInf
| NInf
| NaN.

Definition zero : float := Fin 0.
Definition one : float := Fin 1.

Definition is_nan (x : float) : bool :=
  match x with NaN => true | _ => false end.

Definition is_finite (x : float) : bool :=
  match x with Fin _ => true | _ => false end.

Definition Qltb (a b : Q) : bool := negb (Qle_bool b a).

Definition inf_of_sign (positive : bool) : float :=
  if positive then PInf else NInf.

Definition neg (x : float) : float :=
  match x with
  | Fin q => Fin (Qred (- q))
  | PInf => NInf
  | NInf => PInf
  | NaN => NaN
  end.

Definition add (x y : float) : float :=
  match x, y with
  | NaN, _ | _, NaN => NaN
  | Fin a, Fin b => Fin (Qred (a + b))
  | PInf, NInf | NInf, PInf => NaN
  | PInf, _ | _, PInf => PInf
  | NInf, _ | _, NInf => NInf
  end.

Definition sub (x y : float) : float := add x (neg y).

(** [q * (+-inf)]: zero times infinity is not a number. *)
Definition scale_inf (q : Q) (positive : bool) : float :=
  if Qeq_bool q 0 then NaN
  else if Qltb 0 q then inf_of_sign positive
  else inf_of_sign (negb positive).

Definition mul (x y : float) : float :=
  match x, y with
  | NaN, _ | _, NaN => NaN
  | Fin a, Fin b => Fin (Qred (a * b))
  | Fin a, PInf | PInf, Fin a => scale_inf a true
  | Fin a, NInf | NInf, Fin a => scale_inf a false
  | PInf, PInf | NInf, NInf => PInf
  | PInf, NInf | NInf, PInf => NInf
  end.

(** Division follows numpy: a zero divisor gives no exception but an
    infinity of the sign of the dividend, or NaN for [0 / 0]. *)
Definition div (x y : float) : float :=
  match x, y with
  | NaN, _ | _, NaN => NaN
  | Fin a, Fin b =>
      if Qeq_bool b 0 then
        if Qeq_bool a 0 then NaN
        else if Qltb 0 a then PInf else NInf
      else Fin (Qred (a / b))
  | Fin _, (PInf | NInf) => Fin 0
  | PInf, Fin b => if Qltb b 0 then NInf else PInf
  | NInf, Fin b => if Qltb b 0 then PInf else NInf
  | (PInf | NInf), (PInf | NInf) => NaN
  end.

Definition abs (x : float) : float :=
  match x with
  | Fin q => Fin (Qred (Qabs q))
  | PInf | NInf => PInf
  | NaN => NaN
  end.

(** Comparisons; every comparison with NaN is false. *)
Definition ltb (x y : float) : bool :=
  match x, y with
  | NaN, _ | _, NaN => false
  | Fin a, Fin b => Qltb a b
  | NInf, (Fin _ | PInf) => true
  | Fin _, PInf => true
  | _, _ => false
  end.

Definition eqb (x y : float) : bool :=
  match x, y with
  | Fin a, Fin b => Qeq_bool a b
  | PInf, PInf | NInf, NInf => true
  | _, _ => false
  end.

Definition gtb (x y : float) : bool := ltb y x.
Definition leb (x y : float) : bool := ltb x y || eqb x y.
Definition geb (x y : float) : bool := leb y x.

(** The values denote the same number (rationals up to [Qeq]). *)
Definition same (x y : float) : Prop :=
  match x, y with
  | Fin a, Fin b => (a == b)%Q
  | PInf, PInf | NInf, NInf | NaN, NaN => True
  | _, _ => False
  end.

Definition of_nat (n : nat) : float := Fin (inject_Z (Z.of_nat n)).

(** *** Reductions over arrays *)

Definition min2 (x y : float) : float :=
  if is_nan x then NaN else if is_nan y then NaN
  else if ltb y x then y else x.

Definition max2 (x y : float) : float :=
  if is_nan x then NaN else if is_nan y then NaN
  else if ltb x y then y else x.

(** [a.min()] and [a.max()]; [None] is the ValueError of numpy on an
    empty array.  A NaN in the array is the result. *)
Definition np_min (a : list float) : option float :=
  match a with
  | [] => None
  | x :: a' => Some (fold_left min2 a' x)
  end.

Definition np_max (a : list float) : option float :=
  match a with
  | [] => None
  | x :: a' => Some (fold_left max2 a' x)
  end.

Definition np_sum (a : list float) : float := fold_left add a zero.

(** [a.mean()]; the mean of no value is [0 / 0]. *)
Definition np_mean (a : list float) : float :=
  div (np_sum a) (of_nat (length a)).

(** [np.sort]: ascending, NaN last. *)
Definition sort_le (x y : float) : bool :=
  if is_nan y then true else if is_nan x then false else leb x y.

Fixpoint sort_insert (x : float) (a : list float) : list float :=
  match a with
  | [] => [x]
  | y :: a' => if sort_le x y then x :: a else y :: sort_insert x a'
  end.

Definition np_sort (a : list float) : list float :=
  fold_right sort_insert [] a.

(** [np.median]: the middle value of the sorted array, the mean of the
    two middle values for an even count, NaN when a NaN is present. *)
Definition np_median (a : list float) : float :=
  if existsb is_nan a then NaN
  else
    let s := np_sort a in
    let n := length a in
    if Nat.even n
    then np_mean [nth (n / 2 - 1) s NaN; nth (n / 2) s NaN]
    else nth (n / 2) s NaN.

(** numpy's [_lerp]. *)
Definition lerp (a b t : float) : float :=
  let diff_b_a := sub b a in
  if geb t (Fin 0.5)
  then sub b (mul diff_b_a (sub one t))
  else add a (mul diff_b_a t).

(** [np.quantile(a, q)] with the default linear interpolation: the
    virtual index [(n - 1) * q] of the sorted array, interpolated between
    its two neighbours. *)
Definition np_quantile (a : list float) (q : Q) : float :=
  if existsb is_nan a then NaN
  else
    let s := np_sort a in
    let n := length a in
    let virtual_index := (inject_Z (Z.of_nat (n - 1)) * q)%Q in
    let previous := Z.to_nat (Qfloor virtual_index) in
    let next := Nat.min (previous + 1) (n - 1) in
    let gamma := Fin (Qred (virtual_index - inject_Z (Z.of_nat previous))) in
    lerp (nth previous s NaN) (nth next s NaN) gamma.

(** *** Rounding to binary64

    The values above are exact.  Where the script truncates a product to
    an integer the rounding of the product decides the integer, so the
    product is rounded there as binary64 rounds it: to the nearest value
    of 53 significant bits, a tie to the even significand, exponents down
    to [2^-1074], and an infinity from [2^1024] on. *)

(** The nearest integer, a half going to the even one. *)
Definition nearest_even (x : Q) : Z :=
  let f := Qfloor x in
  let r := (x - inject_Z f)%Q in
  if Qltb r (1 # 2) then f
  else if Qltb (1 # 2) r then (f + 1)%Z
  else if Z.even f then f else (f + 1)%Z.

Definition pow2 (e : Z) : Q :=
  if (0 <=? e)%Z then inject_Z (2 ^ e) else / inject_Z (2 ^ (- e)).

(** [floor(log2 x)] for a positive [x]. *)
Definition ilog2 (x : Q) : Z :=
  if Qle_bool 1 x then Z.log2 (Qfloor x)
  else (- Z.log2_up (Qceiling (/ x)))%Z.

(** The binary64 value of a real number. *)
Definition binary64 (x : Q) : float :=
  if Qeq_bool x 0 then Fin 0
  else
    let a := Qabs x in
    let e := Z.max (ilog2 a - 52) (-1074) in
    let m := nearest_even (a / pow2 e) in
    let r := (inject_Z m * pow2 e)%Q in
    if Qle_bool (pow2 1024) r then inf_of_sign (Qltb 0 x)
    else Fin (Qred (if Qltb 0 x then r else - r)).

Definition rounded (x : float) : float :=
  match x with
  | Fin q => binary64 q
  | _ => x
  end.

End NpFloat.

Import NpFloat.

(** ** Vectors, rotations and rigid transforms *)

Record vec3 : Type := Vec3 { vx : float; vy : float; vz : float }.

Record mat3 : Type := Mat3 {
  m00 : float; m01 : float; m02 : float;
  m10 : float; m11 : float; m12 : float;
  m20 : float; m21 : float; m22 : float }.

Record quat : Type := Quat { qw : float; qx : float; qy : float; qz : float }.

Definition vec_of (x y z : Q) : vec3 := Vec3 (Fin x) (Fin y) (Fin z).

Definition eye3 : mat3 :=
  Mat3 one zero zero
       zero one zero
       zero zero one.

Definition dot3 (a b c x y z : float) : float :=
  add (add (mul a x) (mul b y)) (mul c z).

Definition mat_mul (A B : mat3) : mat3 :=
  Mat3 (dot3 (m00 A) (m01 A) (m02 A) (m00 B) (m10 B) (m20 B))
       (dot3 (m00 A) (m01 A) (m02 A) (m01 B) (m11 B) (m21 B))
       (dot3 (m00 A) (m01 A) (m02 A) (m02 B) (m12 B) (m22 B))
       (dot3 (m10 A) (m11 A) (m12 A) (m00 B) (m10 B) (m20 B))
       (dot3 (m10 A) (m11 A) (m12 A) (m01 B) (m11 B) (m21 B))
       (dot3 (m10 A) (m11 A) (m12 A) (m02 B) (m12 B) (m22 B))
       (dot3 (m20 A) (m21 A) (m22 A) (m00 B) (m10 B) (m20 B))
       (dot3 (m20 A) (m21 A) (m22 A) (m01 B) (m11 B) (m21 B))
       (dot3 (m20 A) (m21 A) (m22 A) (m02 B) (m12 B) (m22 B)).

Definition mat_vec (A : mat3) (v : vec3) : vec3 :=
  Vec3 (dot3 (m00 A) (m01 A) (m02 A) (vx v) (vy v) (vz v))
       (dot3 (m10 A) (m11 A) (m12 A) (vx v) (vy v) (vz v))
       (dot3 (m20 A) (m21 A) (m22 A) (vx v) (vy v) (vz v)).

Definition transpose (A : mat3) : mat3 :=
  Mat3 (m00 A) (m10 A) (m20 A)
       (m01 A) (m11 A) (m21 A)
       (m02 A) (m12 A) (m22 A).

Definition mat_neg (A : mat3) : mat3 :=
  Mat3 (neg (m00 A)) (neg (m01 A)) (neg (m02 A))
       (neg (m10 A)) (neg (m11 A)) (neg (m12 A))
       (neg (m20 A)) (neg (m21 A)) (neg (m22 A)).

Definition vec_add (a b : vec3) : vec3 :=
  Vec3 (add (vx a) (vx b)) (add (vy a) (vy b)) (add (vz a) (vz b)).

Definition vec_sub (a b : vec3) : vec3 :=
  Vec3 (sub (vx a) (vx b)) (sub (vy a) (vy b)) (sub (vz a) (vz b)).

Definition vec_abs (a : vec3) : vec3 :=
  Vec3 (abs (vx a)) (abs (vy a)) (abs (vz a)).

Definition vec_list (a : vec3) : list float := [vx a; vy a; vz a].

(** autolab_core's [RigidTransform], as far as the script uses it: the
    product is that of the homogeneous matrices, [inverse] transposes the
    rotation.  The frame names of a transform and the library's check
    that a rotation is orthonormal are left out. *)
Module RigidTransform.

Record t : Type := Make { rotation : mat3; translation : vec3 }.

Definition of_translation (v : vec3) : t := Make eye3 v.
Definition of_rotation (r : mat3) : t := Make r (vec_of 0 0 0).

Definition mul (a b : t) : t :=
  Make (mat_mul (rotation a) (rotation b))
       (vec_add (mat_vec (rotation a) (translation b)) (translation a)).

Definition inverse (a : t) : t :=
  let inv_rotation := transpose (rotation a) in
  Make inv_rotation (mat_vec (mat_neg inv_rotation) (translation a)).

Definition set_translation (a : t) (v : vec3) : t := Make (rotation a) v.

(** [pose.matrix[:, 2][2]]: the world z-component of the third column,
    the approach axis of the end effector. *)
Definition approach_z (a : t) : float := m22 (rotation a).

End RigidTransform.

Infix "*rt" := RigidTransform.mul (at level 40, left associativity).

(** ** Grasps and their bounding boxes *)

(** A row of graspnetAPI's grasp array. *)
Record Grasp : Type := mkGrasp {
  score : float;
  width : float;
  height : float;
  depth : float;
  rotation_matrix : mat3;
  translation : vec3;
  object_id : Z }.

(** [Grasp()] without arguments. *)
Definition Grasp_default : Grasp :=
  mkGrasp (Fin 0) (Fin 0.02) (Fin 0.02) (Fin 0.02) eye3 (vec_of 0 0 0) (-1).

Record OrientedBoundingBox : Type := mkBox {
  center : vec3;
  box_R : mat3;
  extent : vec3 }.

Definition get_bbox_from_grasp (gg : Grasp) : OrientedBoundingBox :=
  mkBox (translation gg) (rotation_matrix gg)
        (Vec3 (depth gg) (width gg) (height gg)).

(** [GraspGroup.sort_by_score()] of graspnetAPI: the rows are reordered by
    [np.argsort] of their score column, reversed, so the highest score
    comes first and, among equal scores, the later row. *)
Fixpoint insert_by_score (g : Grasp) (l : list Grasp) : list Grasp :=
  match l with
  | [] => [g]
  | h :: l' =>
      if ltb (score h) (score g) then h :: insert_by_score g l' else g :: l
  end.

Definition sort_by_score (l : list Grasp) : list Grasp :=
  reverse (fold_right insert_by_score [] l).

(** ** Joint trajectories *)

Definition config : Type := list float.
Definition trajectory : Type := list config.

(** [np.pi] *)
Definition np_pi : float := Fin (884279719003555 # 281474976710656).

(** ** Failures and reports *)

(** The Python exceptions the modelled statements can raise. *)
Inductive exn : Type :=
| ValueError
| IndexError
| KeyError
| TypeError
| AttributeError
| NameError
| OverflowError.

Inductive result (A : Type) : Type :=
| Ok (a : A)
| Raise (e : exn).
Arguments Ok {A} a.
Arguments Raise {A} e.

Definition result_bind {A B} (r : result A) (k : A -> result B) : result B :=
  match r with
  | Ok a => k a
  | Raise e => Raise e
  end.

Definition of_option {A} (e : exn) (o : option A) : result A :=
  match o with
  | Some a => Ok a
  | None => Raise e
  end.

(** [a[idx]] with a list of indices: every index must be in range. *)
Fixpoint take_indices {A} (a : list A) (idx : list nat) : result (list A) :=
  match idx with
  | [] => Ok []
  | i :: idx' =>
      result_bind (of_option IndexError (a !! i)) (fun x =>
      result_bind (take_indices a idx') (fun xs => Ok (x :: xs)))
  end.

(** ** Collaborators *)

Inductive primitive : Type :=
| prim_grasp
| prim_pick_and_place
| prim_twist
| prim_pour.

Definition primitive_eqb (a b : primitive) : bool :=
  match a, b with
  | prim_grasp, prim_grasp
  | prim_pick_and_place, prim_pick_and_place
  | prim_twist, prim_twist
  | prim_pour, prim_pour => true
  | _, _ => false
  end.

(** The methods of the motion planner the script calls. *)
Inductive planner_call : Type :=
| call_from_grasp
| call_lift_up
| call_twist
| call_place
| call_pour.

(** What the handlers print. *)
Inductive message : Type :=
| msg_expects_three_words
| msg_expects_two_words
| msg_need_lerf_query
| msg_trying_grasp (ind : nat)
| msg_trying_rotation (i : nat)
| msg_center_point (p : vec3)
| msg_failed
| msg_success
| msg_without_rotation
| msg_none_succeeded
| msg_succeeded
| msg_no_trajectory_found
| msg_failed_for_the_lift
| msg_succeeded_bang
| msg_here
| msg_fin_grasp
| msg_time_taken.

(** A viser frame handle: the pose of a scene node. *)
Record frame_handle : Type := mkFrame { wxyz : quat; position : vec3 }.

(** A viser mesh handle; [mesh_score] is the score that colours it. *)
Record mesh_handle : Type := mkMesh { mesh_score : float }.

Record grasp_handles : Type := mkHandles {
  h_frame : frame_handle;
  h_mesh : mesh_handle;
  h_ur5 : frame_handle }.

(** [fin_grasp] first holds the planner's final pose, then a grasp. *)
Inductive fin_grasp_value : Type :=
| fin_pose_value (p : RigidTransform.t)
| fin_grasp_record (g : Grasp).

Section Script.

(** The planner's own state, threaded through its calls. *)
Context {PS : Type}.

Record externals : Type := mkExternals {
  (** open3d: [box.get_point_indices_within_bounding_box(points)] *)
  get_point_indices_within_bounding_box :
    OrientedBoundingBox -> list vec3 -> list nat;
  (** viser.transforms: [SO3.from_matrix(R).wxyz], [SO3(wxyz).as_matrix()] *)
  SO3_from_matrix : mat3 -> quat;
  SO3_as_matrix : quat -> mat3;
  (** autolab_core: [RigidTransform(rotation=R).quaternion] and the
      rotations about one axis *)
  quaternion_of : mat3 -> quat;
  x_axis_rotation : float -> mat3;
  y_axis_rotation : float -> mat3;
  z_axis_rotation : float -> mat3;
  (** [np.linalg.norm] of a vector *)
  np_linalg_norm : list float -> float;
  (** UR5GraspPlanner *)
  UR5_HOME_JOINT : config;
  create_traj_from_grasp :
    RigidTransform.t -> option (list vec3) -> PS ->
    (trajectory * bool * RigidTransform.t) * PS;
  create_traj_lift_up :
    config -> RigidTransform.t -> float -> option (list vec3) -> PS ->
    (trajectory * bool) * PS;
  create_traj_twist :
    config -> RigidTransform.t -> float -> option (list vec3) -> PS ->
    (trajectory * bool) * PS;
  create_traj_place :
    config -> RigidTransform.t -> option (list vec3) -> PS ->
    (trajectory * bool) * PS;
  create_traj_pour :
    config -> RigidTransform.t -> float -> option (list vec3) -> PS ->
    (trajectory * bool) * PS }.

(** ** The session: the variables shared by the handlers of [main]

    The closure variables of [main], the widget values the handlers read
    or set, the planner's state, and what the handlers emit: the planner
    calls, each with the candidate index being tried, the joint
    configurations shown, and the lines printed.

    [ur5_frame] is the [visible] flag of the robot's scene frame, [None]
    while the name [ur5_frame] is unbound.  The trajectory handler assigns
    to [ur5_frame.visible]; the statement of [main] that would bind the name
    is commented out, so a session started by [main] has [None] here. *)

Record session : Type := mkSession {
  grasps : option (list Grasp);
  grasps_dict : gmap nat grasp_handles;
  lerf_scores : list float;
  geom_scores : list float;
  overall_scores : option (list float);
  pick_object_pt : vec3;
  place_point : option vec3;
  grasp_point : option vec3;
  fin_grasp : option fin_grasp_value;
  lerf_points_o3d : list vec3;
  lerf_relevancy : list float;
  traj : option trajectory;
  world_pointcloud : option (list vec3);
  ur5_frame : option bool;
  primative : primitive;
  update_overall_scores_threshold : Q;
  update_overall_scores_slider : Q;
  gen_traj_slider : Q;
  gen_traj_button_disabled : bool;
  planner : PS;
  planner_calls : list (planner_call * nat);
  shown_joints : list config;
  stdout : list message }.

Definition set_grasps_dict (v : gmap nat grasp_handles) (st : session) : session :=
  mkSession (grasps st) v (lerf_scores st) (geom_scores st)
    (overall_scores st) (pick_object_pt st) (place_point st)
    (grasp_point st) (fin_grasp st) (lerf_points_o3d st)
    (lerf_relevancy st) (traj st) (world_pointcloud st) (ur5_frame st)
    (primative st) (update_overall_scores_threshold st)
    (update_overall_scores_slider st) (gen_traj_slider st)
    (gen_traj_button_disabled st) (planner st) (planner_calls st)
    (shown_joints st) (stdout st).

Definition set_lerf_scores (v : list float) (st : session) : session :=
  mkSession (grasps st) (grasps_dict st) v (geom_scores st)
    (overall_scores st) (pick_object_pt st) (place_point st)
    (grasp_point st) (fin_grasp st) (lerf_points_o3d st)
    (lerf_relevancy st) (traj st) (world_pointcloud st) (ur5_frame st)
    (primative st) (update_overall_scores_threshold st)
    (update_overall_scores_slider st) (gen_traj_slider st)
    (gen_traj_button_disabled st) (planner st) (planner_calls st)
    (shown_joints st) (stdout st).

Definition set_geom_scores (v : list float) (st : session) : session :=
  mkSession (grasps st) (grasps_dict st) (lerf_scores st) v
    (overall_scores st) (pick_object_pt st) (place_point st)
    (grasp_point st) (fin_grasp st) (lerf_points_o3d st)
    (lerf_relevancy st) (traj st) (world_pointcloud st) (ur5_frame st)
    (primative st) (update_overall_scores_threshold st)
    (update_overall_scores_slider st) (gen_traj_slider st)
    (gen_traj_button_disabled st) (planner st) (planner_calls st)
    (shown_joints st) (stdout st).

Definition set_overall_scores (v : option (list float)) (st : session) : session :=
  mkSession (grasps st) (grasps_dict st) (lerf_scores st)
    (geom_scores st) v (pick_object_pt st) (place_point st)
    (grasp_point st) (fin_grasp st) (lerf_points_o3d st)
    (lerf_relevancy st) (traj st) (world_pointcloud st) (ur5_frame st)
    (primative st) (update_overall_scores_threshold st)
    (update_overall_scores_slider st) (gen_traj_slider st)
    (gen_traj_button_disabled st) (planner st) (planner_calls st)
    (shown_joints st) (stdout st).

Definition set_pick_object_pt (v : vec3) (st : session) : session :=
  mkSession (grasps st) (grasps_dict st) (lerf_scores st)
    (geom_scores st) (overall_scores st) v (place_point st)
    (grasp_point st) (fin_grasp st) (lerf_points_o3d st)
    (lerf_relevancy st) (traj st) (world_pointcloud st) (ur5_frame st)
    (primative st) (update_overall_scores_threshold st)
    (update_overall_scores_slider st) (gen_traj_slider st)
    (gen_traj_button_disabled st) (planner st) (planner_calls st)
    (shown_joints st) (stdout st).

Definition set_place_point (v : option vec3) (st : session) : session :=
  mkSession (grasps st) (grasps_dict st) (lerf_scores st)
    (geom_scores st) (overall_scores st) (pick_object_pt st) v
    (grasp_point st) (fin_grasp st) (lerf_points_o3d st)
    (lerf_relevancy st) (traj st) (world_pointcloud st) (ur5_frame st)
    (primative st) (update_overall_scores_threshold st)
    (update_overall_scores_slider st) (gen_traj_slider st)
    (gen_traj_button_disabled st) (planner st) (planner_calls st)
    (shown_joints st) (stdout st).

Definition set_grasp_point (v : option vec3) (st : session) : session :=
  mkSession (grasps st) (grasps_dict st) (lerf_scores st)
    (geom_scores st) (overall_scores st) (pick_object_pt st)
    (place_point st) v (fin_grasp st) (lerf_points_o3d st)
    (lerf_relevancy st) (traj st) (world_pointcloud st) (ur5_frame st)
    (primative st) (update_overall_scores_threshold st)
    (update_overall_scores_slider st) (gen_traj_slider st)
    (gen_traj_button_disabled st) (planner st) (planner_calls st)
    (shown_joints st) (stdout st).

Definition set_fin_grasp (v : option fin_grasp_value) (st : session) : session :=
  mkSession (grasps st) (grasps_dict st) (lerf_scores st)
    (geom_scores st) (overall_scores st) (pick_object_pt st)
    (place_point st) (grasp_point st) v (lerf_points_o3d st)
    (lerf_relevancy st) (traj st) (world_pointcloud st) (ur5_frame st)
    (primative st) (update_overall_scores_threshold st)
    (update_overall_scores_slider st) (gen_traj_slider st)
    (gen_traj_button_disabled st) (planner st) (planner_calls st)
    (shown_joints st) (stdout st).

Definition set_lerf_points_o3d (v : list vec3) (st : session) : session :=
  mkSession (grasps st) (grasps_dict st) (lerf_scores st)
    (geom_scores st) (overall_scores st) (pick_object_pt st)
    (place_point st) (grasp_point st) (fin_grasp st) v
    (lerf_relevancy st) (traj st) (world_pointcloud st) (ur5_frame st)
    (primative st) (update_overall_scores_threshold st)
    (update_overall_scores_slider st) (gen_traj_slider st)
    (gen_traj_button_disabled st) (planner st) (planner_calls st)
    (shown_joints st) (stdout st).

Definition set_lerf_relevancy (v : list float) (st : session) : session :=
  mkSession (grasps st) (grasps_dict st) (lerf_scores st)
    (geom_scores st) (overall_scores st) (pick_object_pt st)
    (place_point st) (grasp_point st) (fin_grasp st)
    (lerf_points_o3d st) v (traj st) (world_pointcloud st)
    (ur5_frame st) (primative st) (update_overall_scores_threshold st)
    (update_overall_scores_slider st) (gen_traj_slider st)
    (gen_traj_button_disabled st) (planner st) (planner_calls st)
    (shown_joints st) (stdout st).

Definition set_traj (v : option trajectory) (st : session) : session :=
  mkSession (grasps st) (grasps_dict st) (lerf_scores st)
    (geom_scores st) (overall_scores st) (pick_object_pt st)
    (place_point st) (grasp_point st) (fin_grasp st)
    (lerf_points_o3d st) (lerf_relevancy st) v (world_pointcloud st)
    (ur5_frame st) (primative st) (update_overall_scores_threshold st)
    (update_overall_scores_slider st) (gen_traj_slider st)
    (gen_traj_button_disabled st) (planner st) (planner_calls st)
    (shown_joints st) (stdout st).

Definition set_ur5_frame (v : option bool) (st : session) : session :=
  mkSession (grasps st) (grasps_dict st) (lerf_scores st)
    (geom_scores st) (overall_scores st) (pick_object_pt st)
    (place_point st) (grasp_point st) (fin_grasp st)
    (lerf_points_o3d st) (lerf_relevancy st) (traj st)
    (world_pointcloud st) v (primative st)
    (update_overall_scores_threshold st)
    (update_overall_scores_slider st) (gen_traj_slider st)
    (gen_traj_button_disabled st) (planner st) (planner_calls st)
    (shown_joints st) (stdout st).

Definition set_gen_traj_slider (v : Q) (st : session) : session :=
  mkSession (grasps st) (grasps_dict st) (lerf_scores st)
    (geom_scores st) (overall_scores st) (pick_object_pt st)
    (place_point st) (grasp_point st) (fin_grasp st)
    (lerf_points_o3d st) (lerf_relevancy st) (traj st)
    (world_pointcloud st) (ur5_frame st) (primative st)
    (update_overall_scores_threshold st)
    (update_overall_scores_slider st) v (gen_traj_button_disabled st)
    (planner st) (planner_calls st) (shown_joints st) (stdout st).

Definition set_gen_traj_button_disabled (v : bool) (st : session) : session :=
  mkSession (grasps st) (grasps_dict st) (lerf_scores st)
    (geom_scores st) (overall_scores st) (pick_object_pt st)
    (place_point st) (grasp_point st) (fin_grasp st)
    (lerf_points_o3d st) (lerf_relevancy st) (traj st)
    (world_pointcloud st) (ur5_frame st) (primative st)
    (update_overall_scores_threshold st)
    (update_overall_scores_slider st) (gen_traj_slider st) v
    (planner st) (planner_calls st) (shown_joints st) (stdout st).

Definition set_planner (v : PS) (st : session) : session :=
  mkSession (grasps st) (grasps_dict st) (lerf_scores st)
    (geom_scores st) (overall_scores st) (pick_object_pt st)
    (place_point st) (grasp_point st) (fin_grasp st)
    (lerf_points_o3d st) (lerf_relevancy st) (traj st)
    (world_pointcloud st) (ur5_frame st) (primative st)
    (update_overall_scores_threshold st)
    (update_overall_scores_slider st) (gen_traj_slider st)
    (gen_traj_button_disabled st) v (planner_calls st) (shown_joints st)
    (stdout st).

Definition set_planner_calls (v : list (planner_call * nat)) (st : session) : session :=
  mkSession (grasps st) (grasps_dict st) (lerf_scores st)
    (geom_scores st) (overall_scores st) (pick_object_pt st)
    (place_point st) (grasp_point st) (fin_grasp st)
    (lerf_points_o3d st) (lerf_relevancy st) (traj st)
    (world_pointcloud st) (ur5_frame st) (primative st)
    (update_overall_scores_threshold st)
    (update_overall_scores_slider st) (gen_traj_slider st)
    (gen_traj_button_disabled st) (planner st) v (shown_joints st)
    (stdout st).

Definition set_shown_joints (v : list config) (st : session) : session :=
  mkSession (grasps st) (grasps_dict st) (lerf_scores st)
    (geom_scores st) (overall_scores st) (pick_object_pt st)
    (place_point st) (grasp_point st) (fin_grasp st)
    (lerf_points_o3d st) (lerf_relevancy st) (traj st)
    (world_pointcloud st) (ur5_frame st) (primative st)
    (update_overall_scores_threshold st)
    (update_overall_scores_slider st) (gen_traj_slider st)
    (gen_traj_button_disabled st) (planner st) (planner_calls st) v
    (stdout st).

Definition set_stdout (v : list message) (st : session) : session :=
  mkSession (grasps st) (grasps_dict st) (lerf_scores st)
    (geom_scores st) (overall_scores st) (pick_object_pt st)
    (place_point st) (grasp_point st) (fin_grasp st)
    (lerf_points_o3d st) (lerf_relevancy st) (traj st)
    (world_pointcloud st) (ur5_frame st) (primative st)
    (update_overall_scores_threshold st)
    (update_overall_scores_slider st) (gen_traj_slider st)
    (gen_traj_button_disabled st) (planner st) (planner_calls st)
    (shown_joints st) v.

(** ** Handlers as state transformers that may raise *)

Definition M (A : Type) : Type := session -> result A * session.

Definition ret {A} (a : A) : M A := fun st => (Ok a, st).

Definition bind {A B} (m : M A) (k : A -> M B) : M B :=
  fun st =>
    match m st with
    | (Ok a, st') => k a st'
    | (Raise e, st') => (Raise e, st')
    end.

Definition raise {A} (e : exn) : M A := fun st => (Raise e, st).

Definition get : M session := fun st => (Ok st, st).

Definition modify (f : session -> session) : M unit :=
  fun st => (Ok tt, f st).

Definition lift {A} (r : result A) : M A := fun st => (r, st).

Definition print (m : message) : M unit :=
  modify (fun st => set_stdout (stdout st ++ [m]) st).

End Script.

Arguments externals PS : clear implicits.
Arguments session PS : clear implicits.
Arguments M PS A : clear implicits.

Declare Scope script_scope.
Delimit Scope script_scope with script.
Notation "x <- c1 ;; c2" := (bind c1 (fun x => c2))
  (at level 100, c1 at next level, right associativity) : script_scope.
Notation "c1 ;; c2" := (bind c1 (fun _ => c2))
  (at level 100, right associativity) : script_scope.

(** ** The handlers *)

(** [num_rotations_test], a constant of the trajectory handler. *)
Definition num_rotations_test : nat := 1.

(** How [scores] came to be in the fusion step: the Python list
    [geom_scores] itself, the array [lerf_scores] itself (so that the later
    in-place rescale writes through to it), or a freshly computed array. *)
Inductive scores_origin : Type :=
| geom_scores_list
| lerf_scores_array
| fresh_array.

(** The output of the relevancy collaborator for one query. *)
Record relevancy_cloud : Type := mkRelevancy {
  rc_lerf_points : list vec3;
  rc_lerf_relevancy : list float;
  rc_dino_pcd : list vec3;
  rc_pick_object_pt : vec3;
  rc_place_point : option vec3 }.

Section Handlers.

Context {PS : Type} (E : externals PS).
Local Open Scope script_scope.

Local Abbreviation within := (get_point_indices_within_bounding_box E).

(** *** Scoring (the loop of [gen_grasp_button.on_click] and of [main]) *)

(** One iteration: the semantic score is the median relevancy of the
    LERF points inside the grasp's box, the geometric score is the
    detector's, and either is 0.0 when its cloud has no point in the box. *)
Definition score_grasp (lerf_points : list vec3) (relevancy : list float)
    (dino_pcd : list vec3) (grasp : Grasp) : result (float * float) :=
  let box := get_bbox_from_grasp grasp in
  let pts := within box lerf_points in
  let pts1 := within box dino_pcd in
  result_bind
    (if (length pts =? 0)%nat then Ok (Fin 0)
     else result_bind (take_indices relevancy pts)
            (fun inside => Ok (np_median inside)))
    (fun score_ =>
       let score1 := score grasp in
       let score1 := if (length pts1 =? 0)%nat then Fin 0 else score1 in
       Ok (score_, score1)).

Fixpoint score_loop (rc : relevancy_cloud) (grasps_ : list Grasp)
  : M PS unit :=
  match grasps_ with
  | [] => ret tt
  | grasp :: rest =>
      sc <- lift (score_grasp (rc_lerf_points rc) (rc_lerf_relevancy rc)
                    (rc_dino_pcd rc) grasp) ;;
      modify (fun st => set_lerf_scores (lerf_scores st ++ [sc.1]) st) ;;
      modify (fun st => set_geom_scores (geom_scores st ++ [sc.2]) st) ;;
      score_loop rc rest
  end.

(** [lerf_scores /= lerf_relevancy.max()] *)
Definition normalize_lerf_scores (relevancy : list float) : M PS unit :=
  m <- lift (of_option ValueError (np_max relevancy)) ;;
  modify (fun st => set_lerf_scores (map (fun s => div s m) (lerf_scores st)) st).

Definition compute_scores (rc : relevancy_cloud) : M PS unit :=
  modify (set_lerf_scores []) ;;
  modify (set_geom_scores []) ;;
  st <- get ;;
  grasps_ <- lift (of_option TypeError (grasps st)) ;;
  score_loop rc grasps_ ;;
  normalize_lerf_scores (rc_lerf_relevancy rc).

(** [gen_grasp_button.on_click]; [n_words] is the number of terms of the
    query and [rc] what the relevancy collaborator answers for it. *)
Definition gen_grasp_on_click (n_words : nat) (rc : relevancy_cloud)
  : M PS unit :=
  st <- get ;;
  let three :=
    primitive_eqb (primative st) prim_pick_and_place
    || primitive_eqb (primative st) prim_pour in
  if three && negb (n_words =? 3)%nat then print msg_expects_three_words
  else if negb three && negb (n_words =? 2)%nat
  then print msg_expects_two_words
  else
    modify (set_lerf_points_o3d (rc_lerf_points rc)) ;;
    modify (set_lerf_relevancy (rc_lerf_relevancy rc)) ;;
    modify (set_pick_object_pt (rc_pick_object_pt rc)) ;;
    modify (set_place_point (rc_place_point rc)) ;;
    (* the colours of the relevancy cloud need its minimum and maximum *)
    lift (of_option ValueError (np_min (rc_lerf_relevancy rc))) ;;
    compute_scores rc.

(** *** Fusion, selection and rescale
    ([update_overall_scores_button.on_click] and [main]) *)

Definition fused_scores (lerf_weight : Q) (lerf_scores_ geom_scores_ : list float)
  : result (scores_origin * list float) :=
  let geom_weight := sub (Fin 1) (Fin lerf_weight) in
  if (length lerf_scores_ =? 0)%nat then Ok (geom_scores_list, geom_scores_)
  else if Qeq_bool lerf_weight 1 then Ok (lerf_scores_array, lerf_scores_)
  else if (length lerf_scores_ =? length geom_scores_)%nat
  then Ok (fresh_array,
           zip_with (fun l g => add (mul (Fin lerf_weight) l) (mul geom_weight g))
             lerf_scores_ geom_scores_)
  else Raise ValueError.

(** The two comprehensions over [enumerate(grasps)]: the pairs
    [(ind, grasp)] with [scores[ind] > scores_threshold]. *)
Fixpoint selected (grasps_ : list Grasp) (scores : list float)
    (scores_threshold : float) (ind : nat) : result (list (nat * Grasp)) :=
  match grasps_ with
  | [] => Ok []
  | grasp :: rest =>
      result_bind (of_option IndexError (scores !! ind)) (fun s =>
      result_bind (selected rest scores scores_threshold (S ind)) (fun r =>
      Ok (if gtb s scores_threshold then (ind, grasp) :: r else r)))
  end.

(** The selection: the indices and the grasps above the threshold, the
    grasps stacked into a group ([np.stack] raises on an empty list) and
    sorted by [sort_by_score]. *)
Definition select (grasps_ : list Grasp) (scores : list float)
    (scores_threshold : float) : result (list nat * list Grasp) :=
  result_bind (selected grasps_ scores scores_threshold 0) (fun sel =>
  let grasps_selected := sel.*2 in
  let inds_selected := sel.*1 in
  if (length grasps_selected =? 0)%nat then Raise ValueError
  else Ok (inds_selected, sort_by_score grasps_selected)).

(** [scores -= scores[inds_selected].min()] and then
    [scores /= scores[inds_selected].max()], the maximum being read after
    the subtraction. *)
Definition rescale (scores : list float) (inds_selected : list nat)
  : result (list float) :=
  result_bind (take_indices scores inds_selected) (fun sel =>
  result_bind (of_option ValueError (np_min sel)) (fun lo =>
  let scores := map (fun s => sub s lo) scores in
  result_bind (take_indices scores inds_selected) (fun sel =>
  result_bind (of_option ValueError (np_max sel)) (fun hi =>
  Ok (map (fun s => div s hi) scores))))).

(** [add_grasps]: the three scene handles of a grasp ([ind] only names
    the scene nodes). *)
Definition add_grasps (grasp : Grasp) (ind : Z) (score_ : float)
  : grasp_handles :=
  let robot_frame_R :=
    mat_mul (y_axis_rotation E (div np_pi (Fin 2)))
            (z_axis_rotation E (div np_pi (Fin 2))) in
  mkHandles
    (mkFrame (SO3_from_matrix E (rotation_matrix grasp)) (translation grasp))
    (mkMesh score_)
    (mkFrame (quaternion_of E robot_frame_R)
       (Vec3 (sub (depth grasp) (Fin 0.015)) (Fin 0) (Fin 0))).

Fixpoint show_selected (pairs : list (nat * Grasp)) (scores : list float)
  : M PS unit :=
  match pairs with
  | [] => ret tt
  | (ind, grasp) :: rest =>
      s <- lift (of_option IndexError (scores !! ind)) ;;
      modify (fun st =>
        set_grasps_dict
          (<[ind := add_grasps grasp (Z.of_nat ind) s]> (grasps_dict st)) st) ;;
      show_selected rest scores
  end.

Definition update_overall_scores (lerf_weight quantile : Q) : M PS unit :=
  st <- get ;;
  fs <- lift (fused_scores lerf_weight (lerf_scores st) (geom_scores st)) ;;
  let origin := fs.1 in
  let scores := fs.2 in
  if (length scores =? 0)%nat then print msg_need_lerf_query
  else
    let scores_threshold := np_quantile scores quantile in
    grasps_ <- lift (of_option TypeError (grasps st)) ;;
    sel <- lift (select grasps_ scores scores_threshold) ;;
    let inds_selected := sel.1 in
    let grasps_selected := sel.2 in
    modify (set_grasps_dict ∅) ;;
    (* a Python list cannot be indexed by a list *)
    (match origin with geom_scores_list => raise TypeError | _ => ret tt end) ;;
    scores <- lift (rescale scores inds_selected) ;;
    (match origin with
     | lerf_scores_array => modify (set_lerf_scores scores)
     | _ => ret tt
     end) ;;
    show_selected (zip inds_selected grasps_selected) scores ;;
    modify (set_overall_scores (Some scores)).

(** [update_overall_scores_button.on_click] reads both sliders. *)
Definition update_overall_scores_on_click : M PS unit :=
  st <- get ;;
  update_overall_scores (update_overall_scores_slider st)
    (update_overall_scores_threshold st).

(** The scoring block of [main], run once before the widgets exist. *)
Definition main_scoring (rc : relevancy_cloud) : M PS unit :=
  modify (set_lerf_points_o3d (rc_lerf_points rc)) ;;
  modify (set_lerf_relevancy (rc_lerf_relevancy rc)) ;;
  modify (set_pick_object_pt (rc_pick_object_pt rc)) ;;
  modify (set_place_point (rc_place_point rc)) ;;
  compute_scores rc ;;
  update_overall_scores 0.95 0.95.

(** *** Trajectory synthesis ([gen_traj_button.on_click]) *)

(** [RigidTransform(translation=h.position,
                    rotation=tf.SO3(h.wxyz).as_matrix())] *)
Definition handle_pose (h : frame_handle) : RigidTransform.t :=
  RigidTransform.Make (SO3_as_matrix E (wxyz h)) (position h).

(** A call of a planner method while candidate [ind] is being tried. *)
Definition call_planner {A} (c : planner_call) (ind : nat)
    (method : PS -> A * PS) : M PS A :=
  fun st =>
    let r := method (planner st) in
    (Ok r.1,
     set_planner_calls (planner_calls st ++ [(c, ind)]) (set_planner r.2 st)).

(** [grasp_planner.goto_joints(joints)] *)
Definition goto_joints (joints : config) : M PS unit :=
  modify (fun st => set_shown_joints (shown_joints st ++ [joints]) st).

(** [pts.mean(axis=0)] *)
Definition centroid (pts : list vec3) : vec3 :=
  Vec3 (np_mean (map vx pts)) (np_mean (map vy pts)) (np_mean (map vz pts)).

(** The target is moved horizontally onto the centroid of the LERF points
    inside a default-sized box at the target pose. *)
Definition recenter (grasp_pose : RigidTransform.t) : M PS RigidTransform.t :=
  st <- get ;;
  let grasp :=
    mkGrasp (score Grasp_default) (width Grasp_default)
      (height Grasp_default) (depth Grasp_default)
      (RigidTransform.rotation grasp_pose)
      (RigidTransform.translation grasp_pose) (object_id Grasp_default) in
  let box := get_bbox_from_grasp grasp in
  let pts := within box (lerf_points_o3d st) in
  pts <- lift (take_indices (lerf_points_o3d st) pts) ;;
  let center_point := centroid pts in
  let t := RigidTransform.translation grasp_pose in
  let grasp_pose :=
    RigidTransform.of_translation
      (Vec3 (sub (vx center_point) (vx t)) (sub (vy center_point) (vy t)) (Fin 0))
    *rt grasp_pose in
  print (msg_center_point center_point) ;;
  ret grasp_pose.

(** The target pose of rotation trial [i] for "grasp" and "pick & place". *)
Definition composed_pose (prim : primitive)
    (grasp2world_pose ur52grasp_pose : frame_handle) (i : nat)
  : RigidTransform.t :=
  let angle :=
    div (mul (of_nat i) (mul (Fin 2) np_pi)) (of_nat num_rotations_test) in
  let grasp_pose :=
    handle_pose grasp2world_pose
    *rt handle_pose ur52grasp_pose
    *rt RigidTransform.of_translation (vec_of 0 0 0.02)
    *rt RigidTransform.of_rotation (x_axis_rotation E angle)
    *rt RigidTransform.of_translation (vec_of 0 0 (-0.02)) in
  let t := RigidTransform.translation grasp_pose in
  let grasp_pose :=
    if primitive_eqb prim prim_grasp
    then RigidTransform.set_translation grasp_pose
           (Vec3 (vx t) (vy t) (add (vz t) (Fin 0.015)))
    else grasp_pose in
  let t := RigidTransform.translation grasp_pose in
  if primitive_eqb prim prim_pick_and_place
  then RigidTransform.set_translation grasp_pose
         (Vec3 (sub (vx t) (Fin 0.02)) (add (vy t) (Fin 0.03))
               (sub (vz t) (Fin 0.015)))
  else grasp_pose.

(** How the body of a [for] loop ends. *)
Inductive control : Type :=
| loop_continue
| loop_break.

(** The recorded successes of a candidate: [(traj, fin_pose)] pairs. *)
Definition successes : Type := list (trajectory * RigidTransform.t).

(** One rotation trial of "grasp" / "pick & place": the body of
    [for i in range(num_rotations_test)]. *)
Definition rotation_trial (traj_grasp_ind : nat)
    (grasp2world_pose ur52grasp_pose : frame_handle) (i : nat)
    (succ_traj_list : successes)
  : M PS (control * successes * RigidTransform.t) :=
  print (msg_trying_rotation i) ;;
  st <- get ;;
  let grasp_pose :=
    composed_pose (primative st) grasp2world_pose ur52grasp_pose i in
  if gtb (RigidTransform.approach_z grasp_pose) (Fin 0)
  then ret (loop_continue, succ_traj_list, grasp_pose)
  else
    grasp_pose <- recenter grasp_pose ;;
    r <- call_planner call_from_grasp traj_grasp_ind
           (create_traj_from_grasp E grasp_pose (world_pointcloud st)) ;;
    let traj_ := r.1.1 in
    let succ := r.1.2 in
    let fin_pose := r.2 in
    modify (set_traj (Some traj_)) ;;
    if negb succ
    then print msg_failed ;; ret (loop_continue, succ_traj_list, grasp_pose)
    else
      last_joints <- lift (of_option IndexError (last traj_)) ;;
      up <- call_planner call_lift_up traj_grasp_ind
              (create_traj_lift_up E last_joints fin_pose (Fin 0.2)
                 (world_pointcloud st)) ;;
      let succ_up := up.2 in
      if succ && succ_up
      then
        print msg_success ;;
        let succ_traj_list := succ_traj_list ++ [(traj_, fin_pose)] in
        if (i =? 0)%nat
        then print msg_without_rotation ;;
             ret (loop_break, succ_traj_list, grasp_pose)
        else ret (loop_continue, succ_traj_list, grasp_pose)
      else print msg_failed ;; ret (loop_continue, succ_traj_list, grasp_pose).

Fixpoint rotation_loop (traj_grasp_ind : nat)
    (grasp2world_pose ur52grasp_pose : frame_handle) (trials : list nat)
    (succ_traj_list : successes) (grasp_pose : option RigidTransform.t)
  : M PS (successes * option RigidTransform.t) :=
  match trials with
  | [] => ret (succ_traj_list, grasp_pose)
  | i :: rest =>
      r <- rotation_trial traj_grasp_ind grasp2world_pose ur52grasp_pose i
             succ_traj_list ;;
      match r.1.1 with
      | loop_break => ret (r.1.2, Some r.2)
      | loop_continue =>
          rotation_loop traj_grasp_ind grasp2world_pose ur52grasp_pose rest
            r.1.2 (Some r.2)
      end
  end.

Definition twist_rotation : mat3 :=
  Mat3 (Fin (-1)) (Fin 0) (Fin 0)
       (Fin 0) (Fin 1) (Fin 0)
       (Fin 0) (Fin 0) (Fin (-1)).

Definition pour_rotation : mat3 :=
  Mat3 (Fin 1) (Fin 0) (Fin 0)
       (Fin 0) (Fin 0) (Fin 1)
       (Fin 0) (Fin (-1)) (Fin 0).

Definition twist_pose (grasp2world_pose ur52grasp_pose : frame_handle)
  : RigidTransform.t :=
  RigidTransform.Make twist_rotation (position grasp2world_pose)
  *rt RigidTransform.of_translation (position ur52grasp_pose).

Definition pour_pose (grasp2world_pose ur52grasp_pose : frame_handle)
  : RigidTransform.t :=
  let grasp_pose :=
    RigidTransform.Make pour_rotation (position grasp2world_pose)
    *rt RigidTransform.of_translation (position ur52grasp_pose)
    *rt RigidTransform.of_translation (vec_of 0 0 0) in
  let t := RigidTransform.translation grasp_pose in
  RigidTransform.set_translation grasp_pose
    (Vec3 (vx t) (sub (vy t) (Fin 0.03)) (sub (vz t) (Fin 0.025))).

(** The single attempt of "twist" and of "pour": no rotation trials, no
    lift inside the search. *)
Definition single_attempt (traj_grasp_ind : nat) (grasp_pose : RigidTransform.t)
  : M PS (successes * option RigidTransform.t) :=
  grasp_pose <- recenter grasp_pose ;;
  st <- get ;;
  r <- call_planner call_from_grasp traj_grasp_ind
         (create_traj_from_grasp E grasp_pose (world_pointcloud st)) ;;
  let traj_ := r.1.1 in
  let succ := r.1.2 in
  let fin_pose := r.2 in
  modify (set_traj (Some traj_)) ;;
  if negb succ
  then print msg_failed ;; ret ([], Some grasp_pose)
  else ret ([(traj_, fin_pose)], Some grasp_pose).

(** [ur5_frame.visible = v] *)
Definition set_visible (v : bool) : M PS unit :=
  st <- get ;;
  lift (of_option NameError (ur5_frame st)) ;;
  modify (set_ur5_frame (Some v)).

(** The variables an iteration of the candidate loop leaves behind. *)
Record attempt : Type := mkAttempt {
  traj_grasp_ind : nat;
  ur52grasp_pose : frame_handle;
  succ_traj_list : successes;
  grasp_pose : option RigidTransform.t }.

(** The body of [for traj_grasp_ind in traj_grasp_ind_list], up to the test
    that ends it. *)
Definition try_candidate (ind : nat) (previous_pose : option RigidTransform.t)
  : M PS attempt :=
  st <- get ;;
  handles <- lift (of_option KeyError (grasps_dict st !! ind)) ;;
  let ur5 := h_ur5 handles in
  let grasp2world_pose := h_frame handles in
  set_visible false ;;
  print (msg_trying_grasp ind) ;;
  r <- match primative st with
       | prim_grasp | prim_pick_and_place =>
           rotation_loop ind grasp2world_pose ur5 (seq 0 num_rotations_test)
             [] previous_pose
       | prim_twist => single_attempt ind (twist_pose grasp2world_pose ur5)
       | prim_pour => single_attempt ind (pour_pose grasp2world_pose ur5)
       end ;;
  ret (mkAttempt ind ur5 r.1 r.2).

(** The candidate loop: it ends at the first candidate with a recorded
    success.  The result is the last iteration's variables, [None] when the
    list was empty. *)
Fixpoint candidate_loop (traj_grasp_ind_list : list nat) (last_ : option attempt)
  : M PS (option attempt) :=
  match traj_grasp_ind_list with
  | [] => ret last_
  | ind :: rest =>
      a <- try_candidate ind (last_ ≫= grasp_pose) ;;
      if (length (succ_traj_list a) =? 0)%nat
      then print msg_none_succeeded ;; candidate_loop rest (Some a)
      else print msg_succeeded ;; ret (Some a)
  end.

(** *** The best recorded result *)

(** [np.linalg.norm(curr_traj[0, :] - curr_traj[-1, :])] *)
Definition path_length (curr_traj : trajectory) : result float :=
  result_bind (of_option IndexError (head curr_traj)) (fun first_joints =>
  result_bind (of_option IndexError (last curr_traj)) (fun last_joints =>
  Ok (np_linalg_norm E (zip_with sub first_joints last_joints)))).

(** [np.linalg.norm(pose.translation - grasp_pose.translation)] *)
Definition proximity (pose target : RigidTransform.t) : float :=
  np_linalg_norm E
    (vec_list (vec_sub (RigidTransform.translation pose)
                       (RigidTransform.translation target))).

Record best : Type := mkBest {
  min_dist : float;
  best_traj : option trajectory;
  best_end_pose : option RigidTransform.t }.

Definition no_best : best := mkBest PInf None None.

(** The test of the selection loop: the path is strictly shorter than the
    shortest adopted so far and, once a result has been adopted, the end
    pose is strictly closer to the target than the adopted one. *)
Definition adopts (target : option RigidTransform.t) (b : best)
    (dist : float) (end_pose : RigidTransform.t) : result bool :=
  if ltb dist (min_dist b)
  then match best_end_pose b with
       | None => Ok true
       | Some best_pose =>
           result_bind (of_option NameError target) (fun grasp_pose_ =>
           Ok (gtb (proximity best_pose grasp_pose_)
                   (proximity end_pose grasp_pose_)))
       end
  else Ok false.

Definition consider (target : option RigidTransform.t) (b : best)
    (item : trajectory * RigidTransform.t) : result best :=
  let curr_traj := item.1 in
  let end_pose := item.2 in
  result_bind (path_length curr_traj) (fun dist =>
  result_bind (adopts target b dist end_pose) (fun adopt =>
  Ok (if adopt then mkBest dist (Some curr_traj) (Some end_pose) else b))).

Fixpoint select_best (target : option RigidTransform.t)
    (succ_traj_list_ : successes) (b : best) : result best :=
  match succ_traj_list_ with
  | [] => Ok b
  | item :: rest =>
      result_bind (consider target b item) (select_best target rest)
  end.

(** *** Stage composition *)

(** The place target of "pick & place". *)
Definition place_pose_pick_and_place (place_point_ offset : vec3) (rot : mat3)
  : RigidTransform.t :=
  RigidTransform.Make rot
    (Vec3 (add (add (vx place_point_) (vx offset)) (Fin 0.02))
          (sub (vy place_point_) (vy offset))
          (add (add (vz place_point_) (vz offset)) (Fin 0.05))).

(** The place target of "pour". *)
Definition place_pose_pour (place_point_ offset : vec3) (rot : mat3)
  : RigidTransform.t :=
  let offx := Fin (-0.05) in
  let offy := Fin 0.05 in
  let offz := Fin 0.19 in
  RigidTransform.Make rot
    (Vec3 (add (add (vx place_point_) (vx offset)) offx)
          (add (sub (add (vy place_point_) (vy offset)) (Fin 0.1)) offy)
          (add (add (vz place_point_) (vz offset)) offz)).

(** [traj[-1, :]] of the shared variable [traj]. *)
Definition last_of_traj : M PS config :=
  st <- get ;;
  traj_ <- lift (of_option TypeError (traj st)) ;;
  lift (of_option IndexError (last traj_)).

(** [traj = np.concatenate([traj, more], axis=0)] *)
Definition extend_traj (more : trajectory) : M PS unit :=
  st <- get ;;
  traj_ <- lift (of_option TypeError (traj st)) ;;
  modify (set_traj (Some (traj_ ++ more))).

(** A further stage: planned from the last configuration of [traj] and
    appended to it.  The planner's success flag is returned, unread by the
    place and pour stages. *)
Definition place_stage (ind : nat) (place_pose : RigidTransform.t) : M PS bool :=
  st <- get ;;
  last_joints <- last_of_traj ;;
  r <- call_planner call_place ind
         (create_traj_place E last_joints place_pose (world_pointcloud st)) ;;
  extend_traj r.1 ;;
  ret r.2.

Definition pour_stage (ind : nat) (place_pose : RigidTransform.t) (angle : float)
  : M PS bool :=
  st <- get ;;
  last_joints <- last_of_traj ;;
  r <- call_planner call_pour ind
         (create_traj_pour E last_joints place_pose angle (world_pointcloud st)) ;;
  extend_traj r.1 ;;
  ret r.2.

(** The handler after the candidate loop has recorded a success. *)
Definition compose_stages (a : attempt) : M PS unit :=
  let ind := traj_grasp_ind a in
  b <- lift (select_best (grasp_pose a) (succ_traj_list a) no_best) ;;
  modify (set_traj (best_traj b)) ;;
  let succ := true in
  fin_pose <- lift (of_option AttributeError (best_end_pose b)) ;;
  modify (set_grasp_point (Some (RigidTransform.translation fin_pose))) ;;
  modify (set_fin_grasp (Some (fin_pose_value fin_pose))) ;;
  st <- get ;;
  let prim := primative st in
  up <- match prim with
        | prim_twist =>
            print msg_here ;;
            last_joints <- last_of_traj ;;
            call_planner call_twist ind
              (create_traj_twist E last_joints fin_pose (Fin (-1))
                 (world_pointcloud st))
        | _ =>
            last_joints <- last_of_traj ;;
            call_planner call_lift_up ind
              (create_traj_lift_up E last_joints fin_pose (Fin 0.2)
                 (world_pointcloud st))
        end ;;
  let traj_up := up.1 in
  let succ := succ && up.2 in
  (if primitive_eqb prim prim_grasp && negb succ
   then
     print msg_failed_for_the_lift ;;
     modify (set_traj None) ;;
     goto_joints (UR5_HOME_JOINT E) ;;
     modify (set_gen_traj_slider 0)
   else
     print msg_succeeded_bang ;;
     extend_traj traj_up ;;
     let offset := vec_abs (vec_sub (pick_object_pt st)
                                    (RigidTransform.translation fin_pose)) in
     (match prim with
      | prim_pick_and_place =>
          place_point_ <- lift (of_option TypeError (place_point st)) ;;
          let place_pose :=
            place_pose_pick_and_place place_point_ offset
              (RigidTransform.rotation fin_pose) in
          place_stage ind place_pose ;;
          ret tt
      | prim_pour =>
          place_point_ <- lift (of_option TypeError (place_point st)) ;;
          let place_pose :=
            place_pose_pour place_point_ offset
              (RigidTransform.rotation fin_pose) in
          place_stage ind place_pose ;;
          pour_stage ind place_pose (Fin (-1.4)) ;;
          pour_stage ind place_pose (Fin 0.01) ;;
          ret tt
      | _ => ret tt
      end) ;;
     modify (set_gen_traj_slider 0.75) ;;
     let fin_pose :=
       fin_pose *rt RigidTransform.inverse (handle_pose (ur52grasp_pose a)) in
     let fin_grasp_ :=
       mkGrasp (score Grasp_default) (width Grasp_default)
         (height Grasp_default) (depth Grasp_default)
         (RigidTransform.rotation fin_pose)
         (RigidTransform.translation fin_pose) (object_id Grasp_default) in
     modify (set_fin_grasp (Some (fin_grasp_record fin_grasp_))) ;;
     grasps_ <- lift (of_option TypeError (grasps st)) ;;
     chosen <- lift (of_option IndexError (grasps_ !! ind)) ;;
     let fin_grasp_ :=
       mkGrasp (score fin_grasp_) (width chosen) (height chosen)
         (depth chosen) (rotation_matrix fin_grasp_)
         (translation fin_grasp_) (object_id fin_grasp_) in
     modify (set_fin_grasp (Some (fin_grasp_record fin_grasp_))) ;;
     print msg_fin_grasp) ;;
  print msg_time_taken ;;
  set_visible true ;;
  modify (set_gen_traj_button_disabled false).

(** The handler from the candidate loop on, for a ranked list of candidate
    indices. *)
Definition synthesize (traj_grasp_ind_list : list nat) : M PS unit :=
  modify (set_gen_traj_button_disabled true) ;;
  found <- candidate_loop traj_grasp_ind_list None ;;
  a <- lift (of_option NameError found) ;;
  if (length (succ_traj_list a) =? 0)%nat
  then
    print msg_no_trajectory_found ;;
    modify (set_traj None) ;;
    modify (set_gen_traj_slider 0) ;;
    modify (set_gen_traj_button_disabled false)
  else compose_stages a.

(** [np.argsort]: the indices that sort the array ascending, NaN last; for
    equal values the lower index comes first. *)
Fixpoint argsort_insert (scores : list float) (i : nat) (l : list nat)
  : list nat :=
  match l with
  | [] => [i]
  | j :: l' =>
      if sort_le (nth i scores NaN) (nth j scores NaN)
      then i :: l
      else j :: argsort_insert scores i l'
  end.

Definition np_argsort (scores : list float) : list nat :=
  fold_right (argsort_insert scores) [] (seq 0 (length scores)).

(** [gen_traj_button.on_click] *)
Definition gen_traj_on_click : M PS unit :=
  st <- get ;;
  match grasps st, overall_scores st with
  | Some _, Some scores =>
      if bool_decide (size (grasps_dict st) = 0)
      then ret tt
      else synthesize (reverse (np_argsort scores))
  | _, _ => ret tt
  end.

(** *** Sampling the trajectory ([gen_traj_slider.on_update]) *)

(** [int(x)]: truncation toward zero. *)
Definition int_of (x : Q) : Z := Z.quot (Qnum x) (Zpos (Qden x)).

(** [a[i]] for a Python integer: a negative index counts from the end. *)
Definition py_index {A} (a : list A) (i : Z) : option A :=
  if (i <? 0)%Z
  then if (i <? - Z.of_nat (length a))%Z then None
       else a !! Z.to_nat (Z.of_nat (length a) + i)
  else a !! Z.to_nat i.

(** [int(x)] of a float: truncation toward zero; an infinity and NaN
    have no integer. *)
Definition py_int (x : float) : result Z :=
  match x with
  | Fin q => Ok (int_of q)
  | NaN => Raise ValueError
  | PInf | NInf => Raise OverflowError
  end.

(** [int(gen_traj_slider.value * (len(traj) - 1))]: the integer
    [len(traj) - 1] becomes a binary64 value, the product is rounded to
    binary64, and [int] truncates the rounded product. *)
Definition sample_index (t : Q) (len : nat) : result Z :=
  py_int
    (rounded (mul (Fin t) (rounded (Fin (inject_Z (Z.of_nat len - 1)))))).

(** [traj[int(t * (len(traj) - 1)), :]] *)
Definition sample (traj_ : trajectory) (t : Q) : result config :=
  result_bind (sample_index t (length traj_)) (fun i =>
  of_option IndexError (py_index traj_ i)).

Definition gen_traj_slider_on_update : M PS unit :=
  st <- get ;;
  match traj st with
  | None => ret tt
  | Some traj_ =>
      curr_joint <- lift (sample traj_ (gen_traj_slider st)) ;;
      goto_joints curr_joint
  end.

End Handlers.

(** ** A bench of concrete collaborators

    Stand-ins on which the handlers can be run: an axis-aligned box test,
    the usual quaternion formulas, a square root truncated to forty binary
    digits (exact on rational squares), and a planner for a robot whose
    three joints are the Cartesian coordinates of its end effector.  The
    planner's state is a script: the success flags of its coming calls. *)

Module Bench.

Definition sqrt_q (q : Q) : Q :=
  Qred (Z.sqrt (Qnum q * Zpos (Qden q) * 4 ^ 40) # (Qden q * 2 ^ 40)).

Definition sqrt (x : float) : float :=
  match x with
  | Fin q => if Qltb q 0 then NaN else Fin (sqrt_q q)
  | PInf => PInf
  | NInf | NaN => NaN
  end.

Definition norm (v : list float) : float :=
  sqrt (np_sum (map (fun x => mul x x) v)).

Definition inside (box : OrientedBoundingBox) (p : vec3) : bool :=
  let half e := div e (Fin 2) in
  leb (abs (sub (vx p) (vx (center box)))) (half (vx (extent box)))
  && leb (abs (sub (vy p) (vy (center box)))) (half (vy (extent box)))
  && leb (abs (sub (vz p) (vz (center box)))) (half (vz (extent box))).

Definition indices_within (box : OrientedBoundingBox) (points : list vec3)
  : list nat :=
  (filter (fun ip => inside box ip.2 = true)
     (zip (seq 0 (length points)) points)).*1.

Definition two : float := Fin 2.

Definition as_matrix (q : quat) : mat3 :=
  let w := qw q in let x := qx q in let y := qy q in let z := qz q in
  let d a b := sub one (mul two (add (mul a a) (mul b b))) in
  Mat3 (d y z) (mul two (sub (mul x y) (mul z w))) (mul two (add (mul x z) (mul y w)))
       (mul two (add (mul x y) (mul z w))) (d x z) (mul two (sub (mul y z) (mul x w)))
       (mul two (sub (mul x z) (mul y w))) (mul two (add (mul y z) (mul x w))) (d x y).

Definition from_matrix (r : mat3) : quat :=
  let trace := add (add (m00 r) (m11 r)) (m22 r) in
  if gtb trace (Fin 0)
  then
    let w := div (sqrt (add one trace)) two in
    let k := mul (Fin 4) w in
    Quat w (div (sub (m21 r) (m12 r)) k) (div (sub (m02 r) (m20 r)) k)
         (div (sub (m10 r) (m01 r)) k)
  else
    let x := div (sqrt (sub (sub (add one (m00 r)) (m11 r)) (m22 r))) two in
    let k := mul (Fin 4) x in
    Quat (div (sub (m21 r) (m12 r)) k) x (div (add (m01 r) (m10 r)) k)
         (div (add (m02 r) (m20 r)) k).

(** Cosine and sine: exact at 0 and at [np.pi / 2] (taken as a right
    angle), a Taylor polynomial elsewhere. *)
Definition cos_sin (a : float) : float * float :=
  if eqb a (Fin 0) then (Fin 1, Fin 0)
  else if eqb a (div np_pi two) then (Fin 0, Fin 1)
  else
    let a2 := mul a a in
    (sub one (mul a2 (sub (Fin (1 # 2)) (mul a2 (Fin (1 # 24))))),
     mul a (sub one (mul a2 (sub (Fin (1 # 6)) (mul a2 (Fin (1 # 120))))))).

Definition rot_x (a : float) : mat3 :=
  let cs := cos_sin a in
  Mat3 one zero zero
       zero cs.1 (neg cs.2)
       zero cs.2 cs.1.

Definition rot_y (a : float) : mat3 :=
  let cs := cos_sin a in
  Mat3 cs.1 zero cs.2
       zero one zero
       (neg cs.2) zero cs.1.

Definition rot_z (a : float) : mat3 :=
  let cs := cos_sin a in
  Mat3 cs.1 (neg cs.2) zero
       cs.2 cs.1 zero
       zero zero one.

(** The scripted planner. *)
Definition script : Type := list bool.

Definition flag (ps : script) : bool := hd false ps.

Definition home : config := [Fin 0; Fin 0; Fin 0].

Definition from_grasp (pose : RigidTransform.t) (_ : option (list vec3))
    (ps : script) : (trajectory * bool * RigidTransform.t) * script :=
  (([home; vec_list (RigidTransform.translation pose)], flag ps, pose), tl ps).

Definition lift_up (joints : config) (pose : RigidTransform.t) (h : float)
    (_ : option (list vec3)) (ps : script) : (trajectory * bool) * script :=
  (([joints; zip_with add joints [Fin 0; Fin 0; h]], flag ps), tl ps).

Definition twist (joints : config) (pose : RigidTransform.t) (a : float)
    (_ : option (list vec3)) (ps : script) : (trajectory * bool) * script :=
  (([joints; joints], flag ps), tl ps).

Definition place (joints : config) (pose : RigidTransform.t)
    (_ : option (list vec3)) (ps : script) : (trajectory * bool) * script :=
  (([joints; vec_list (RigidTransform.translation pose)], flag ps), tl ps).

Definition pour (joints : config) (pose : RigidTransform.t) (a : float)
    (_ : option (list vec3)) (ps : script) : (trajectory * bool) * script :=
  (([joints; joints], flag ps), tl ps).

Definition E : externals script :=
  mkExternals indices_within from_matrix as_matrix from_matrix
    rot_x rot_y rot_z norm home from_grasp lift_up twist place pour.

End Bench.

(** ** The spec's reading of the slider *)

(** Python's [round]: to the nearest integer, a half to the even one. *)
Definition round_half_even (x : Q) : Z :=
  let f := Qfloor x in
  let r := (x - inject_Z f)%Q in
  if Qltb r (1 # 2) then f
  else if Qltb (1 # 2) r then (f + 1)%Z
  else if Z.even f then f else (f + 1)%Z.

(** The configuration at index [round(t * (length - 1))]. *)
Definition sample_spec (traj_ : trajectory) (t : Q) : option config :=
  py_index traj_
    (round_half_even (t * inject_Z (Z.of_nat (length traj_) - 1))).

(** ** The scores of one grasp *)

(** The geometric score the scoring loop records for a grasp. *)
Definition geometric_of {PS} (E : externals PS) (dino_pcd : list vec3)
    (grasp : Grasp) : float :=
  if (length (get_point_indices_within_bounding_box E
                (get_bbox_from_grasp grasp) dino_pcd) =? 0)%nat
  then Fin 0 else score grasp.

(** The relevancy values of the LERF points inside the grasp's box. *)
Definition relevancy_inside {PS} (E : externals PS) (lerf_points : list vec3)
    (relevancy : list float) (grasp : Grasp) : list float :=
  omap (fun i => relevancy !! i)
    (get_point_indices_within_bounding_box E
       (get_bbox_from_grasp grasp) lerf_points).

(** The semantic score the scoring loop records before it normalises. *)
Definition semantic_of {PS} (E : externals PS) (lerf_points : list vec3)
    (relevancy : list float) (grasp : Grasp) : float :=
  let inside := relevancy_inside E lerf_points relevancy grasp in
  if (length inside =? 0)%nat then Fin 0 else np_median inside.

(** The box query answers with indices of the queried cloud. *)
Definition indices_in_range {PS} (E : externals PS) : Prop :=
  forall box points,
    Forall (fun i => (i < length points)%nat)
      (get_point_indices_within_bounding_box E box points).

(** ** Order of a selection *)

(** The detector's score does not increase from [a] to [b]. *)
Definition descending_by_score (a b : Grasp) : Prop :=
  geb (score a) (score b) = true.

(** Candidate [ind] has a fused score above the threshold. *)
Definition above (grasps_ : list Grasp) (scores : list float)
    (scores_threshold : float) (ind : nat) : Prop :=
  exists grasp s,
    grasps_ !! ind = Some grasp /\ scores !! ind = Some s
    /\ gtb s scores_threshold = true.

(** The pairs [(ind, grasp)] kept by the two comprehensions. *)
Definition kept (scores : list float) (scores_threshold : float)
    (p : nat * Grasp) : Prop :=
  gtb (default NaN (scores !! p.1)) scores_threshold = true.

#[global] Instance kept_dec scores scores_threshold p :
  Decision (kept scores scores_threshold p).
Proof. unfold kept. apply _. Defined.

(** ** Ranges of values *)

(** A finite value equal to the rational [v]. *)
Definition is_value (v : Q) (x : float) : Prop :=
  exists q, x = Fin q /\ (q == v)%Q.

(** A finite value between 0 and the rational [m]. *)
Definition in_range (m : Q) (x : float) : Prop :=
  exists q, x = Fin q /\ (0 <= q)%Q /\ (q <= m)%Q.

(** A finite value that is not negative. *)
Definition nonnegative (x : float) : Prop :=
  exists q, x = Fin q /\ (0 <= q)%Q.

(** ** Planner calls of a handler *)

(** No condition on a result. *)
Definition anything {A} (_ : A) : Prop := True.

(** Whatever the handler [m] does, the planner calls it adds to the log
    are all made for candidates in [S], and a result it returns is in [Q]. *)
Definition tagged {PS A} (S : nat -> Prop) (Q : A -> Prop) (m : M PS A)
  : Prop :=
  forall st r st', m st = (r, st') ->
    (exists new,
        planner_calls st' = planner_calls st ++ new
        /\ Forall (fun c => S c.2) new)
    /\ (forall a, r = Ok a -> Q a).

(** ** Results of a handler *)


(** ** The session [main] starts in *)

(** The name [ur5_frame] is unbound, its assignment at lines 308-313 being
    commented out, and [traj] is None (line 320). *)
Definition as_main_leaves_it {PS} (st : session PS) : Prop :=
  ur5_frame st = None /\ traj st = None.

(** ** The machine's binary64

    The primitive floats of the proof assistant are the machine's
    binary64 values; [binary64] is checked against their product. *)

Module Machine.

Import Floats.

(** The number a machine float stands for. *)
Definition value (x : PrimFloat.float) : NpFloat.float :=
  match Prim2SF x with
  | S754_zero _ => NpFloat.Fin 0
  | S754_infinity s => inf_of_sign (negb s)
  | S754_nan => NpFloat.NaN
  | S754_finite s m e =>
      NpFloat.Fin (Qred ((if s then -1 else 1) * inject_Z (Zpos m) * pow2 e))
  end.

(** The machine's product of two floats is the rounded exact product. *)
Definition agree (p : PrimFloat.float * PrimFloat.float) : bool :=
  match value (PrimFloat.mul p.1 p.2),
        rounded (NpFloat.mul (value p.1) (value p.2)) with
  | NpFloat.Fin a, NpFloat.Fin b => Qeq_bool a b
  | NpFloat.PInf, NpFloat.PInf | NpFloat.NInf, NpFloat.NInf
  | NpFloat.NaN, NpFloat.NaN => true
  | _, _ => false
  end.

(** Products that round up, round down, meet a tie, overflow, fall among
    the subnormal values or underflow to zero: 0.3 * 10, 0.29 * 100,
    0.1 * 3, 0.7 * 10, 1e308 * 10, 1e-320 * 0.3, 1e-200 * 1e-200,
    0.5 * 5e-324, 1.5 * 5e-324, -0.3 * 7, 0.1 * 0.1, the square of the
    successor of 1, 3 * (1/3), 0.75 * 1, and the largest odd integer
    times 1 and times the predecessor of 1. *)
Definition products : list (PrimFloat.float * PrimFloat.float) :=
  [(0x1.3333333333333p-2, 0x1.4p+3);
   (0x1.28f5c28f5c28fp-2, 0x1.9p+6);
   (0x1.999999999999ap-4, 0x1.8p+1);
   (0x1.6666666666666p-1, 0x1.4p+3);
   (0x1.1ccf385ebc8a0p+1023, 0x1.4p+3);
   (0x0.00000000007e8p-1022, 0x1.3333333333333p-2);
   (0x1.87e92154ef7acp-665, 0x1.87e92154ef7acp-665);
   (0x1p-1, 0x0.0000000000001p-1022);
   (0x1.8p+0, 0x0.0000000000001p-1022);
   (-0x1.3333333333333p-2, 0x1.cp+2);
   (0x1.999999999999ap-4, 0x1.999999999999ap-4);
   (0x1.0000000000001p+0, 0x1.0000000000001p+0);
   (0x1.8p+1, 0x1.5555555555555p-2);
   (0x1.8p-1, 0x1p+0);
   (0x1p+0, 0x1.fffffffffffffp+52);
   (0x1.fffffffffffffp-1, 0x1.fffffffffffffp+52)]%float.

End Machine.

(** ** Concrete inputs *)

Module Cases.

Definition two_step : trajectory := [[Fin 0; Fin 0; Fin 0]; [Fin 1; Fin 1; Fin 1]].

(** Three grasps along the x axis, as the detector ranks them. *)
Definition grasp_at (s x : Q) : Grasp :=
  mkGrasp (Fin s) (Fin 0.1) (Fin 0.1) (Fin 0.1) eye3 (vec_of x 0 0) 0.

Definition three_grasps : list Grasp :=
  [grasp_at 0.9 0; grasp_at 0.8 1; grasp_at 0.4 2].

(** Two LERF points with relevancy 1 and 4, the first inside the box of
    the third grasp, the second inside no box; a DINO cloud with a point
    in the boxes of the first and of the third grasp. *)
Definition cloud : relevancy_cloud :=
  mkRelevancy [vec_of 2 0 0; vec_of 5 5 5] [Fin 1; Fin 4]
    [vec_of 0 0 0; vec_of 2 0 0] (vec_of 2 0 0) None.

(** A session right after the scene has been loaded. *)
Definition loaded (grasps_ : list Grasp) (prim : primitive) (ps : Bench.script)
  : session Bench.script :=
  mkSession (Some grasps_) ∅ [] [] None (vec_of 0 0 0) None None None [] []
    None None (Some true) prim 0.9 0.95 0 false ps [] [] [].

(** The session after the query has been scored: semantic scores
    0, 0, 1/4 and geometric scores 0.9, 0, 0.4. *)
Definition scored : session Bench.script :=
  (compute_scores Bench.E cloud (loaded three_grasps prim_grasp [])).2.

(** Recorded results for the best-result choice: a long path that ends
    close to the target, a shorter one that ends farther away, and one as
    long as the first that ends closer still. *)
Definition target : RigidTransform.t :=
  RigidTransform.of_translation (vec_of 0 0 0).

Definition long_close : trajectory * RigidTransform.t :=
  ([[Fin 0; Fin 0; Fin 0]; [Fin 3; Fin 4; Fin 0]],
   RigidTransform.of_translation (vec_of 1 0 0)).

Definition short_far : trajectory * RigidTransform.t :=
  ([[Fin 0; Fin 0; Fin 0]; [Fin 3; Fin 0; Fin 0]],
   RigidTransform.of_translation (vec_of 2 0 0)).

Definition tie_closer : trajectory * RigidTransform.t :=
  ([[Fin 0; Fin 0; Fin 0]; [Fin 0; Fin 5; Fin 0]],
   RigidTransform.of_translation (vec_of (1 # 2) 0 0)).

(** Scene handles of a grasp whose approach axis points upward, and of
    one whose approach axis is level. *)
Definition ur5_handle : frame_handle :=
  mkFrame (Quat (Fin (1 # 2)) (Fin (1 # 2)) (Fin (1 # 2)) (Fin (1 # 2)))
    (vec_of 0.085 0 0).

Definition upward_handle : frame_handle :=
  mkFrame (Quat (Fin (3 # 5)) (Fin 0) (Fin (-4 # 5)) (Fin 0)) (vec_of 2 0 0).

Definition level_handle (x : Q) : frame_handle :=
  mkFrame (Quat (Fin 1) (Fin 0) (Fin 0) (Fin 0)) (vec_of x 0 0).

(** A session ready for planning: the first and the third grasp are
    selected and shown, the third ranks first, and a LERF point lies at
    each place the handler will centre a target on. *)
Definition shown (x : Q) (s : float) : grasp_handles :=
  mkHandles (level_handle x) (mkMesh s) ur5_handle.

Definition planning (prim : primitive) (ps : Bench.script)
  : session Bench.script :=
  mkSession (Some three_grasps)
    (<[0%nat := shown 0 (Fin (1 # 5))]> (<[2%nat := shown 2 (Fin 1)]> ∅))
    [Fin 0; Fin 0; Fin (1 # 4)] [Fin 0.9; Fin 0; Fin 0.4]
    (Some [Fin (1 # 5); Fin (-1); Fin 1])
    (vec_of 2 0 0) (Some (vec_of 1 1 0)) None None
    [vec_of 0.085 0 0.015; vec_of 2.085 0 0.015; vec_of 2.065 0.03 (-0.015);
     vec_of 0.065 0.03 (-0.015)]
    [Fin 1; Fin 1; Fin 1; Fin 1]
    None None (Some true) prim 0.9 0.95 0 false ps [] [] [].

End Cases.

(** * The rest of the script *)

(** ** Grasp proposals ([get_grasps]) *)

(** What [get_grasps] calls outside the script: numpy's matrix inverse of
    a camera pose, the GraspNet detector on a batch of clouds, and the
    non-maximum suppression and collision filter of a grasp group. *)
Record proposers : Type := mkProposers {
  np_linalg_inv : RigidTransform.t -> RigidTransform.t;
  graspnet : list (list vec3) -> list (list Grasp);
  nms : float -> float -> list Grasp -> list Grasp;
  local_collision_detection : list Grasp -> list Grasp }.

(** trimesh's [transform_points(points, matrix)] *)
Definition transform_points (points : list vec3) (T : RigidTransform.t)
  : list vec3 :=
  map (fun p => vec_add (mat_vec (RigidTransform.rotation T) p)
                        (RigidTransform.translation T)) points.

(** [GraspGroup.transform(T)] on one row *)
Definition grasp_transform (T : RigidTransform.t) (g : Grasp) : Grasp :=
  mkGrasp (score g) (width g) (height g) (depth g)
    (mat_mul (RigidTransform.rotation T) (rotation_matrix g))
    (vec_add (mat_vec (RigidTransform.rotation T) (translation g))
             (RigidTransform.translation T))
    (object_id g).

(** A grasp below [-0.16] is lifted by [0.01]. *)
Definition lift_off_floor (g : Grasp) : Grasp :=
  let t := translation g in
  if ltb (vz t) (Fin (-0.16))
  then mkGrasp (score g) (width g) (height g) (depth g) (rotation_matrix g)
         (Vec3 (add (vx t) (Fin 0)) (add (vy t) (Fin 0)) (add (vz t) (Fin 0.01)))
         (object_id g)
  else g.

(** [gg.translations[:, 0] > 0.22] *)
Definition in_workspace (g : Grasp) : bool :=
  gtb (vx (translation g)) (Fin 0.22).

(** [np.abs(gg.rotation_matrices[:, :, 1][:, 2]) < 0.5] *)
Definition upright (g : Grasp) : bool :=
  ltb (abs (m21 (rotation_matrix g))) (Fin 0.5).

(** [range(start, stop, step)] for a positive step. *)
Fixpoint py_range_from (fuel start stop step : nat) : list nat :=
  match fuel with
  | O => []
  | S fuel' =>
      if (stop <=? start)%nat then []
      else start :: py_range_from fuel' (start + step) stop step
  end.

Definition py_range (start stop step : nat) : list nat :=
  py_range_from (stop - start) start stop step.

(** [range(i, min(i + graspnet_batch_size, len(hemisphere)))] *)
Definition ind_range (i batch_size n : nat) : list nat :=
  seq i (Nat.min (i + batch_size) n - i).

Fixpoint result_map {A B} (f : A -> result B) (l : list A) : result (list B) :=
  match l with
  | [] => Ok []
  | x :: l' =>
      result_bind (f x) (fun y =>
      result_bind (result_map f l') (fun ys => Ok (y :: ys)))
  end.

(** [30.0/180.0*np.pi] *)
Definition rotation_thresh : float := mul (div (Fin 30) (Fin 180)) np_pi.

Section Proposals.

Context (D : proposers).

(** The body of the batch loop for the batch that starts at pose [i];
    [gg_all] is the group accumulated so far, [None] before the first
    batch that contributes. *)
Definition batch_step (world_pointcloud_ : list vec3)
    (hemisphere : list RigidTransform.t) (graspnet_batch_size : nat)
    (gg_all : option (list Grasp)) (i : nat) : result (option (list Grasp)) :=
  result_bind
    (result_map
       (fun j =>
          result_bind (of_option IndexError (hemisphere !! j)) (fun c2w =>
          Ok (transform_points world_pointcloud_ (np_linalg_inv D c2w))))
       (ind_range i graspnet_batch_size (length hemisphere)))
    (fun rgbd_cropped_list =>
  let gg_list := graspnet D rgbd_cropped_list in
  result_bind
    (result_map
       (fun p =>
          result_bind (of_option IndexError (hemisphere !! (i + p.1)%nat))
            (fun c2w => Ok (map (grasp_transform c2w) p.2)))
       (zip (seq 0 (length gg_list)) gg_list))
    (fun gg_list =>
  result_bind (of_option IndexError (head gg_list)) (fun gg_all_curr =>
  let gg := gg_all_curr ++ concat (tail gg_list) in
  let gg := map lift_off_floor gg in
  let gg := filter (fun g => in_workspace g = true) gg in
  let gg := filter (fun g => upright g = true) gg in
  if (length gg =? 0)%nat then Ok gg_all
  else
    let gg := nms D (Fin 0.01) rotation_thresh gg in
    let gg := local_collision_detection D gg in
    Ok (Some (match gg_all with
              | None => gg
              | Some all_ => all_ ++ gg
              end))))).

Fixpoint batch_loop (world_pointcloud_ : list vec3)
    (hemisphere : list RigidTransform.t) (graspnet_batch_size : nat)
    (starts : list nat) (gg_all : option (list Grasp))
  : result (option (list Grasp)) :=
  match starts with
  | [] => Ok gg_all
  | i :: rest =>
      result_bind
        (batch_step world_pointcloud_ hemisphere graspnet_batch_size gg_all i)
        (batch_loop world_pointcloud_ hemisphere graspnet_batch_size rest)
  end.

(** [get_grasps]; a zero batch size is the ValueError of [range]. *)
Definition get_grasps (world_pointcloud_ : list vec3)
    (hemisphere : list RigidTransform.t) (graspnet_batch_size : nat)
  : result (list Grasp) :=
  if (graspnet_batch_size =? 0)%nat then Raise ValueError
  else
    result_bind
      (batch_loop world_pointcloud_ hemisphere graspnet_batch_size
         (py_range 0 (length hemisphere) graspnet_batch_size) None)
      (fun gg_all =>
         match gg_all with
         | None => Ok []
         | Some gg_all =>
             let gg_all := nms D (Fin 0.01) rotation_thresh gg_all in
             Ok (sort_by_score gg_all)
         end).

End Proposals.

(** ** The robot's waypoints ([robot_button.on_click]) *)

(** [a[idx]] for a list of Python integers. *)
Definition rows {A} (a : list A) (idx : list Z) : result (list A) :=
  result_map (fun i => of_option IndexError (py_index a i)) idx.

(** The indices [0, k, 2k, ..., 19k, -1] with [k = len(traj_lift)//20]. *)
Definition lift_indices (len : nat) : list Z :=
  let k := Z.of_nat (len / 20) in
  map (fun m => (Z.of_nat m * k)%Z) (seq 0 20) ++ [(-1)%Z].

(** The two paths sent to the robot: the rows 0, 21, 41 and the last of
    the first 61 configurations, and 21 rows of the rest. *)
Definition robot_waypoints (traj_ : trajectory)
  : result (trajectory * trajectory) :=
  let traj_goto := take 61 traj_ in
  let traj_lift := drop 61 traj_ in
  result_bind (rows traj_goto [0; 21; 41; -1]%Z) (fun traj_goto =>
  result_bind (rows traj_lift (lift_indices (length traj_lift)))
    (fun traj_lift => Ok (traj_goto, traj_lift))).

(** ** Reset ([lerf_reset_button.on_click]) *)

Section Reset.

Context {PS : Type}.

Definition set_grasps (v : option (list Grasp)) (st : session PS)
  : session PS :=
  mkSession v (grasps_dict st) (lerf_scores st) (geom_scores st)
    (overall_scores st) (pick_object_pt st) (place_point st)
    (grasp_point st) (fin_grasp st) (lerf_points_o3d st)
    (lerf_relevancy st) (traj st) (world_pointcloud st) (ur5_frame st)
    (primative st) (update_overall_scores_threshold st)
    (update_overall_scores_slider st) (gen_traj_slider st)
    (gen_traj_button_disabled st) (planner st) (planner_calls st)
    (shown_joints st) (stdout st).

Definition set_world_pointcloud (v : option (list vec3)) (st : session PS)
  : session PS :=
  mkSession (grasps st) (grasps_dict st) (lerf_scores st) (geom_scores st)
    (overall_scores st) (pick_object_pt st) (place_point st)
    (grasp_point st) (fin_grasp st) (lerf_points_o3d st)
    (lerf_relevancy st) (traj st) v (ur5_frame st)
    (primative st) (update_overall_scores_threshold st)
    (update_overall_scores_slider st) (gen_traj_slider st)
    (gen_traj_button_disabled st) (planner st) (planner_calls st)
    (shown_joints st) (stdout st).

(** [lerf_reset_button.on_click]; [loaded] says whether [ns_wrapper]
    holds a scene.  The scene, its clouds, the grasps and the overall
    scores are dropped; the shown grasps and the two score arrays stay. *)
Definition lerf_reset_on_click (loaded : bool) : M PS unit :=
  if loaded
  then
    (modify (set_world_pointcloud None) ;;
     modify (set_grasps None) ;;
     modify (set_overall_scores None))%script
  else ret tt.

End Reset.

(** ** The order of the candidates *)


(** What [main] leaves unbound and unset. *)
Definition frame_and_traj {PS} (st : session PS)
  : option bool * option trajectory :=
  (ur5_frame st, traj st).

(** ** What a handler leaves alone *)

(** The handler [m] never changes what [f] reads off the session. *)
Definition keeps {PS A X} (f : session PS -> X) (m : M PS A) : Prop :=
  forall st, f (m st).2 = f st.

(** [f] reads nothing the candidate search writes: the output, the
    trajectory, the planner with its log, and the visibility of the
    robot's frame. *)
Definition search_frame {PS X} (f : session PS -> X) : Prop :=
  forall st,
    (forall v, f (set_stdout v st) = f st)
    /\ (forall v, f (set_traj v st) = f st)
    /\ (forall v, f (set_planner v st) = f st)
    /\ (forall v, f (set_planner_calls v st) = f st)
    /\ (forall v, f (set_ur5_frame v st) = f st).

(** What the trajectory handler reads and never writes. *)
Definition scoring_state {PS} (st : session PS) :=
  (grasps st, grasps_dict st, lerf_scores st, geom_scores st,
   overall_scores st, lerf_points_o3d st, lerf_relevancy st,
   pick_object_pt st, place_point st, world_pointcloud st, primative st).

(** The grasps come strictly descending by the detector's score. *)
Definition strictly_descending (a b : Grasp) : Prop :=
  ltb (score b) (score a) = true.

(** The handle shown for a selected candidate. *)
Definition shown_for {PS} (E : externals PS) (scores : list float)
    (d : gmap nat grasp_handles) (p : nat * Grasp) : gmap nat grasp_handles :=
  <[p.1 := add_grasps E p.2 (Z.of_nat p.1) (default NaN (scores !! p.1))]> d.

(** ** What [get_grasps] asks of the detector *)

(** The suppression and the collision filter only drop grasps. *)
Definition filters_only (D : proposers) : Prop :=
  (forall t r l, nms D t r l ⊆ l)
  /\ (forall l, local_collision_detection D l ⊆ l).

(** The detector answers every cloud with one group, of grasps whose
    score is a number. *)
Definition one_group_per_cloud (D : proposers) : Prop :=
  forall clouds,
    length (graspnet D clouds) = length clouds
    /\ Forall (Forall (fun g => is_nan (score g) = false)) (graspnet D clouds).

(** A grasp that passes the two tests of [get_grasps]. *)
Definition passes (g : Grasp) : Prop :=
  in_workspace g = true /\ upright g = true.

(** What holds of every grasp that gets into the accumulated group. *)
Definition accepted (g : Grasp) : Prop :=
  is_nan (score g) = false /\ passes g.

(** ** A bench for the proposals *)

Module ProposalBench.

(** A detector that proposes, in the frame of each cloud, one grasp at
    every point of the cloud, scored by the point's height (by 0 where the
    height is not a number). *)
Definition propose (cloud : list vec3) : list Grasp :=
  map (fun p =>
         mkGrasp (if is_nan (vz p) then Fin 0 else vz p)
           (Fin 0.1) (Fin 0.02) (Fin 0.02) eye3 p 0) cloud.

Definition D : proposers :=
  mkProposers RigidTransform.inverse (map propose) (fun _ _ l => l)
    (fun l => l).

Definition shift (x : Q) : RigidTransform.t :=
  RigidTransform.of_translation (vec_of x 0 0).

Definition world : list vec3 :=
  [vec_of 0.5 0 0.3; vec_of 0.1 0 0.2; vec_of 0.4 0 (-0.2)].

Definition straight (n : nat) : trajectory :=
  map (fun i => [of_nat i]) (seq 0 n).

End ProposalBench.
(** * Properties *)

(** ** Sampling *)

Lemma int_of_nonneg (x : Q) : (0 <= x)%Q -> int_of x = Qfloor x.
Proof.
  destruct x as [n d]. unfold Qle, int_of, Qfloor. simpl. intros H.
  apply Z.quot_div_nonneg; lia.
Qed.

Lemma py_index_nonneg {A} (a : list A) (i : Z) :
  (0 <= i)%Z -> py_index a i = a !! Z.to_nat i.
Proof.
  intros Hi. unfold py_index.
  destruct (i <? 0)%Z eqn:Hneg; [apply Z.ltb_lt in Hneg; lia | reflexivity].
Qed.

Lemma Qltb_true (a b : Q) : Qltb a b = true <-> (a < b)%Q.
Proof.
  unfold Qltb. rewrite negb_true_iff. split.
  - intros H. apply Qnot_le_lt. intros Hle.
    apply Qle_bool_iff in Hle. congruence.
  - intros H. destruct (Qle_bool b a) eqn:Hle; [|reflexivity].
    apply Qle_bool_iff in Hle. exfalso. exact (Qlt_not_le _ _ H Hle).
Qed.

Lemma Qltb_false (a b : Q) : Qltb a b = false <-> (b <= a)%Q.
Proof.
  unfold Qltb. rewrite negb_false_iff. apply Qle_bool_iff.
Qed.

(** Rounding to the nearest integer does not cross an integer. *)
Lemma nearest_even_le (y : Q) (M : Z) :
  (y <= inject_Z M)%Q -> (nearest_even y <= M)%Z.
Proof.
  intros Hy. unfold nearest_even.
  pose proof (Qfloor_le y) as Hf.
  assert (Hfm : (Qfloor y <= M)%Z) by (rewrite Zle_Qle; lra).
  destruct (Qltb (y - inject_Z (Qfloor y)) (1 # 2)) eqn:Hlow; [exact Hfm|].
  apply Qltb_false in Hlow.
  assert (Hlt : (Qfloor y < M)%Z) by (rewrite Zlt_Qlt; lra).
  destruct (Qltb (1 # 2) (y - inject_Z (Qfloor y))); [lia|].
  destruct (Z.even (Qfloor y)); lia.
Qed.

Lemma nearest_even_ge (y : Q) (M : Z) :
  (inject_Z M <= y)%Q -> (M <= nearest_even y)%Z.
Proof.
  intros Hy. unfold nearest_even.
  assert (Hfm : (M <= Qfloor y)%Z).
  { rewrite <- (Qfloor_Z M). apply Qfloor_resp_le. exact Hy. }
  destruct (Qltb (y - inject_Z (Qfloor y)) (1 # 2)); [exact Hfm|].
  destruct (Qltb (1 # 2) (y - inject_Z (Qfloor y))); [lia|].
  destruct (Z.even (Qfloor y)); lia.
Qed.

Lemma pow2_nonpos (e : Z) :
  (e <= 0)%Z -> (pow2 e == / inject_Z (2 ^ (- e)))%Q.
Proof.
  intros He. unfold pow2. destruct (0 <=? e)%Z eqn:H0; [|reflexivity].
  apply Z.leb_le in H0. replace e with 0%Z by lia. reflexivity.
Qed.

Lemma ilog2_small (a : Q) (hi : Z) :
  (a <= inject_Z hi)%Q -> (hi < 2 ^ 53)%Z -> (ilog2 a <= 52)%Z.
Proof.
  intros Ha Hhi. unfold ilog2. destruct (Qle_bool 1 a) eqn:H1.
  - apply Qle_bool_iff in H1.
    assert (Hf1 : (1 <= Qfloor a)%Z).
    { rewrite <- (Qfloor_Z 1). apply Qfloor_resp_le. exact H1. }
    assert (Hfh : (Qfloor a <= hi)%Z).
    { rewrite Zle_Qle. pose proof (Qfloor_le a). lra. }
    assert (Z.log2 (Qfloor a) < 53)%Z; [|lia].
    apply Z.log2_lt_pow2; lia.
  - pose proof (Z.log2_up_nonneg (Qceiling (/ a))). lia.
Qed.

(** Between two integers below [2^53] a value stays between them when it
    is rounded to binary64. *)
Lemma binary64_between (x : Q) (lo hi : Z) :
  (0 <= lo)%Z -> (inject_Z lo <= x)%Q -> (x <= inject_Z hi)%Q ->
  (hi < 2 ^ 53)%Z ->
  exists r, binary64 x = Fin r /\ (inject_Z lo <= r)%Q /\ (r <= inject_Z hi)%Q.
Proof.
  intros Hlo Hlx Hxh Hhi.
  assert (Hlo0 : (0 <= inject_Z lo)%Q)
    by (change 0%Q with (inject_Z 0); rewrite <- Zle_Qle; exact Hlo).
  unfold binary64. destruct (Qeq_bool x 0) eqn:Hz.
  - apply Qeq_bool_iff in Hz. exists 0%Q. split; [reflexivity|]. lra.
  - apply Qeq_bool_neq in Hz.
    assert (Hpos : (0 < x)%Q).
    { destruct (Qle_lt_or_eq 0 x) as [H | H]; [lra | exact H |].
      exfalso. apply Hz. symmetry. exact H. }
    assert (Ha : (Qabs x == x)%Q) by (apply Qabs_pos; lra).
    set (a := Qabs x) in *.
    set (e := Z.max (ilog2 a - 52) (-1074)).
    assert (He : (e <= 0)%Z).
    { pose proof (ilog2_small a hi ltac:(lra) Hhi). lia. }
    set (P := (2 ^ (- e))%Z).
    assert (HP : (0 < P)%Z) by (apply Z.pow_pos_nonneg; lia).
    assert (HPq : (0 < inject_Z P)%Q)
      by (change 0%Q with (inject_Z 0); rewrite <- Zlt_Qlt; exact HP).
    pose proof (pow2_nonpos e He) as Hpow. fold P in Hpow.
    assert (Hy : (a / pow2 e == a * inject_Z P)%Q).
    { rewrite Hpow. field. lra. }
    set (m := nearest_even (a / pow2 e)).
    assert (Hmh : (m <= hi * P)%Z).
    { apply nearest_even_le. rewrite Hy, inject_Z_mult, Ha.
      apply Qmult_le_compat_r; lra. }
    assert (Hml : (lo * P <= m)%Z).
    { apply nearest_even_ge. rewrite Hy, inject_Z_mult, Ha.
      apply Qmult_le_compat_r; lra. }
    assert (Hr : (inject_Z m * pow2 e == inject_Z m / inject_Z P)%Q).
    { rewrite Hpow. reflexivity. }
    assert (Hrl : (inject_Z lo <= inject_Z m * pow2 e)%Q).
    { rewrite Hr. apply Qle_shift_div_l; [exact HPq|].
      rewrite <- inject_Z_mult, <- Zle_Qle. exact Hml. }
    assert (Hrh : (inject_Z m * pow2 e <= inject_Z hi)%Q).
    { rewrite Hr. apply Qle_shift_div_r; [exact HPq|].
      rewrite <- inject_Z_mult, <- Zle_Qle. exact Hmh. }
    destruct (Qle_bool (pow2 1024) (inject_Z m * pow2 e)) eqn:Hover.
    + exfalso. apply Qle_bool_iff in Hover.
      assert (Hbig : (inject_Z (2 ^ 1024) <= inject_Z hi)%Q).
      { change (pow2 1024) with (inject_Z (2 ^ 1024)) in Hover. lra. }
      rewrite <- Zle_Qle in Hbig.
      assert (2 ^ 53 < 2 ^ 1024)%Z by (apply Z.pow_lt_mono_r; lia).
      lia.
    + assert (Hs : Qltb 0 x = true) by (apply Qltb_true; exact Hpos).
      rewrite Hs. eexists. split; [reflexivity|].
      rewrite Qred_correct. split; assumption.
Qed.

(** The slider's index: the truncation of the binary64 product, which
    lies between the floor of the exact product and the integer above
    it. *)
Lemma sample_index_between (t : Q) (len : nat) (lo hi : Z) :
  (0 < len)%nat -> (Z.of_nat len < 2 ^ 53)%Z ->
  let x := (t * inject_Z (Z.of_nat len - 1))%Q in
  (0 <= lo)%Z -> (inject_Z lo <= x)%Q -> (x <= inject_Z hi)%Q ->
  (hi < 2 ^ 53)%Z ->
  exists r,
    rounded (mul (Fin t) (rounded (Fin (inject_Z (Z.of_nat len - 1))))) = Fin r
    /\ (inject_Z lo <= r)%Q /\ (r <= inject_Z hi)%Q
    /\ sample_index t len = Ok (Qfloor r).
Proof.
  intros Hlen Hbig x Hlo Hlx Hxh Hhi. unfold sample_index.
  set (N := (Z.of_nat len - 1)%Z) in *.
  assert (HN : (0 <= N)%Z) by lia.
  destruct (binary64_between (inject_Z N) N N HN) as (rN & HrN & HN1 & HN2);
    [apply Qle_refl | apply Qle_refl | lia |].
  assert (HNeq : (rN == inject_Z N)%Q) by (apply Qle_antisym; assumption).
  cbn [rounded]. rewrite HrN. cbn [mul rounded].
  set (x' := Qred (t * rN)).
  assert (Hx' : (x' == x)%Q).
  { unfold x', x. rewrite Qred_correct, HNeq. reflexivity. }
  destruct (binary64_between x' lo hi Hlo) as (r & Hr & Hr1 & Hr2);
    [lra | lra | exact Hhi |].
  exists r. rewrite Hr. split; [reflexivity|].
  split; [exact Hr1|]. split; [exact Hr2|].
  cbn [py_int]. rewrite int_of_nonneg; [reflexivity|].
  assert (0 <= inject_Z lo)%Q; [|lra].
  change 0%Q with (inject_Z 0). rewrite <- Zle_Qle. exact Hlo.
Qed.

(** C8, as amended: on a non-empty trajectory of length L (below 2^53)
    and for t in [0,1], the slider shows the configuration at index
    [int(t * (L - 1))]: the binary64 product truncated, not rounded to the
    nearest integer.  The product lies between floor(t * (L - 1)) and the
    integer above it, so the index is floor(t * (L - 1)), or the integer
    above it when the product rounds up to that integer; the index is in
    range, t = 0 gives the first configuration and t = 1 the last. *)
Theorem sample_truncates (traj_ : trajectory) (t : Q) :
  traj_ <> [] -> (Z.of_nat (length traj_) < 2 ^ 53)%Z ->
  (0 <= t)%Q -> (t <= 1)%Q ->
  let x := (t * inject_Z (Z.of_nat (length traj_) - 1))%Q in
  (exists r c,
     rounded (mul (Fin t)
                (rounded (Fin (inject_Z (Z.of_nat (length traj_) - 1)))))
     = Fin r
     /\ (inject_Z (Qfloor x) <= r)%Q /\ (r <= inject_Z (Qfloor x + 1))%Q
     /\ traj_ !! Z.to_nat (Qfloor r) = Some c
     /\ sample traj_ t = Ok c)
  /\ sample traj_ 0 = of_option IndexError (head traj_)
  /\ sample traj_ 1 = of_option IndexError (last traj_).
Proof.
  intros Hne Hbig Ht Ht1 x.
  assert (Hlen : (0 < length traj_)%nat)
    by (destruct traj_; [congruence | simpl; lia]).
  set (N := (Z.of_nat (length traj_) - 1)%Z) in *.
  assert (HN : (0 <= N)%Z) by (unfold N; lia).
  assert (HNbig : (N + 1 < 2 ^ 53)%Z) by (unfold N; lia).
  assert (HNlen : Z.to_nat N = pred (length traj_)) by (unfold N; lia).
  assert (HNlt : (Z.to_nat N < length traj_)%nat) by (unfold N; lia).
  assert (HNq : (0 <= inject_Z N)%Q)
    by (change 0%Q with (inject_Z 0); rewrite <- Zle_Qle; exact HN).
  assert (Hexact : forall u (k : Z),
            (0 <= k <= N)%Z -> (u * inject_Z N == inject_Z k)%Q ->
            sample traj_ u = of_option IndexError (traj_ !! Z.to_nat k)).
  { intros u k Hk Hu.
    destruct (sample_index_between u (length traj_) k k Hlen Hbig)
      as (r & _ & Hr1 & Hr2 & Hrun);
      [lia | fold N; rewrite Hu; apply Qle_refl
       | fold N; rewrite Hu; apply Qle_refl | lia |].
    assert (Hrk : (r == inject_Z k)%Q) by (apply Qle_antisym; assumption).
    unfold sample. rewrite Hrun, Hrk, Qfloor_Z. cbn [result_bind].
    rewrite py_index_nonneg by lia. reflexivity. }
  assert (Hx0 : (0 <= x)%Q) by (apply Qmult_le_0_compat; assumption).
  assert (HxN : (x <= inject_Z N)%Q).
  { unfold x. rewrite <- (Qmult_1_l (inject_Z N)) at 2.
    apply Qmult_le_compat_r; assumption. }
  assert (Hf0 : (0 <= Qfloor x)%Z).
  { rewrite <- (Qfloor_Z 0). apply Qfloor_resp_le. exact Hx0. }
  assert (HfN : (Qfloor x <= N)%Z).
  { rewrite <- (Qfloor_Z N). apply Qfloor_resp_le. exact HxN. }
  pose proof (Qfloor_le x) as Hfl. pose proof (Qlt_floor x) as Hfu.
  split; [|split].
  - destruct (sample_index_between t (length traj_) (Qfloor x) (Qfloor x + 1)
                Hlen Hbig Hf0) as (r & Hr & Hr1 & Hr2 & Hrun);
      [exact Hfl | fold N; fold x; lra | lia |].
    destruct (sample_index_between t (length traj_) (Qfloor x) N
                Hlen Hbig Hf0) as (r' & Hr' & _ & Hr3 & _);
      [exact Hfl | exact HxN | lia |].
    assert (r' = r) by congruence. subst r'.
    assert (Hrange : (0 <= Qfloor r <= N)%Z).
    { split.
      - rewrite <- (Qfloor_Z 0). apply Qfloor_resp_le.
        eapply Qle_trans; [|exact Hr1]. rewrite <- Zle_Qle. exact Hf0.
      - rewrite <- (Qfloor_Z N). apply Qfloor_resp_le. exact Hr3. }
    destruct (lookup_lt_is_Some_2 traj_ (Z.to_nat (Qfloor r))) as [c Hc];
      [apply Nat.le_lt_trans with (Z.to_nat N); [lia | exact HNlt]|].
    exists r, c. split; [exact Hr|]. split; [exact Hr1|].
    split; [exact Hr2|]. split; [exact Hc|].
    unfold sample. rewrite Hrun. cbn [result_bind].
    rewrite py_index_nonneg by lia. rewrite Hc. reflexivity.
  - rewrite (Hexact 0%Q 0%Z); [| lia | rewrite Qmult_0_l; reflexivity].
    rewrite head_lookup. reflexivity.
  - rewrite (Hexact 1%Q N); [| lia | rewrite Qmult_1_l; reflexivity].
    rewrite last_lookup, HNlen. reflexivity.
Qed.

Lemma sample_truncates_witness :
  sample Cases.two_step 0.75 = Ok [Fin 0; Fin 0; Fin 0]
  /\ sample Cases.two_step 1 = Ok [Fin 1; Fin 1; Fin 1].
Proof.
  assert (Hne : Cases.two_step <> []) by discriminate.
  assert (Hbig : (Z.of_nat (length Cases.two_step) < 2 ^ 53)%Z)
    by (vm_compute; reflexivity).
  assert (H0 : (0 <= 0.75)%Q) by (unfold Qle; simpl; lia).
  assert (H1 : (0.75 <= 1)%Q) by (unfold Qle; simpl; lia).
  destruct (sample_truncates Cases.two_step 0.75 Hne Hbig H0 H1)
    as ((r & c & _ & _ & _ & _ & Hs) & _ & Hl).
  split; [rewrite Hs; vm_compute in Hs; injection Hs as <- | rewrite Hl];
    reflexivity.
Defined.

(** C8 as stated fails: at t = 0.75 on a trajectory of two configurations
    the slider shows the first one, while index round(0.75 * 1) = 1 is the
    second. *)
Lemma sample_is_not_rounded :
  sample Cases.two_step 0.75 = Ok [Fin 0; Fin 0; Fin 0]
  /\ sample_spec Cases.two_step 0.75 = Some [Fin 1; Fin 1; Fin 1]
  /\ sample Cases.two_step 0.75
     <> of_option IndexError (sample_spec Cases.two_step 0.75).
Proof.
  split; [vm_compute; reflexivity | split; [reflexivity |]].
  intros H. vm_compute in H. discriminate.
Qed.

(** The rounding of the product is seen at the slider: the binary64 value
    nearest to 0.3 is below 0.3 and its exact product with 10 is below 3,
    but the rounded product is 3 and row 3 of 11 is shown; the product of
    the binary64 value nearest to 0.29 with 100 stays below 29 and row 28
    of 101 is shown. *)
Lemma sample_index_of_rounded_products :
  let t03 := 5404319552844595 # 18014398509481984 in
  let t029 := 5224175567749775 # 18014398509481984 in
  Qfloor (t03 * 10) = 2%Z /\ sample_index t03 11 = Ok 3%Z
  /\ Qfloor (t029 * 100) = 28%Z /\ sample_index t029 101 = Ok 28%Z.
Proof. vm_compute. repeat split; reflexivity. Qed.

(** On these products the rounding of the model is the rounding of the
    machine. *)
Lemma binary64_agrees_with_machine :
  forallb Machine.agree Machine.products = true.
Proof. vm_compute. reflexivity. Qed.

(** ** Running handlers *)

(** Reading a field of an updated session. *)
Ltac fields :=
  cbn [
    grasps grasps_dict lerf_scores geom_scores overall_scores
    pick_object_pt place_point grasp_point fin_grasp lerf_points_o3d
    lerf_relevancy traj world_pointcloud ur5_frame primative
    update_overall_scores_threshold update_overall_scores_slider
    gen_traj_slider gen_traj_button_disabled planner planner_calls
    shown_joints stdout set_grasps_dict set_lerf_scores
    set_geom_scores set_overall_scores set_pick_object_pt
    set_place_point set_grasp_point set_fin_grasp set_lerf_points_o3d
    set_lerf_relevancy set_traj set_ur5_frame set_gen_traj_slider
    set_gen_traj_button_disabled set_planner set_planner_calls
    set_shown_joints set_stdout ] in *.

(** One step of a handler: binds, state reads and writes, then fields. *)
Ltac step :=
  cbn [bind ret get modify lift raise print of_option result_bind]; fields.

Section Run.

Context {PS : Type}.
Implicit Types (st : session PS).

Lemma bind_ok {A B} (m : M PS A) (k : A -> M PS B) st a st' :
  m st = (Ok a, st') -> bind m k st = k a st'.
Proof. intros H. unfold bind. rewrite H. reflexivity. Qed.

Lemma bind_raise {A B} (m : M PS A) (k : A -> M PS B) st e st' :
  m st = (Raise e, st') -> bind m k st = (Raise e, st').
Proof. intros H. unfold bind. rewrite H. reflexivity. Qed.


Lemma bind_assoc {A B C} (m : M PS A) (k1 : A -> M PS B) (k2 : B -> M PS C)
    st :
  bind (bind m k1) k2 st = bind m (fun a => bind (k1 a) k2) st.
Proof. unfold bind. destruct (m st) as [[a|e] st1]; reflexivity. Qed.

End Run.

(** ** Indexing *)

Lemma take_indices_in_range {A} (a : list A) (idx : list nat) :
  Forall (fun i => (i < length a)%nat) idx ->
  take_indices a idx = Ok (omap (fun i => a !! i) idx)
  /\ length (omap (fun i => a !! i) idx) = length idx.
Proof.
  induction 1 as [|i idx Hi _ [IH IHlen]]; [split; reflexivity|].
  destruct (lookup_lt_is_Some_2 a i Hi) as [x Hx].
  simpl. rewrite Hx. simpl. rewrite IH. simpl. split; [reflexivity |].
  f_equal. exact IHlen.
Qed.

Lemma omap_lookup_elem {A} (a : list A) (idx : list nat) (x : A) :
  x ∈ omap (fun i => a !! i) idx -> x ∈ a.
Proof.
  rewrite list_elem_of_omap. intros (i & _ & Hi).
  apply list_elem_of_lookup. exists i. exact Hi.
Qed.

(** ** Scoring *)

Section Scoring.

Context {PS : Type} (E : externals PS).
Implicit Types (st : session PS).

Lemma score_grasp_in_range lerf_points relevancy dino_pcd grasp :
  indices_in_range E -> length relevancy = length lerf_points ->
  score_grasp E lerf_points relevancy dino_pcd grasp
  = Ok (semantic_of E lerf_points relevancy grasp,
        geometric_of E dino_pcd grasp).
Proof.
  intros Hin Hlen. unfold score_grasp, semantic_of, geometric_of, relevancy_inside.
  specialize (Hin (get_bbox_from_grasp grasp) lerf_points).
  rewrite <- Hlen in Hin.
  destruct (take_indices_in_range relevancy _ Hin) as [Htake Hl].
  rewrite Hl.
  destruct (length _ =? 0)%nat eqn:Hz; simpl; [reflexivity|].
  rewrite Htake. reflexivity.
Qed.

Lemma score_loop_in_range rc grasps_ st :
  indices_in_range E ->
  length (rc_lerf_relevancy rc) = length (rc_lerf_points rc) ->
  exists st',
    score_loop E rc grasps_ st = (Ok tt, st')
    /\ lerf_scores st'
       = lerf_scores st
         ++ map (semantic_of E (rc_lerf_points rc) (rc_lerf_relevancy rc)) grasps_
    /\ geom_scores st'
       = geom_scores st ++ map (geometric_of E (rc_dino_pcd rc)) grasps_.
Proof.
  intros Hin Hlen. revert st.
  induction grasps_ as [|g gs IH]; intros st.
  - exists st. simpl. rewrite !app_nil_r. auto.
  - simpl. unfold bind at 1, lift.
    rewrite score_grasp_in_range by assumption.
    unfold bind at 1, modify. unfold bind at 1.
    match goal with |- context [score_loop E rc gs ?s] =>
      destruct (IH s) as (st' & Hrun & Hl & Hg) end.
    exists st'. split; [exact Hrun|].
    rewrite Hl, Hg. simpl. rewrite <- !app_assoc. auto.
Qed.

(** C10: the scoring loop records, for every grasp, the geometric score
    0.0 when no point of the DINO cloud lies inside the grasp's box, and
    the detector's own score otherwise.  The loop returns whenever the box
    query answers with indices of the cloud it was given and the relevancy
    array has one value per LERF point. *)
Theorem geometric_score_zeroed (rc : relevancy_cloud) (grasps_ : list Grasp) st :
  grasps st = Some grasps_ ->
  indices_in_range E ->
  length (rc_lerf_relevancy rc) = length (rc_lerf_points rc) ->
  rc_lerf_relevancy rc <> [] ->
  exists st',
    compute_scores E rc st = (Ok tt, st')
    /\ geom_scores st'
       = map (fun grasp =>
                if (length (get_point_indices_within_bounding_box E
                              (get_bbox_from_grasp grasp) (rc_dino_pcd rc))
                    =? 0)%nat
                then Fin 0 else score grasp) grasps_.
Proof.
  intros Hgs Hin Hlen Hne.
  unfold compute_scores. step. rewrite Hgs. step.
  match goal with |- context [bind (score_loop E rc grasps_) _ ?s] =>
    destruct (score_loop_in_range rc grasps_ s Hin Hlen) as (st1 & Hrun & Hl & Hg) end.
  setoid_rewrite (bind_ok _ _ _ _ _ Hrun).
  unfold normalize_lerf_scores.
  destruct (rc_lerf_relevancy rc) as [|r rs] eqn:Hrel; [congruence|]. step.
  eexists. split; [reflexivity|]. step. exact Hg.
Qed.

End Scoring.

Lemma bench_indices_in_range : indices_in_range Bench.E.
Proof.
  intros box points. apply Forall_forall. intros i Hi.
  simpl in Hi. unfold Bench.indices_within in Hi.
  apply list_elem_of_fmap in Hi as ([j p] & -> & Hjp).
  apply list_elem_of_filter in Hjp as [_ Hjp].
  apply elem_of_zip_l in Hjp. apply elem_of_seq in Hjp. simpl. lia.
Qed.

Lemma geometric_score_zeroed_witness :
  exists st',
    compute_scores Bench.E Cases.cloud
      (Cases.loaded Cases.three_grasps prim_grasp []) = (Ok tt, st')
    /\ geom_scores st' = [Fin 0.9; Fin 0; Fin 0.4].
Proof.
  assert (Hne : rc_lerf_relevancy Cases.cloud <> []) by discriminate.
  destruct (geometric_score_zeroed Bench.E Cases.cloud Cases.three_grasps
              (Cases.loaded Cases.three_grasps prim_grasp [])
              eq_refl bench_indices_in_range eq_refl Hne) as (st' & Hrun & Hg).
  exists st'. split; [exact Hrun | rewrite Hg; reflexivity].
Defined.

(** ** Comparing values *)

Lemma ltb_irrefl_eqb (x y : float) : eqb x y = true -> ltb x y = false.
Proof.
  destruct x as [a| | |], y as [b| | |]; simpl; try discriminate; try reflexivity.
  intros H. apply Qeq_bool_iff in H. unfold Qltb.
  apply negb_false_iff. apply Qle_bool_iff. rewrite H. apply Qle_refl.
Qed.

(** ** What a candidate records *)

Section Records.

Context {PS : Type} (E : externals PS).





End Records.


Section Recorded.

Context {PS : Type} (E : externals PS).






End Recorded.


(** ** Rotation trials *)

Section Trials.

Context {PS : Type} (E : externals PS).

(** C7: a rotation trial whose composed target pose has an approach axis
    with positive world z-component ends before the target is re-centred
    and before any planner method is called: the trial leaves the session
    as it was but for the line "Trying rotation i", so the planner's state
    and its call log are untouched, nothing is recorded and no failure is
    reported, and the loop continues.  The single attempts of "twist" and
    "pour" use fixed rotations whose approach axis never points upward. *)
Theorem upward_trial_rejected (ind : nat)
    (grasp2world_pose ur52grasp_pose_ : frame_handle) (i : nat)
    (succ_traj_list_ : successes) (st : session PS) :
  let pose := composed_pose E (primative st) grasp2world_pose ur52grasp_pose_ i in
  gtb (RigidTransform.approach_z pose) (Fin 0) = true ->
  rotation_trial E ind grasp2world_pose ur52grasp_pose_ i succ_traj_list_ st
  = (Ok (loop_continue, succ_traj_list_, pose),
     set_stdout (stdout st ++ [msg_trying_rotation i]) st)
  /\ gtb (RigidTransform.approach_z (twist_pose grasp2world_pose ur52grasp_pose_))
         (Fin 0) = false
  /\ gtb (RigidTransform.approach_z (pour_pose grasp2world_pose ur52grasp_pose_))
         (Fin 0) = false.
Proof.
  intros pose Hup. split; [|split; reflexivity].
  unfold rotation_trial. step. fold pose. rewrite Hup. reflexivity.
Qed.

End Trials.

Lemma upward_trial_rejected_witness :
  let st := Cases.loaded Cases.three_grasps prim_grasp [true; true] in
  exists pose,
    rotation_trial Bench.E 0 Cases.upward_handle Cases.ur5_handle 0 [] st
    = (Ok (loop_continue, [], pose),
       set_stdout [msg_trying_rotation 0] st).
Proof.
  intros st. eexists.
  refine (proj1 (upward_trial_rejected Bench.E 0 Cases.upward_handle
                   Cases.ur5_handle 0 [] st _)).
  vm_compute. reflexivity.
Defined.

(** ** Values up to the representation of rationals *)

Lemma same_refl (x : float) : same x x.
Proof. destruct x; simpl; [apply Qeq_refl | exact I ..]. Qed.

Lemma same_sym (x y : float) : same x y -> same y x.
Proof. destruct x, y; simpl; try tauto. apply Qeq_sym. Qed.

Lemma same_trans (x y z : float) : same x y -> same y z -> same x z.
Proof. destruct x, y, z; simpl; try tauto. apply Qeq_trans. Qed.

Lemma Qltb_proper (a a' b b' : Q) :
  (a == a')%Q -> (b == b')%Q -> Qltb a b = Qltb a' b'.
Proof.
  intros Ha Hb. unfold Qltb. f_equal.
  destruct (Qle_bool b a) eqn:H1, (Qle_bool b' a') eqn:H2; try reflexivity.
  - apply Qle_bool_iff in H1. rewrite Ha, Hb in H1.
    apply Qle_bool_iff in H1. congruence.
  - apply Qle_bool_iff in H2. rewrite <- Ha, <- Hb in H2.
    apply Qle_bool_iff in H2. congruence.
Qed.

Lemma ltb_same (x x' y y' : float) :
  same x x' -> same y y' -> ltb x y = ltb x' y'.
Proof.
  destruct x, x', y, y'; simpl; try tauto; try reflexivity.
  apply Qltb_proper.
Qed.

Lemma eqb_same (x x' y y' : float) :
  same x x' -> same y y' -> eqb x y = eqb x' y'.
Proof.
  destruct x, x', y, y'; simpl; try tauto; try reflexivity.
  intros Hx Hy.
  destruct (Qeq_bool q q1) eqn:H1, (Qeq_bool q0 q2) eqn:H2; try reflexivity.
  - apply Qeq_bool_iff in H1. rewrite Hx, Hy in H1.
    apply Qeq_bool_iff in H1. congruence.
  - apply Qeq_bool_iff in H2. rewrite <- Hx, <- Hy in H2.
    apply Qeq_bool_iff in H2. congruence.
Qed.

Lemma sort_le_same (x x' y y' : float) :
  same x x' -> same y y' -> sort_le x y = sort_le x' y'.
Proof.
  intros Hx Hy. unfold sort_le, leb.
  rewrite (ltb_same x x' y y' Hx Hy), (eqb_same x x' y y' Hx Hy).
  destruct x, x', y, y'; simpl in *; try tauto; reflexivity.
Qed.

(** ** Ranking *)

Section Ranking.

Variables a b : list float.
Hypothesis same_length : length a = length b.
Hypothesis same_values :
  forall i x y, a !! i = Some x -> b !! i = Some y -> same x y.

Lemma nth_same (i : nat) :
  (i < length a)%nat -> same (nth i a NaN) (nth i b NaN).
Proof using same_length same_values.
  intros Hi.
  destruct (lookup_lt_is_Some_2 a i Hi) as [x Hx].
  destruct (lookup_lt_is_Some_2 b i) as [y Hy]; [lia|].
  rewrite (nth_lookup_Some _ _ _ _ Hx), (nth_lookup_Some _ _ _ _ Hy).
  eapply same_values; eassumption.
Qed.

Lemma argsort_insert_same (i : nat) (l : list nat) :
  (i < length a)%nat -> Forall (fun j => (j < length a)%nat) l ->
  argsort_insert a i l = argsort_insert b i l
  /\ Forall (fun j => (j < length a)%nat) (argsort_insert a i l).
Proof using same_length same_values.
  intros Hi Hl. induction Hl as [|j l Hj Hl [IH IHF]]; simpl.
  - split; [reflexivity | repeat constructor; exact Hi].
  - rewrite <- (sort_le_same _ _ _ _ (nth_same i Hi) (nth_same j Hj)).
    destruct (sort_le (nth i a NaN) (nth j a NaN)).
    + split; [reflexivity | repeat constructor; assumption].
    + rewrite IH. split; [reflexivity | constructor; [exact Hj|]].
      rewrite <- IH. exact IHF.
Qed.

(** Arrays with the same values at every index are ranked alike. *)
Lemma np_argsort_same : np_argsort a = np_argsort b.
Proof using same_length same_values.
  unfold np_argsort. rewrite <- same_length.
  assert (H : forall idxs, Forall (fun j => (j < length a)%nat) idxs ->
            fold_right (argsort_insert a) [] idxs
            = fold_right (argsort_insert b) [] idxs
            /\ Forall (fun j => (j < length a)%nat)
                 (fold_right (argsort_insert a) [] idxs)).
  { induction 1 as [|i idxs Hi _ [IH IHF]]; simpl; [split; [reflexivity | constructor]|].
    rewrite <- IH. apply argsort_insert_same; assumption. }
  apply H. apply Forall_forall. intros j Hj. apply elem_of_seq in Hj. lia.
Qed.

End Ranking.

(** ** Fusion *)

(** The weighted sum of two finite scores, as a rational. *)
Lemma weighted_sum_finite (w l g : Q) :
  exists q,
    add (mul (Fin w) (Fin l)) (mul (sub (Fin 1) (Fin w)) (Fin g)) = Fin q
    /\ (q == w * l + (1 - w) * g)%Q.
Proof.
  eexists. split; [reflexivity|].
  rewrite !Qred_correct. ring.
Qed.

(** C9: for score arrays of one length and finite entries the fused score
    of every candidate is weight * semantic + (1 - weight) * geometric;
    with weight 1.0 the fused scores rank the candidates ([np.argsort])
    and compare any two of them as the semantic scores do, and with weight
    0.0 as the geometric scores do. *)
Theorem fused_is_weighted_sum (lerf_weight : Q) (lerf geom : list float) :
  length lerf = length geom ->
  Forall (fun x => is_finite x = true) lerf ->
  Forall (fun x => is_finite x = true) geom ->
  exists origin fused,
    fused_scores lerf_weight lerf geom = Ok (origin, fused)
    /\ length fused = length lerf
    /\ (forall i l g, lerf !! i = Some l -> geom !! i = Some g ->
        exists f, fused !! i = Some f
          /\ same f (add (mul (Fin lerf_weight) l)
                         (mul (sub (Fin 1) (Fin lerf_weight)) g)))
    /\ ((lerf_weight == 1)%Q ->
        np_argsort fused = np_argsort lerf
        /\ forall i j fi fj li lj,
             fused !! i = Some fi -> fused !! j = Some fj ->
             lerf !! i = Some li -> lerf !! j = Some lj ->
             ltb fi fj = ltb li lj)
    /\ ((lerf_weight == 0)%Q ->
        np_argsort fused = np_argsort geom
        /\ forall i j fi fj gi gj,
             fused !! i = Some fi -> fused !! j = Some fj ->
             geom !! i = Some gi -> geom !! j = Some gj ->
             ltb fi fj = ltb gi gj).
Proof.
  intros Hlen Hl Hg.
  assert (Hsum : exists origin fused,
    fused_scores lerf_weight lerf geom = Ok (origin, fused)
    /\ length fused = length lerf
    /\ (forall i l g, lerf !! i = Some l -> geom !! i = Some g ->
        exists f, fused !! i = Some f
          /\ same f (add (mul (Fin lerf_weight) l)
                         (mul (sub (Fin 1) (Fin lerf_weight)) g)))).
  { unfold fused_scores.
    destruct (length lerf =? 0)%nat eqn:Hz.
    { apply Nat.eqb_eq in Hz. exists geom_scores_list, geom.
      split; [reflexivity|]. split; [congruence|].
      intros i l g Hi _. apply lookup_lt_Some in Hi. lia. }
    destruct (Qeq_bool lerf_weight 1) eqn:Hw.
    { apply Qeq_bool_iff in Hw. exists lerf_scores_array, lerf.
      split; [reflexivity|]. split; [reflexivity|].
      intros i l g Hi Hgi. exists l. split; [exact Hi|].
      pose proof (proj1 (Forall_lookup _ _) Hl i l Hi) as Hfl.
      pose proof (proj1 (Forall_lookup _ _) Hg i g Hgi) as Hfg.
      destruct l as [ql| | |]; try discriminate.
      destruct g as [qg| | |]; try discriminate.
      destruct (weighted_sum_finite lerf_weight ql qg) as (q & -> & Hq).
      simpl. rewrite Hq, Hw. ring. }
    rewrite Hlen, Nat.eqb_refl. eexists fresh_array, _.
    split; [reflexivity|]. split.
    { rewrite length_zip_with. lia. }
    intros i l g Hi Hgi. eexists. split; [|apply same_refl].
    rewrite lookup_zip_with, Hi, Hgi. reflexivity. }
  destruct Hsum as (origin & fused & Hrun & Hflen & Hsum).
  exists origin, fused. split; [exact Hrun|]. split; [exact Hflen|].
  split; [exact Hsum|].
  assert (Hfin : forall i f x, fused !! i = Some f -> lerf !! i = Some x ->
            exists ql qg, x = Fin ql /\ geom !! i = Some (Fin qg)
              /\ same f (Fin (lerf_weight * ql + (1 - lerf_weight) * qg))).
  { intros i f x Hf Hx.
    destruct (lookup_lt_is_Some_2 geom i) as [g Hgi].
    { rewrite <- Hlen. eapply lookup_lt_Some, Hx. }
    pose proof (proj1 (Forall_lookup _ _) Hl i x Hx) as Hfl.
    pose proof (proj1 (Forall_lookup _ _) Hg i g Hgi) as Hfg.
    destruct x as [ql| | |]; try discriminate.
    destruct g as [qg| | |]; try discriminate.
    destruct (Hsum i _ _ Hx Hgi) as (f' & Hf' & Hsame).
    assert (f' = f) by congruence. subst f'.
    exists ql, qg. split; [reflexivity|]. split; [exact Hgi|].
    destruct (weighted_sum_finite lerf_weight ql qg) as (q & Hq1 & Hq2).
    rewrite Hq1 in Hsame. eapply same_trans; [exact Hsame|]. exact Hq2. }
  assert (Hone : (lerf_weight == 1)%Q ->
            forall i f l, fused !! i = Some f -> lerf !! i = Some l -> same f l).
  { intros Hw i f l Hf Hli.
    destruct (Hfin i f l Hf Hli) as (ql & qg & -> & _ & Hs).
    eapply same_trans; [exact Hs|]. simpl. rewrite Hw. ring. }
  assert (Hzero : (lerf_weight == 0)%Q ->
            forall i f g, fused !! i = Some f -> geom !! i = Some g -> same f g).
  { intros Hw i f g Hf Hgi.
    destruct (lookup_lt_is_Some_2 lerf i) as [l Hli].
    { rewrite Hlen. eapply lookup_lt_Some, Hgi. }
    destruct (Hfin i f l Hf Hli) as (ql & qg & -> & Hgi' & Hs).
    assert (g = Fin qg) by congruence. subst g.
    eapply same_trans; [exact Hs|]. simpl. rewrite Hw. ring. }
  split.
  - intros Hw. split.
    + apply np_argsort_same; [exact Hflen | exact (Hone Hw)].
    + intros i j fi fj li lj Hfi Hfj Hli Hlj.
      apply ltb_same; eapply Hone; eassumption.
  - intros Hw. split.
    + apply np_argsort_same; [congruence | exact (Hzero Hw)].
    + intros i j fi fj gi gj Hfi Hfj Hgi Hgj.
      apply ltb_same; eapply Hzero; eassumption.
Qed.

Lemma fused_is_weighted_sum_witness :
  fused_scores 0.95 [Fin 0; Fin 0; Fin (1 # 4)] [Fin 0.9; Fin 0; Fin 0.4]
  = Ok (fresh_array, [Fin (9 # 200); Fin 0; Fin (103 # 400)]).
Proof.
  destruct (fused_is_weighted_sum 0.95
              [Fin 0; Fin 0; Fin (1 # 4)] [Fin 0.9; Fin 0; Fin 0.4]
              eq_refl)
    as (origin & fused & Hrun & _).
  - repeat constructor.
  - repeat constructor.
  - rewrite Hrun. vm_compute in Hrun. injection Hrun as <- <-. reflexivity.
Defined.

(** ** Selection *)

Lemma not_ltb_geb (x y : float) :
  is_nan x = false -> is_nan y = false -> ltb x y = false -> geb x y = true.
Proof.
  unfold geb, leb.
  destruct x as [a| | |], y as [b| | |]; simpl; try discriminate; try reflexivity.
  intros _ _ H. apply Qltb_false in H.
  apply orb_true_iff.
  destruct (Qle_lt_or_eq _ _ H) as [Hlt | Heq].
  - left. apply Qltb_true. exact Hlt.
  - right. apply Qeq_bool_iff. exact Heq.
Qed.

Lemma ltb_geb (x y : float) : ltb x y = true -> geb y x = true.
Proof. unfold geb, leb. intros ->. reflexivity. Qed.

Lemma insert_by_score_perm (g : Grasp) (l : list Grasp) :
  insert_by_score g l ≡ₚ g :: l.
Proof.
  induction l as [|h l IH]; simpl; [reflexivity|].
  destruct (ltb (score h) (score g)); [|reflexivity].
  rewrite IH. apply perm_swap.
Qed.

Lemma insertion_perm (l : list Grasp) : fold_right insert_by_score [] l ≡ₚ l.
Proof.
  induction l as [|g l IH]; simpl; [reflexivity|].
  rewrite insert_by_score_perm, IH. reflexivity.
Qed.

Lemma sort_by_score_perm (l : list Grasp) : sort_by_score l ≡ₚ l.
Proof.
  unfold sort_by_score. rewrite reverse_Permutation. apply insertion_perm.
Qed.

Lemma insert_by_score_sorted (g : Grasp) (l : list Grasp) :
  is_nan (score g) = false ->
  Forall (fun h => is_nan (score h) = false) l ->
  Sorted (flip descending_by_score) l ->
  Sorted (flip descending_by_score) (insert_by_score g l).
Proof.
  intros Hg Hl Hs. induction Hs as [|h l Hs IH Hhd]; simpl.
  - repeat constructor.
  - apply Forall_cons in Hl as [Hh Hl].
    destruct (ltb (score h) (score g)) eqn:Hlt.
    + constructor; [apply IH; exact Hl|].
      destruct Hhd as [|k l Hhk]; simpl.
      * constructor. apply ltb_geb. exact Hlt.
      * destruct (ltb (score k) (score g)); constructor;
          [exact Hhk | apply ltb_geb; exact Hlt].
    + constructor; [constructor; assumption|].
      constructor. apply not_ltb_geb; assumption.
Qed.

Lemma sort_by_score_sorted (l : list Grasp) :
  Forall (fun h => is_nan (score h) = false) l ->
  Sorted descending_by_score (sort_by_score l).
Proof.
  intros Hl. unfold sort_by_score.
  apply (Sorted_reverse (flip descending_by_score)).
  induction Hl as [|g l Hg Hl IH]; [constructor|]. simpl.
  apply insert_by_score_sorted; [exact Hg | | exact IH].
  rewrite insertion_perm. exact Hl.
Qed.

Lemma selected_filter (grasps_ : list Grasp) (scores : list float)
    (scores_threshold : float) (k : nat) :
  (k + length grasps_ <= length scores)%nat ->
  selected grasps_ scores scores_threshold k
  = Ok (filter (kept scores scores_threshold)
          (zip (seq k (length grasps_)) grasps_)).
Proof.
  revert k. induction grasps_ as [|g gs IH]; intros k Hk; [reflexivity|].
  simpl in Hk. simpl.
  destruct (lookup_lt_is_Some_2 scores k) as [s Hs]; [lia|].
  rewrite Hs. simpl. rewrite IH by lia. simpl.
  rewrite filter_cons.
  destruct (decide (kept scores scores_threshold (k, g))) as [Hk'|Hk'];
    unfold kept in Hk'; simpl in Hk'; rewrite Hs in Hk'; simpl in Hk'.
  - rewrite Hk'. reflexivity.
  - apply not_true_is_false in Hk'. rewrite Hk'. reflexivity.
Qed.

Lemma elem_of_enumerate (grasps_ : list Grasp) (ind : nat) (g : Grasp) :
  (ind, g) ∈ zip (seq 0 (length grasps_)) grasps_ <-> grasps_ !! ind = Some g.
Proof.
  split.
  - intros H. apply elem_of_lookup_zip_with in H as (i & x & y & Heq & Hx & Hy).
    injection Heq as -> ->.
    apply lookup_seq in Hx as [-> _]. exact Hy.
  - intros Hg. apply elem_of_lookup_zip_with. exists ind, ind, g.
    split; [reflexivity|].
    split; [|exact Hg]. apply lookup_seq. split; [reflexivity|].
    eapply lookup_lt_Some, Hg.
Qed.

Lemma omap_lookup_pairs (grasps_ : list Grasp) (l : list (nat * Grasp)) :
  (forall p, p ∈ l -> grasps_ !! p.1 = Some p.2) ->
  omap (fun ind => grasps_ !! ind) (l.*1) = l.*2.
Proof.
  induction l as [|p l IH]; intros H; [reflexivity|].
  simpl. rewrite (H p) by left. simpl. f_equal.
  apply IH. intros q Hq. apply H. right. exact Hq.
Qed.

(** What the two comprehensions keep: the pairs of the candidates above
    the threshold, each candidate once. *)
Lemma selected_above (grasps_ : list Grasp) (scores : list float)
    (thr : float) :
  (length grasps_ <= length scores)%nat ->
  let sel := filter (kept scores thr) (zip (seq 0 (length grasps_)) grasps_) in
  selected grasps_ scores thr 0 = Ok sel
  /\ (forall ind, ind ∈ sel.*1 <-> above grasps_ scores thr ind)
  /\ (forall p, p ∈ sel -> grasps_ !! p.1 = Some p.2)
  /\ NoDup sel.*1.
Proof.
  intros Hlen sel. split; [apply selected_filter; simpl; lia|].
  assert (Hpairs : forall p, p ∈ sel -> grasps_ !! p.1 = Some p.2).
  { intros [i g] Hp. apply list_elem_of_filter in Hp as [_ Hp].
    apply elem_of_enumerate. exact Hp. }
  split; [|split; [exact Hpairs|]].
  - intros ind. rewrite list_elem_of_fmap. split.
    + intros ([i g] & -> & Hp). apply list_elem_of_filter in Hp as [Hk Hp].
      apply elem_of_enumerate in Hp. simpl.
      destruct (lookup_lt_is_Some_2 scores i) as [s Hs].
      { apply lookup_lt_Some in Hp. lia. }
      exists g, s. split; [exact Hp|]. split; [exact Hs|].
      unfold kept in Hk. simpl in Hk. rewrite Hs in Hk. exact Hk.
    + intros (g & s & Hg & Hs & Habove). exists (ind, g).
      split; [reflexivity|]. apply list_elem_of_filter. split.
      * unfold kept. simpl. rewrite Hs. exact Habove.
      * apply elem_of_enumerate. exact Hg.
  - eapply sublist_NoDup; [apply (NoDup_seq 0 (length grasps_))|].
    rewrite <- (fst_zip (seq 0 (length grasps_)) grasps_)
      by (rewrite length_seq; lia).
    apply fmap_sublist. apply sublist_filter.
Qed.

(** C2, as amended: when some candidate has a fused score above the
    quantile of the fused scores, the selection returns, and it holds
    exactly the candidates whose fused score is strictly greater than the
    quantile, each once; the selected grasps come out ordered descending
    by the detector's own score, the fused score playing no part in the
    order. *)
Theorem select_above_quantile (grasps_ : list Grasp) (scores : list float)
    (quantile : Q) :
  (length grasps_ <= length scores)%nat ->
  Forall (fun g => is_nan (score g) = false) grasps_ ->
  let scores_threshold := np_quantile scores quantile in
  (exists ind, above grasps_ scores scores_threshold ind) ->
  exists inds_selected grasps_selected,
    select grasps_ scores scores_threshold
    = Ok (inds_selected, grasps_selected)
    /\ (forall ind, ind ∈ inds_selected
                    <-> above grasps_ scores scores_threshold ind)
    /\ NoDup inds_selected
    /\ grasps_selected ≡ₚ omap (fun ind => grasps_ !! ind) inds_selected
    /\ Sorted descending_by_score grasps_selected.
Proof.
  intros Hlen Hnan thr [ind0 Hind0]. unfold select.
  destruct (selected_above grasps_ scores thr Hlen)
    as (-> & Hmem & Hpairs & Hnodup).
  set (sel := filter (kept scores thr) (zip (seq 0 (length grasps_)) grasps_))
    in *.
  cbn [result_bind]. rewrite length_fmap.
  destruct (length sel =? 0)%nat eqn:Hz.
  - apply Nat.eqb_eq, nil_length_inv in Hz.
    apply Hmem in Hind0. rewrite Hz in Hind0. inversion Hind0.
  - exists sel.*1, (sort_by_score sel.*2). split; [reflexivity|].
    split; [exact Hmem|]. split; [exact Hnodup|]. split.
    + rewrite sort_by_score_perm. rewrite omap_lookup_pairs by exact Hpairs.
      reflexivity.
    + apply sort_by_score_sorted. apply Forall_forall. intros g Hg.
      apply list_elem_of_fmap in Hg as ([i g'] & -> & Hp).
      apply Hpairs in Hp. simpl in Hp.
      apply (proj1 (Forall_lookup _ _) Hnan i g' Hp).
Qed.

Lemma select_above_quantile_witness :
  select Cases.three_grasps [Fin 0.5; Fin 0.7; Fin 0.1]
    (np_quantile [Fin 0.5; Fin 0.7; Fin 0.1] 0.25)
  = Ok ([0; 1]%nat, [Cases.grasp_at 0.9 0; Cases.grasp_at 0.8 1])
  /\ Sorted descending_by_score [Cases.grasp_at 0.9 0; Cases.grasp_at 0.8 1].
Proof.
  assert (Hlen : (length Cases.three_grasps <= length [Fin 0.5; Fin 0.7; Fin 0.1])%nat)
    by (simpl; lia).
  assert (Hnan : Forall (fun g => is_nan (score g) = false) Cases.three_grasps)
    by (repeat constructor).
  destruct (select_above_quantile Cases.three_grasps
              [Fin 0.5; Fin 0.7; Fin 0.1] 0.25 Hlen Hnan)
    as (inds & gs & Hsel & _ & _ & _ & Hsorted).
  - exists 0%nat, (Cases.grasp_at 0.9 0), (Fin 0.5).
    split; [reflexivity|]. split; [reflexivity|]. vm_compute. reflexivity.
  - assert (Hrun : select Cases.three_grasps [Fin 0.5; Fin 0.7; Fin 0.1]
                     (np_quantile [Fin 0.5; Fin 0.7; Fin 0.1] 0.25)
                   = Ok ([0; 1]%nat,
                         [Cases.grasp_at 0.9 0; Cases.grasp_at 0.8 1]))
      by (vm_compute; reflexivity).
    rewrite Hrun in Hsel. injection Hsel as <- <-.
    split; [exact Hrun | exact Hsorted].
Defined.

(** C2 as stated fails: with fused scores 0.5, 0.7 and 0.1 and quantile
    0.25 the first two candidates are selected, and they come out with the
    candidate of fused score 0.5 before the one of fused score 0.7: the
    order is that of the detector's scores 0.9 and 0.8. *)
Lemma selection_not_ordered_by_fused_score :
  let fused := [Fin 0.5; Fin 0.7; Fin 0.1] in
  exists first second,
    select Cases.three_grasps fused (np_quantile fused 0.25)
    = Ok ([0; 1]%nat, [first; second])
    /\ Cases.three_grasps !! 0%nat = Some first
    /\ Cases.three_grasps !! 1%nat = Some second
    /\ ltb (Fin 0.5) (Fin 0.7) = true.
Proof.
  eexists _, _. split; [vm_compute; reflexivity|].
  repeat split; reflexivity.
Qed.

(** ** Rescale *)

Lemma take_indices_all {A} (P : A -> Prop) (a : list A) (inds : list nat) :
  (forall ind, ind ∈ inds -> exists x, a !! ind = Some x /\ P x) ->
  exists sel,
    take_indices a inds = Ok sel /\ Forall P sel /\ length sel = length inds.
Proof.
  induction inds as [|i inds IH]; intros H.
  - exists []. repeat split. constructor.
  - destruct (H i) as (x & Hx & HP); [left|].
    destruct IH as (sel & Hsel & HF & Hlen).
    { intros ind Hind. apply H. right. exact Hind. }
    exists (x :: sel). simpl. rewrite Hx. simpl. rewrite Hsel. simpl.
    repeat split; [constructor; assumption | f_equal; exact Hlen].
Qed.

Lemma fold_min2_value (v : Q) (sel : list float) (acc : float) :
  Forall (is_value v) sel -> is_value v acc ->
  is_value v (fold_left min2 sel acc).
Proof.
  intros Hsel. revert acc.
  induction Hsel as [|x sel Hx _ IH]; intros acc Hacc; [exact Hacc|].
  simpl. apply IH.
  destruct Hx as (qx & -> & Hqx), Hacc as (qa & -> & Hqa).
  unfold min2. simpl. destruct (Qltb qx qa); eexists; split; eauto.
Qed.

Lemma fold_max2_value (v : Q) (sel : list float) (acc : float) :
  Forall (is_value v) sel -> is_value v acc ->
  is_value v (fold_left max2 sel acc).
Proof.
  intros Hsel. revert acc.
  induction Hsel as [|x sel Hx _ IH]; intros acc Hacc; [exact Hacc|].
  simpl. apply IH.
  destruct Hx as (qx & -> & Hqx), Hacc as (qa & -> & Hqa).
  unfold max2. simpl. destruct (Qltb qa qx); eexists; split; eauto.
Qed.

(** When the selected scores all share one finite value, the rescale
    subtracts it, finds the maximum 0 among the selected differences and
    divides by it: every selected score becomes [0 / 0]. *)
Lemma rescale_degenerate (scores : list float) (inds_selected : list nat)
    (v : Q) :
  inds_selected <> [] ->
  (forall ind, ind ∈ inds_selected ->
     exists x, scores !! ind = Some x /\ is_value v x) ->
  exists out,
    rescale scores inds_selected = Ok out
    /\ forall ind, ind ∈ inds_selected -> out !! ind = Some NaN.
Proof.
  intros Hne Hsel. unfold rescale.
  destruct (take_indices_all (is_value v) scores inds_selected Hsel)
    as (sel & -> & Hall & Hlen). simpl.
  destruct sel as [|x sel].
  { destruct inds_selected; [congruence | discriminate]. }
  simpl. apply Forall_cons in Hall as [Hx Hall].
  destruct (fold_min2_value v sel x Hall Hx) as (lo & -> & Hlo).
  assert (Hsel' : forall ind, ind ∈ inds_selected ->
            exists y, map (fun s => sub s (Fin lo)) scores !! ind = Some y
                      /\ is_value 0 y).
  { intros ind Hind. destruct (Hsel ind Hind) as (y & Hy & q & -> & Hq).
    eexists. split.
    - rewrite list_lookup_fmap, Hy. reflexivity.
    - eexists. split; [reflexivity|]. rewrite !Qred_correct, Hq, Hlo. ring. }
  destruct (take_indices_all (is_value 0) _ inds_selected Hsel')
    as (sel' & -> & Hall' & Hlen'). simpl.
  destruct sel' as [|y sel'].
  { destruct inds_selected; [congruence | discriminate]. }
  simpl. apply Forall_cons in Hall' as [Hy Hall'].
  destruct (fold_max2_value 0 sel' y Hall' Hy) as (hi & -> & Hhi).
  eexists. split; [reflexivity|].
  intros ind Hind. destruct (Hsel' ind Hind) as (z & Hz & q & -> & Hq).
  rewrite list_lookup_fmap, Hz. simpl.
  apply Qeq_bool_iff in Hhi, Hq. rewrite Hhi, Hq. reflexivity.
Qed.

(** C1, the code at a degenerate selection: three candidates with semantic
    scores 0, 0, 1/4 and geometric scores 0.9, 0, 0.4, the sliders at their
    initial values (weight 0.95, quantile 0.9).  One candidate is selected,
    so the selected scores have minimum = maximum; the rescale divides by
    the zero difference and leaves NaN as the selected score and -inf for
    the other two, where the claim asks for the constant 1.0 and no
    non-finite value. *)
Theorem single_selection_rescales_to_nan :
  let r := update_overall_scores_on_click Bench.E Cases.scored in
  r.1 = Ok tt
  /\ dom (grasps_dict r.2) = {[ 2%nat ]}
  /\ overall_scores r.2 = Some [NInf; NInf; NaN]
  /\ (fun h => mesh_score (h_mesh h)) <$> grasps_dict r.2 !! 2%nat = Some NaN.
Proof. vm_compute. repeat split; reflexivity. Qed.

(** With weight 1.0 [scores] is the array [lerf_scores] itself: the
    in-place rescale rewrites the stored semantic scores, which a later
    fusion then reads. *)
Lemma weight_one_rescales_semantic_scores_in_place :
  let st := set_lerf_scores [Fin (1 # 5); Fin (3 # 5); Fin 1] Cases.scored in
  let r := update_overall_scores Bench.E 1 0.25 st in
  r.1 = Ok tt
  /\ lerf_scores r.2 = [Fin (-1); Fin 0; Fin 1]
  /\ overall_scores r.2 = Some (lerf_scores r.2)
  /\ lerf_scores (update_overall_scores Bench.E 0.5 0.25 st).2
     = [Fin (1 # 5); Fin (3 # 5); Fin 1].
Proof. vm_compute. repeat split; reflexivity. Qed.

(** ** Normalisation of the semantic scores *)

Lemma leb_Fin (a b : Q) : leb (Fin a) (Fin b) = true <-> (a <= b)%Q.
Proof.
  unfold leb. simpl. rewrite orb_true_iff, Qltb_true, Qeq_bool_iff. split.
  - intros [H | H]; [apply Qlt_le_weak; exact H | rewrite H; apply Qle_refl].
  - intros H. destruct (Qle_lt_or_eq _ _ H); auto.
Qed.

Lemma fold_max2_bound (l : list float) (acc : Q) :
  Forall nonnegative l -> (0 <= acc)%Q ->
  exists m, fold_left max2 l (Fin acc) = Fin m
    /\ (acc <= m)%Q /\ Forall (in_range m) l.
Proof.
  intros Hl. revert acc.
  induction Hl as [|x l Hx _ IH]; intros acc Hacc.
  - exists acc. split; [reflexivity|]. split; [apply Qle_refl | constructor].
  - destruct Hx as (q & -> & Hq). simpl. unfold max2 at 2. simpl.
    destruct (Qltb acc q) eqn:Hlt.
    + apply Qltb_true in Hlt.
      destruct (IH q Hq) as (m & Hm & Hqm & Hall).
      exists m. split; [exact Hm|]. split; [lra|].
      constructor; [|exact Hall]. exists q. repeat split; assumption.
    + apply Qltb_false in Hlt.
      destruct (IH acc Hacc) as (m & Hm & Hqm & Hall).
      exists m. split; [exact Hm|]. split; [exact Hqm|].
      constructor; [|exact Hall]. exists q. repeat split; [exact Hq | lra].
Qed.

Lemma np_max_bound (l : list float) (m : float) :
  Forall nonnegative l -> np_max l = Some m ->
  exists qm, m = Fin qm /\ Forall (in_range qm) l.
Proof.
  intros Hl Hm. destruct l as [|x l]; [discriminate|].
  apply Forall_cons in Hl as [(q & -> & Hq) Hl].
  simpl in Hm. injection Hm as <-.
  destruct (fold_max2_bound l q Hl Hq) as (qm & Hqm & Hle & Hall).
  exists qm. split; [exact Hqm|].
  constructor; [|exact Hall]. exists q. repeat split; assumption.
Qed.

Lemma sort_insert_perm (x : float) (a : list float) :
  sort_insert x a ≡ₚ x :: a.
Proof.
  induction a as [|y a IH]; simpl; [reflexivity|].
  destruct (sort_le x y); [reflexivity|].
  rewrite IH. apply perm_swap.
Qed.

Lemma np_sort_perm (a : list float) : np_sort a ≡ₚ a.
Proof.
  induction a as [|x a IH]; [reflexivity|].
  unfold np_sort in *. simpl. rewrite sort_insert_perm, IH. reflexivity.
Qed.

Lemma nth_sorted_in_range (m : Q) (a : list float) (i : nat) :
  Forall (in_range m) a -> (i < length a)%nat ->
  in_range m (nth i (np_sort a) NaN).
Proof.
  intros Ha Hi.
  assert (Hs : Forall (in_range m) (np_sort a)) by (rewrite np_sort_perm; exact Ha).
  destruct (lookup_lt_is_Some_2 (np_sort a) i) as [x Hx].
  { rewrite np_sort_perm. exact Hi. }
  rewrite (nth_lookup_Some _ _ _ _ Hx).
  exact (proj1 (Forall_lookup _ _) Hs i x Hx).
Qed.

Lemma in_range_not_nan (m : Q) (a : list float) :
  Forall (in_range m) a -> existsb is_nan a = false.
Proof.
  induction 1 as [|x a (q & -> & _) _ IH]; [reflexivity | exact IH].
Qed.

Lemma np_mean_pair_in_range (m : Q) (x y : float) :
  in_range m x -> in_range m y -> in_range m (np_mean [x; y]).
Proof.
  intros (a & -> & Ha0 & Ham) (b & -> & Hb0 & Hbm).
  eexists. split; [reflexivity|].
  rewrite !Qred_correct. unfold Qdiv.
  change (/ inject_Z (Z.of_nat (length [Fin a; Fin b]))) with (1 # 2).
  split; lra.
Qed.

Lemma np_median_in_range (m : Q) (a : list float) :
  a <> [] -> Forall (in_range m) a -> in_range m (np_median a).
Proof.
  intros Hne Ha. unfold np_median. rewrite (in_range_not_nan m a Ha).
  assert (Hlen : (0 < length a)%nat) by (destruct a; [congruence | simpl; lia]).
  assert (Hhalf : (length a / 2 < length a)%nat)
    by (apply Nat.div_lt; lia).
  destruct (Nat.even (length a)).
  - apply np_mean_pair_in_range; apply nth_sorted_in_range; try assumption; lia.
  - apply nth_sorted_in_range; assumption.
Qed.

Lemma div_in_unit_range (m : Q) (x : float) :
  (0 < m)%Q -> in_range m x ->
  in_range 1 (div x (Fin m))
  /\ (eqb (div x (Fin m)) one = true <-> eqb x (Fin m) = true).
Proof.
  intros Hm (q & -> & Hq0 & Hqm). simpl.
  assert (Hz : Qeq_bool m 0 = false).
  { destruct (Qeq_bool m 0) eqn:Hz; [|reflexivity].
    apply Qeq_bool_iff in Hz. lra. }
  rewrite Hz. split.
  - eexists. split; [reflexivity|]. rewrite Qred_correct. split.
    + apply Qle_shift_div_l; lra.
    + apply Qle_shift_div_r; lra.
  - simpl. rewrite !Qeq_bool_iff, Qred_correct. split; intros H.
    + rewrite <- (Qmult_div_r q m) by lra. rewrite H. lra.
    + rewrite H. field. lra.
Qed.

Section Normalisation.

Context {PS : Type} (E : externals PS).

Lemma semantic_of_in_range (m : Q) lerf_points relevancy grasp :
  (0 <= m)%Q -> Forall (in_range m) relevancy ->
  in_range m (semantic_of E lerf_points relevancy grasp).
Proof.
  intros Hm Hrel. unfold semantic_of.
  set (inside := relevancy_inside E lerf_points relevancy grasp).
  destruct (length inside =? 0)%nat eqn:Hz.
  - exists 0%Q. repeat split; [apply Qle_refl | exact Hm].
  - apply np_median_in_range.
    + intros Hnil. rewrite Hnil in Hz. discriminate.
    + apply Forall_forall. intros x Hx.
      apply omap_lookup_elem in Hx.
      exact (proj1 (Forall_forall _ _) Hrel x Hx).
Qed.

(** C5, as amended: the semantic-score array is divided by the maximum of
    the relevancy field, taken over all its points, and not by the
    array's own maximum.  When the relevancy values are finite and not
    negative and their maximum is positive, the normalised semantic scores
    lie in [0,1], and a candidate attains 1 exactly when its own score (the
    median relevancy inside its box) equals the maximum of the field. *)
Theorem semantic_scores_over_field_maximum (rc : relevancy_cloud)
    (grasps_ : list Grasp) (st : session PS) (m : float) :
  grasps st = Some grasps_ ->
  indices_in_range E ->
  length (rc_lerf_relevancy rc) = length (rc_lerf_points rc) ->
  np_max (rc_lerf_relevancy rc) = Some m ->
  let raw := semantic_of E (rc_lerf_points rc) (rc_lerf_relevancy rc) in
  exists st',
    compute_scores E rc st = (Ok tt, st')
    /\ lerf_scores st' = map (fun grasp => div (raw grasp) m) grasps_
    /\ (Forall nonnegative (rc_lerf_relevancy rc) -> ltb (Fin 0) m = true ->
        Forall (in_range 1) (lerf_scores st')
        /\ forall grasp, grasp ∈ grasps_ ->
             (eqb (div (raw grasp) m) one = true <-> eqb (raw grasp) m = true)).
Proof.
  intros Hgs Hin Hlen Hmax raw.
  unfold compute_scores. step. rewrite Hgs. step.
  match goal with |- context [bind (score_loop E rc grasps_) _ ?s] =>
    destruct (score_loop_in_range E rc grasps_ s Hin Hlen)
      as (st1 & Hrun & Hl & Hg) end.
  setoid_rewrite (bind_ok _ _ _ _ _ Hrun).
  unfold normalize_lerf_scores. rewrite Hmax. step.
  eexists. split; [reflexivity|]. step. rewrite Hl. simpl.
  rewrite map_map. split; [reflexivity|].
  intros Hnn Hpos.
  destruct (np_max_bound _ _ Hnn Hmax) as (qm & -> & Hall).
  simpl in Hpos. apply Qltb_true in Hpos.
  assert (Hraw : forall grasp, in_range qm (raw grasp)).
  { intros grasp. apply semantic_of_in_range; [lra | exact Hall]. }
  split.
  - apply Forall_forall. intros s Hs.
    apply list_elem_of_fmap in Hs as (grasp & -> & _).
    apply div_in_unit_range; [exact Hpos | apply Hraw].
  - intros grasp _. apply div_in_unit_range; [exact Hpos | apply Hraw].
Qed.

End Normalisation.

Lemma semantic_scores_over_field_maximum_witness :
  exists st',
    compute_scores Bench.E Cases.cloud
      (Cases.loaded Cases.three_grasps prim_grasp []) = (Ok tt, st')
    /\ lerf_scores st' = [Fin 0; Fin 0; Fin (1 # 4)]
    /\ Forall (in_range 1) (lerf_scores st').
Proof.
  assert (Hnn : Forall nonnegative (rc_lerf_relevancy Cases.cloud)).
  { repeat constructor; eexists; (split; [reflexivity|]);
      unfold Qle; simpl; lia. }
  destruct (semantic_scores_over_field_maximum Bench.E Cases.cloud
              Cases.three_grasps
              (Cases.loaded Cases.three_grasps prim_grasp []) (Fin 4)
              eq_refl bench_indices_in_range eq_refl eq_refl)
    as (st' & Hrun & Hl & Hunit).
  exists st'. split; [exact Hrun|]. split.
  - rewrite Hl. vm_compute. reflexivity.
  - apply Hunit; [exact Hnn | reflexivity].
Defined.

(** C5 as stated fails: the third candidate has the only non-zero
    semantic score, 1, which is also the array's own maximum; the scoring
    leaves it at 1/4, the relevancy field having the maximum 4, so the
    array is not divided by its own maximum and no candidate attains 1. *)
Lemma semantic_scores_not_over_own_maximum :
  let raw :=
    map (semantic_of Bench.E (rc_lerf_points Cases.cloud)
           (rc_lerf_relevancy Cases.cloud)) Cases.three_grasps in
  raw = [Fin 0; Fin 0; Fin 1]
  /\ np_max raw = Some (Fin 1)
  /\ lerf_scores Cases.scored = [Fin 0; Fin 0; Fin (1 # 4)]
  /\ Forall (fun s => eqb s one = false) (lerf_scores Cases.scored).
Proof.
  vm_compute. repeat split; try reflexivity. repeat constructor.
Qed.

(** ** The planner calls of the trajectory handler *)

Section Tags.

Context {PS : Type} (E : externals PS).
Implicit Types (S : nat -> Prop) (st : session PS).

Lemma tagged_quiet {A} S (Q : A -> Prop) (m : M PS A) :
  (forall st, planner_calls (m st).2 = planner_calls st) ->
  (forall st a, (m st).1 = Ok a -> Q a) ->
  tagged S Q m.
Proof.
  intros Hcalls HQ st r st' Hrun. split.
  - exists []. rewrite app_nil_r. specialize (Hcalls st).
    rewrite Hrun in Hcalls. split; [exact Hcalls | constructor].
  - intros a ->. apply (HQ st). rewrite Hrun. reflexivity.
Qed.

Lemma tagged_ret {A} S (Q : A -> Prop) (a : A) :
  Q a -> tagged S Q (ret (PS := PS) a).
Proof.
  intros Ha. apply tagged_quiet; [reflexivity|].
  intros st b Hb. injection Hb as <-. exact Ha.
Qed.

Lemma tagged_get S : tagged S anything (@get PS).
Proof. apply tagged_quiet; [reflexivity | intros; exact I]. Qed.

Lemma tagged_lift {A} S (r : result A) : tagged S anything (lift (PS := PS) r).
Proof. apply tagged_quiet; [reflexivity | intros; exact I]. Qed.

Lemma tagged_raise {A} S (Q : A -> Prop) (e : exn) :
  tagged S Q (raise (PS := PS) e).
Proof. apply tagged_quiet; [reflexivity | discriminate]. Qed.

Lemma tagged_modify S (f : session PS -> session PS) :
  (forall st, planner_calls (f st) = planner_calls st) ->
  tagged S anything (modify f).
Proof. intros Hf. apply tagged_quiet; [exact Hf | intros; exact I]. Qed.

Lemma tagged_print S (m : message) : tagged S anything (print (PS := PS) m).
Proof. apply tagged_modify. reflexivity. Qed.

Lemma tagged_call {A} S (c : planner_call) (ind : nat) (method : PS -> A * PS) :
  S ind -> tagged S anything (call_planner c ind method).
Proof.
  intros Hind st r st' Hrun. unfold call_planner in Hrun.
  injection Hrun as <- <-. split; [|intros; exact I].
  exists [(c, ind)]. split; [reflexivity|]. repeat constructor. exact Hind.
Qed.

Lemma tagged_bind {A B} S (Q : A -> Prop) (Q' : B -> Prop)
    (m : M PS A) (k : A -> M PS B) :
  tagged S Q m -> (forall a, Q a -> tagged S Q' (k a)) ->
  tagged S Q' (bind m k).
Proof.
  intros Hm Hk st r st' Hrun. unfold bind in Hrun.
  destruct (m st) as [[a|e] st1] eqn:Hm1.
  - destruct (Hm st _ _ Hm1) as [(new1 & Hc1 & Hf1) HQ].
    destruct (Hk a (HQ a eq_refl) st1 _ _ Hrun) as [(new2 & Hc2 & Hf2) HQ'].
    split; [|exact HQ'].
    exists (new1 ++ new2). split.
    + rewrite Hc2, Hc1, app_assoc. reflexivity.
    + apply Forall_app. split; assumption.
  - injection Hrun as <- <-.
    destruct (Hm st _ _ Hm1) as [Hc _]. split; [exact Hc | discriminate].
Qed.

Lemma tagged_weaken {A} S S' (Q Q' : A -> Prop) (m : M PS A) :
  (forall i, S i -> S' i) -> (forall a, Q a -> Q' a) ->
  tagged S Q m -> tagged S' Q' m.
Proof.
  intros HS HQ Hm st r st' Hrun.
  destruct (Hm st r st' Hrun) as [(new & Hc & Hf) Hq]. split.
  - exists new. split; [exact Hc|]. eapply Forall_impl; [exact Hf|].
    intros c. apply HS.
  - intros a Ha. apply HQ, Hq, Ha.
Qed.

Lemma tagged_any {A} S (Q : A -> Prop) (m : M PS A) :
  tagged S Q m -> tagged S anything m.
Proof. apply tagged_weaken; [auto | intros; exact I]. Qed.

End Tags.

Create HintDb tags.

(** Walks through a handler: binds and branches are split, state
    accesses, prints and raises add no call, a planner call leaves its
    candidate to be checked. *)
Ltac tag_leaf :=
  first
    [ apply tagged_get
    | apply tagged_lift
    | apply tagged_raise
    | apply tagged_print
    | apply tagged_modify; reflexivity
    | apply tagged_ret; first [ exact I | reflexivity | assumption ]
    | apply tagged_call; first [ reflexivity | assumption ] ].

Ltac tag :=
  match goal with
  | |- tagged _ _ (bind _ _) =>
      eapply (tagged_bind _ anything); [ tag | intros ? _; tag ]
  | |- tagged _ _ (if ?b then _ else _) => destruct b; tag
  | |- tagged _ _ (match ?x with _ => _ end) => destruct x; tag
  | |- tagged _ _ _ =>
      first [ tag_leaf | solve [ eauto using tagged_any with tags ] | idtac ]
  end.

Section Search.

Context {PS : Type} (E : externals PS).
Implicit Types (S : nat -> Prop) (st : session PS).

Lemma tagged_recenter S pose : tagged S anything (recenter E pose).
Proof. unfold recenter. cbv zeta. tag. Qed.

Lemma tagged_set_visible S v : tagged S anything (set_visible (PS := PS) v).
Proof. unfold set_visible. tag. Qed.

Lemma tagged_goto_joints S joints :
  tagged S anything (goto_joints (PS := PS) joints).
Proof. unfold goto_joints. tag. Qed.

Lemma tagged_last_of_traj S : tagged S anything (last_of_traj (PS := PS)).
Proof. unfold last_of_traj. tag. Qed.

Lemma tagged_extend_traj S more :
  tagged S anything (extend_traj (PS := PS) more).
Proof. unfold extend_traj. tag. Qed.

#[local] Hint Resolve tagged_recenter tagged_set_visible tagged_goto_joints
  tagged_last_of_traj tagged_extend_traj : tags.

Lemma tagged_rotation_trial S ind g2w ur5 i succ :
  S ind -> tagged S anything (rotation_trial E ind g2w ur5 i succ).
Proof. intros Hind. unfold rotation_trial. cbv zeta. tag. Qed.

#[local] Hint Resolve tagged_rotation_trial : tags.

Lemma tagged_rotation_loop S ind g2w ur5 trials succ pose :
  S ind -> tagged S anything (rotation_loop E ind g2w ur5 trials succ pose).
Proof.
  intros Hind. revert succ pose.
  induction trials as [|i trials IH]; intros succ pose; simpl; tag.
Qed.

Lemma tagged_single_attempt S ind pose :
  S ind -> tagged S anything (single_attempt E ind pose).
Proof. intros Hind. unfold single_attempt. cbv zeta. tag. Qed.

#[local] Hint Resolve tagged_rotation_loop tagged_single_attempt : tags.

Lemma tagged_try_candidate S ind pose :
  S ind ->
  tagged S (fun a => traj_grasp_ind a = ind) (try_candidate E ind pose).
Proof. intros Hind. unfold try_candidate. cbv zeta. tag. Qed.

Lemma tagged_bind_lift_ok {A B} S (Q : B -> Prop) (a : A) (k : A -> M PS B) :
  tagged S Q (k a) -> tagged S Q (bind (lift (Ok a)) k).
Proof. intros H st r st' Hrun. apply H. exact Hrun. Qed.

Lemma tagged_bind_lift_raise {A B} S (Q : B -> Prop) (e : exn)
    (k : A -> M PS B) :
  tagged S Q (bind (lift (Raise e)) k).
Proof.
  intros st r st' Hrun. apply (tagged_raise S Q e st r st'). exact Hrun.
Qed.

Lemma tagged_candidate_loop S l acc :
  (forall i, i ∈ l -> S i) ->
  (forall a, acc = Some a -> S (traj_grasp_ind a)) ->
  tagged S (fun found => forall a, found = Some a -> S (traj_grasp_ind a))
    (candidate_loop E l acc).
Proof.
  revert acc. induction l as [|ind l IH]; intros acc Hl Hacc; simpl.
  - apply tagged_ret. exact Hacc.
  - assert (Hind : S ind) by (apply Hl; left).
    eapply tagged_bind; [apply tagged_try_candidate; exact Hind|].
    intros a Ha. simpl in Ha.
    assert (Hthis : forall a', Some a = Some a' -> S (traj_grasp_ind a')).
    { intros a' [= <-]. rewrite Ha. exact Hind. }
    destruct (length (succ_traj_list a) =? 0)%nat.
    + eapply (tagged_bind _ anything); [tag|]. intros _ _.
      apply IH; [|exact Hthis]. intros i Hi. apply Hl. right. exact Hi.
    + eapply (tagged_bind _ anything); [tag|]. intros _ _.
      apply tagged_ret. exact Hthis.
Qed.

Lemma tagged_compose_stages S a :
  S (traj_grasp_ind a) -> tagged S anything (compose_stages E a).
Proof.
  intros Hind. unfold compose_stages, place_stage, pour_stage. cbv zeta. tag.
Qed.

Lemma tagged_synthesize l :
  tagged (fun i => i ∈ l) anything (synthesize E l).
Proof.
  unfold synthesize.
  eapply (tagged_bind _ anything); [tag|]. intros _ _.
  eapply tagged_bind.
  { apply tagged_candidate_loop; [auto | discriminate]. }
  intros [a|] Hfound; simpl; [|apply tagged_bind_lift_raise].
  apply tagged_bind_lift_ok.
  destruct (length (succ_traj_list a) =? 0)%nat; [tag|].
  apply tagged_compose_stages. apply Hfound. reflexivity.
Qed.

(** As long as no candidate has recorded a success, the loop goes on with
    the rest of the list. *)
Lemma candidate_loop_app l1 rest acc st last_ st1 :
  candidate_loop E l1 acc st = (Ok last_, st1) ->
  (l1 <> [] -> forall a, last_ = Some a -> succ_traj_list a = []) ->
  candidate_loop E (l1 ++ rest) acc st = candidate_loop E rest last_ st1.
Proof.
  revert acc st. induction l1 as [|ind l1 IH]; intros acc st Hrun Hnone.
  - simpl in Hrun. injection Hrun as <- <-. reflexivity.
  - simpl in Hrun |- *. unfold bind at 1 in Hrun. unfold bind at 1.
    destruct (try_candidate E ind (acc ≫= grasp_pose) st) as [[a|e] st'];
      [|discriminate].
    destruct (length (succ_traj_list a) =? 0)%nat eqn:Hz.
    + revert Hrun. step. intros Hrun.
      apply (IH _ _ Hrun). intros Hne. apply Hnone. discriminate.
    + revert Hrun. step. intros Hrun. injection Hrun as <- <-.
      rewrite (Hnone ltac:(discriminate) a eq_refl) in Hz. discriminate.
Qed.

(** The loop ends at a candidate that records a success. *)
Lemma candidate_loop_success k rest acc st a st' :
  try_candidate E k (acc ≫= grasp_pose) st = (Ok a, st') ->
  succ_traj_list a <> [] ->
  candidate_loop E (k :: rest) acc st
  = (Ok (Some a), set_stdout (stdout st' ++ [msg_succeeded]) st').
Proof.
  intros Htry Hne. simpl. rewrite (bind_ok _ _ _ _ _ Htry).
  destruct (succ_traj_list a); [congruence | reflexivity].
Qed.

(** C6: when the candidates before [k] in the ranked list record no
    success and candidate [k] records one, the candidate loop ends at [k]:
    the handler behaves as if the list ended with [k], whatever follows
    [k], and every planner call it makes, in the loop and in the stages
    composed afterwards, is made for [k] or for a candidate before [k]. *)
Theorem outer_loop_stops_at_first_success (l1 : list nat) (k : nat)
    (l2 : list nat) (st st1 st2 : session PS) (last_ : option attempt)
    (a : attempt) :
  let st0 := set_gen_traj_button_disabled true st in
  candidate_loop E l1 None st0 = (Ok last_, st1) ->
  (forall a', last_ = Some a' -> succ_traj_list a' = []) ->
  try_candidate E k (last_ ≫= grasp_pose) st1 = (Ok a, st2) ->
  succ_traj_list a <> [] ->
  candidate_loop E (l1 ++ k :: l2) None st0
  = (Ok (Some a), set_stdout (stdout st2 ++ [msg_succeeded]) st2)
  /\ synthesize E (l1 ++ k :: l2) st = synthesize E (l1 ++ [k]) st
  /\ exists new,
       planner_calls (synthesize E (l1 ++ k :: l2) st).2
       = planner_calls st ++ new
       /\ Forall (fun c => c.2 ∈ l1 ++ [k]) new.
Proof.
  intros st0 Hbefore Hnone Htry Hsucc.
  assert (Hloop : forall rest,
            candidate_loop E (l1 ++ k :: rest) None st0
            = (Ok (Some a), set_stdout (stdout st2 ++ [msg_succeeded]) st2)).
  { intros rest.
    rewrite (candidate_loop_app l1 (k :: rest) None st0 last_ st1 Hbefore)
      by (intros _; exact Hnone).
    apply candidate_loop_success; assumption. }
  assert (Heq : synthesize E (l1 ++ k :: l2) st = synthesize E (l1 ++ [k]) st).
  { unfold synthesize.
    rewrite !(bind_ok (modify (set_gen_traj_button_disabled true)) _ st tt st0
                eq_refl).
    rewrite (bind_ok _ _ _ _ _ (Hloop l2)), (bind_ok _ _ _ _ _ (Hloop [])).
    reflexivity. }
  split; [apply Hloop|]. split; [exact Heq|].
  rewrite Heq.
  destruct (synthesize E (l1 ++ [k]) st) as [r st'] eqn:Hrun.
  destruct (tagged_synthesize (l1 ++ [k]) st r st' Hrun) as [Hcalls _].
  exact Hcalls.
Qed.

End Search.

Lemma outer_loop_stops_at_first_success_witness :
  let st := Cases.planning prim_grasp [false; true; true; true] in
  synthesize Bench.E [2; 0; 1]%nat st = synthesize Bench.E [2; 0]%nat st
  /\ exists new,
       planner_calls (synthesize Bench.E [2; 0; 1]%nat st).2 = [] ++ new
       /\ Forall (fun c => c.2 ∈ [2; 0]%nat) new.
Proof.
  intros st.
  refine (proj2 (outer_loop_stops_at_first_success Bench.E [2]%nat 0%nat
                   [1]%nat st _ _ _ _ _ _ _ _)).
  - vm_compute. reflexivity.
  - intros a' H. injection H as <-. reflexivity.
  - vm_compute. reflexivity.
  - discriminate.
Defined.

(** ** Stage failures after the search *)

(** With the robot's frame bound, which [main] does not do, a failed
    place stage would be passed over: "pick & place" on the first-ranked
    candidate, the planner succeeding on the approach and on both lifts
    and failing on the place path.  The handler reads no flag of the place
    stage: it reports success and leaves the approach, the lift and the
    planner's place output as the trajectory, the slider at 0.75. *)
Lemma failed_place_keeps_trajectory :
  let st := Cases.planning prim_pick_and_place [true; true; true; false] in
  let r := gen_traj_on_click Bench.E st in
  r.1 = Ok tt
  /\ planner_calls r.2
     = [(call_from_grasp, 2%nat); (call_lift_up, 2%nat);
        (call_lift_up, 2%nat); (call_place, 2%nat)]
  /\ planner r.2 = []
  /\ (length <$> traj r.2) = Some 6%nat
  /\ drop 3 (stdout r.2)
     = [msg_success; msg_without_rotation; msg_succeeded;
        msg_succeeded_bang; msg_fin_grasp; msg_time_taken]
  /\ gen_traj_slider r.2 = 0.75%Q.
Proof. vm_compute. repeat split; reflexivity. Qed.

(** The same handler under "grasp", the frame bound, does drop the
    trajectory when the lift after the search fails: it sends the robot
    home and resets the slider. *)
Lemma failed_lift_of_grasp_drops_trajectory :
  let st := Cases.planning prim_grasp [true; true; false] in
  let r := gen_traj_on_click Bench.E st in
  r.1 = Ok tt
  /\ traj r.2 = None
  /\ shown_joints r.2 = [Bench.home]
  /\ drop 3 (stdout r.2)
     = [msg_success; msg_without_rotation; msg_succeeded;
        msg_failed_for_the_lift; msg_time_taken]
  /\ gen_traj_slider r.2 = 0%Q.
Proof. vm_compute. repeat split; reflexivity. Qed.

(** Under "pick & place" a failed lift after the search is passed over as
    well. *)
Lemma failed_lift_of_pick_and_place_passed_over :
  let r := gen_traj_on_click Bench.E
             (Cases.planning prim_pick_and_place [true; true; false; false]) in
  r.1 = Ok tt /\ (length <$> traj r.2) = Some 6%nat.
Proof. vm_compute. split; reflexivity. Qed.

(** ** The robot frame *)

(** In a session in which the name [ur5_frame] is unbound, as [main]
    leaves it, the handler stops at its first candidate with a NameError,
    before any planner call. *)
Lemma unbound_robot_frame_stops_handler {PS} (E : externals PS)
    (st : session PS) (ind : nat) (rest : list nat) (h : grasp_handles) :
  ur5_frame st = None ->
  grasps_dict st !! ind = Some h ->
  synthesize E (ind :: rest) st
  = (Raise NameError, set_gen_traj_button_disabled true st).
Proof.
  intros Hframe Hdict.
  set (st0 := set_gen_traj_button_disabled true st).
  assert (Htry : try_candidate E ind None st0 = (Raise NameError, st0)).
  { unfold try_candidate, st0. step. rewrite Hdict. step.
    unfold set_visible. rewrite bind_assoc. step. rewrite Hframe.
    reflexivity. }
  unfold synthesize.
  rewrite (bind_ok (modify (set_gen_traj_button_disabled true)) _ st tt st0
             eq_refl).
  apply bind_raise. cbn [candidate_loop]. apply bind_raise. exact Htry.
Qed.

(** ** The trajectory handler as [main] leaves the session *)

Section Unbound.

Context {PS : Type} (E : externals PS).

Lemma synthesize_frame_unbound (l : list nat) (st : session PS) :
  ur5_frame st = None ->
  synthesize E l st = (Raise NameError, set_gen_traj_button_disabled true st)
  \/ synthesize E l st
     = (Raise KeyError, set_gen_traj_button_disabled true st).
Proof.
  intros Hframe. destruct l as [|ind rest].
  - left. reflexivity.
  - destruct (grasps_dict st !! ind) as [h|] eqn:Hdict.
    + left. eapply unbound_robot_frame_stops_handler; eassumption.
    + right. unfold synthesize.
      rewrite (bind_ok (modify (set_gen_traj_button_disabled true)) _ st tt
                 (set_gen_traj_button_disabled true st) eq_refl).
      apply bind_raise. cbn [candidate_loop]. apply bind_raise.
      unfold try_candidate. step. rewrite Hdict. reflexivity.
Qed.

Lemma gen_traj_frame_unbound (st : session PS) :
  ur5_frame st = None ->
  gen_traj_on_click E st = (Ok tt, st)
  \/ gen_traj_on_click E st
     = (Raise NameError, set_gen_traj_button_disabled true st)
  \/ gen_traj_on_click E st
     = (Raise KeyError, set_gen_traj_button_disabled true st).
Proof.
  intros Hframe. unfold gen_traj_on_click. step.
  destruct (grasps st); [|left; reflexivity].
  destruct (overall_scores st) as [scores|]; [|left; reflexivity].
  destruct (bool_decide (size (grasps_dict st) = 0)); [left; reflexivity|].
  right. apply synthesize_frame_unbound. exact Hframe.
Qed.


End Unbound.


(** * Further properties *)

(** ** Batches of camera poses *)

Lemma py_range_from_cover (fuel start stop step : nat) :
  (0 < step)%nat -> (stop - start <= fuel)%nat ->
  concat (map (fun i => ind_range i step stop)
            (py_range_from fuel start stop step))
  = seq start (stop - start).
Proof.
  intros Hstep. revert start.
  induction fuel as [|fuel IH]; intros start Hfuel; simpl.
  - replace (stop - start)%nat with 0%nat by lia. reflexivity.
  - destruct (stop <=? start)%nat eqn:Hle.
    + apply Nat.leb_le in Hle.
      replace (stop - start)%nat with 0%nat by lia. reflexivity.
    + apply Nat.leb_gt in Hle. simpl.
      rewrite IH by lia. unfold ind_range.
      destruct (Nat.le_gt_cases stop (start + step)) as [Hlast | Hmore].
      * rewrite Nat.min_r by exact Hlast.
        replace (stop - (start + step))%nat with 0%nat by lia.
        simpl. apply app_nil_r.
      * rewrite Nat.min_l by lia.
        replace (start + step - start)%nat with step by lia.
        replace (stop - start)%nat with (step + (stop - (start + step)))%nat
          by lia.
        rewrite seq_app. reflexivity.
Qed.

Lemma py_range_from_full (fuel start stop step k i : nat) :
  (0 < step)%nat ->
  py_range_from fuel start stop step !! k = Some i ->
  (i < stop)%nat
  /\ (S k < length (py_range_from fuel start stop step) ->
      (i + step < stop)%nat).
Proof.
  intros Hstep. revert start k.
  induction fuel as [|fuel IH]; intros start k; simpl; [discriminate|].
  destruct (stop <=? start)%nat eqn:Hle; [discriminate|].
  apply Nat.leb_gt in Hle.
  destruct k as [|k]; simpl.
  - intros [= <-]. split; [exact Hle|].
    destruct fuel as [|fuel]; simpl; [lia|].
    destruct (stop <=? start + step)%nat eqn:Hnext; simpl; [lia|].
    apply Nat.leb_gt in Hnext. intros _. exact Hnext.
  - intros Hk. destruct (IH _ _ Hk) as [Hi Hfull].
    split; [exact Hi|]. intros Hlen. apply Hfull. lia.
Qed.

(** The batches of [get_grasps] cut the camera poses in order into runs
    of the batch size, the last run taking what is left: every pose is in
    one batch, no batch is empty or larger than the batch size, and every
    batch before the last is full. *)
Theorem batches_partition_the_poses (n graspnet_batch_size : nat) :
  (0 < graspnet_batch_size)%nat ->
  let batches :=
    map (fun i => ind_range i graspnet_batch_size n)
      (py_range 0 n graspnet_batch_size) in
  concat batches = seq 0 n
  /\ Forall (fun r => (0 < length r <= graspnet_batch_size)%nat) batches
  /\ (forall k r, batches !! k = Some r -> (S k < length batches)%nat ->
        length r = graspnet_batch_size).
Proof.
  intros Hb batches. subst batches. split; [|split].
  - unfold py_range. rewrite py_range_from_cover by lia.
    rewrite Nat.sub_0_r. reflexivity.
  - apply Forall_lookup. intros k r Hr.
    rewrite list_lookup_fmap in Hr.
    destruct (py_range 0 n graspnet_batch_size !! k) as [i|] eqn:Hi;
      [|discriminate].
    injection Hr as <-.
    destruct (py_range_from_full _ _ _ _ _ _ Hb Hi) as [Hlt _].
    unfold ind_range. rewrite length_seq. lia.
  - intros k r Hr Hk. rewrite length_fmap in Hk.
    rewrite list_lookup_fmap in Hr.
    destruct (py_range 0 n graspnet_batch_size !! k) as [i|] eqn:Hi;
      [|discriminate].
    injection Hr as <-.
    destruct (py_range_from_full _ _ _ _ _ _ Hb Hi) as [_ Hfull].
    specialize (Hfull Hk).
    unfold ind_range. rewrite length_seq. lia.
Qed.

Lemma batches_partition_the_poses_witness :
  concat (map (fun i => ind_range i 15 40) (py_range 0 40 15)) = seq 0 40.
Proof.
  refine (proj1 (batches_partition_the_poses 40 15 _)). lia.
Defined.

(** ** The robot's waypoints *)

Lemma rows_ok {A} (a : list A) (idx : list Z) :
  Forall (fun i => (- Z.of_nat (length a) <= i < Z.of_nat (length a))%Z) idx ->
  exists out,
    rows a idx = Ok out /\ Forall2 (fun i x => py_index a i = Some x) idx out.
Proof.
  induction 1 as [|i idx Hi _ (out & Hout & Hall)].
  - exists []. split; [reflexivity | constructor].
  - assert (Hx : is_Some (py_index a i)).
    { unfold py_index. destruct (i <? 0)%Z eqn:Hneg.
      - apply Z.ltb_lt in Hneg.
        destruct (i <? - Z.of_nat (length a))%Z eqn:Hlow;
          [apply Z.ltb_lt in Hlow; lia|].
        apply lookup_lt_is_Some_2. lia.
      - apply Z.ltb_ge in Hneg. apply lookup_lt_is_Some_2. lia. }
    destruct Hx as [x Hx]. exists (x :: out).
    unfold rows in *. simpl. rewrite Hx. simpl. rewrite Hout. simpl.
    split; [reflexivity|]. constructor; assumption.
Qed.

Lemma rows_raise {A} (a : list A) (idx : list Z) (i : Z) :
  i ∈ idx -> py_index a i = None -> rows a idx = Raise IndexError.
Proof.
  intros Hin Hnone. induction idx as [|j idx IH]; [inversion Hin|].
  unfold rows in *. simpl.
  destruct (py_index a j) as [x|] eqn:Hj; simpl; [|reflexivity].
  rewrite IH; [reflexivity|].
  apply elem_of_cons in Hin as [-> | Hin]; [congruence | exact Hin].
Qed.

Lemma py_index_last {A} (a : list A) :
  py_index a (-1) = last a.
Proof.
  unfold py_index. simpl. rewrite last_lookup.
  destruct a as [|x a]; [reflexivity|].
  replace (-1 <? - Z.of_nat (length (x :: a)))%Z with false
    by (symmetry; apply Z.ltb_ge; simpl; lia).
  f_equal. simpl length. lia.
Qed.

Lemma py_index_none {A} (a : list A) (i : Z) :
  (Z.of_nat (length a) <= i)%Z -> py_index a i = None.
Proof.
  intros Hi. rewrite py_index_nonneg by lia.
  apply lookup_ge_None. lia.
Qed.

Lemma lift_indices_in_range (len : nat) :
  (0 < len)%nat ->
  Forall (fun i => (- Z.of_nat len <= i < Z.of_nat len)%Z) (lift_indices len).
Proof.
  intros Hlen. unfold lift_indices. apply Forall_app. split.
  - apply Forall_fmap, Forall_forall. intros m Hm.
    apply elem_of_seq in Hm. unfold compose. cbv beta.
    pose proof (Nat.Div0.mul_div_le len 20) as Hk.
    rewrite <- Nat2Z.inj_mul.
    assert (m * (len / 20) <= 19 * (len / 20))%nat
      by (apply Nat.mul_le_mono_r; lia).
    lia.
  - repeat constructor; lia.
Qed.

Lemma last_drop {A} (n : nat) (l : list A) :
  (n < length l)%nat -> last (drop n l) = last l.
Proof.
  intros Hn. rewrite !last_lookup, lookup_drop, length_drop.
  f_equal. lia.
Qed.

(** The robot is sent waypoints only of a trajectory of at least 62
    configurations: then the approach goes through the configurations 0,
    21, 41 and 60, and the lift through 21 configurations taken from
    configuration 61 on, the first being configuration 61 and the last
    the end of the trajectory.  A shorter trajectory ends the handler in
    an IndexError. *)
Theorem robot_waypoints_need_62_configurations (traj_ : trajectory) :
  ((62 <= length traj_)%nat ->
   exists traj_goto traj_lift,
     robot_waypoints traj_ = Ok (traj_goto, traj_lift)
     /\ Forall2 (fun i c => traj_ !! i = Some c) [0; 21; 41; 60]%nat traj_goto
     /\ length traj_lift = 21%nat
     /\ head traj_lift = traj_ !! 61%nat
     /\ last traj_lift = last traj_
     /\ Forall (fun c => c ∈ drop 61 traj_) traj_lift)
  /\ ((length traj_ < 62)%nat -> robot_waypoints traj_ = Raise IndexError).
Proof.
  split.
  - intros Hlen. unfold robot_waypoints.
    assert (Hgoto : length (take 61 traj_) = 61%nat)
      by (rewrite length_take; lia).
    destruct (rows_ok (take 61 traj_) [0; 21; 41; -1]%Z) as (goto & -> & Hg).
    { rewrite Hgoto. repeat constructor; lia. }
    destruct (rows_ok (drop 61 traj_)
                (lift_indices (length (drop 61 traj_)))) as (lift_ & -> & Hl).
    { apply lift_indices_in_range. rewrite length_drop. lia. }
    exists goto, lift_. simpl. split; [reflexivity|].
    split; [|split; [|split; [|split]]].
    + inversion Hg as [|i0 c0 ? ? H0 Hg1]; subst.
      inversion Hg1 as [|i1 c1 ? ? H1 Hg2]; subst.
      inversion Hg2 as [|i2 c2 ? ? H2 Hg3]; subst.
      inversion Hg3 as [|i3 c3 ? ? H3 Hg4]; subst.
      inversion Hg4; subst.
      rewrite py_index_nonneg in H0, H1, H2 by lia.
      rewrite py_index_last, last_lookup, Hgoto in H3.
      simpl in H0, H1, H2, H3.
      rewrite lookup_take_lt in H0, H1, H2, H3 by lia.
      repeat constructor; assumption.
    + apply Forall2_length in Hl. rewrite <- Hl. reflexivity.
    + unfold lift_indices in Hl. simpl in Hl.
      inversion Hl as [|i0 c0 ? ? H0 _]; subst. simpl.
      rewrite py_index_nonneg in H0 by lia. simpl in H0.
      rewrite lookup_drop in H0. rewrite <- H0. f_equal.
    + assert (Hi : lift_indices (length (drop 61 traj_)) !! 20%nat
                   = Some (-1)%Z) by reflexivity.
      destruct (Forall2_lookup_l _ _ _ _ _ Hl Hi) as (c & Hc & Hlast).
      rewrite py_index_last, last_drop in Hlast by lia.
      rewrite Hlast, last_lookup, <- Hc. f_equal.
      apply Forall2_length in Hl. rewrite <- Hl. reflexivity.
    + apply Forall_lookup. intros k c Hc.
      destruct (Forall2_lookup_r _ _ _ _ _ Hl Hc) as (i & _ & Hi).
      unfold py_index in Hi.
      destruct (i <? 0)%Z; [destruct (_ <? _)%Z; [discriminate|]|];
        apply list_elem_of_lookup; eexists; exact Hi.
  - intros Hlen. unfold robot_waypoints.
    destruct (Nat.le_gt_cases (length traj_) 41) as [Hshort | Hmid].
    + rewrite (rows_raise _ _ 41%Z); [reflexivity | set_solver |].
      apply py_index_none. rewrite length_take. lia.
    + destruct (rows_ok (take 61 traj_) [0; 21; 41; -1]%Z) as (goto & -> & _).
      { rewrite length_take. repeat constructor; lia. }
      rewrite drop_ge by lia. reflexivity.
Qed.

Lemma robot_waypoints_need_62_configurations_witness :
  exists traj_goto traj_lift,
    robot_waypoints (ProposalBench.straight 70) = Ok (traj_goto, traj_lift)
    /\ Forall2 (fun i c => ProposalBench.straight 70 !! i = Some c)
         [0; 21; 41; 60]%nat traj_goto
    /\ length traj_lift = 21%nat
    /\ head traj_lift = ProposalBench.straight 70 !! 61%nat
    /\ last traj_lift = last (ProposalBench.straight 70)
    /\ Forall (fun c => c ∈ drop 61 (ProposalBench.straight 70)) traj_lift.
Proof.
  refine (proj1 (robot_waypoints_need_62_configurations
                   (ProposalBench.straight 70)) _).
  vm_compute. lia.
Defined.

Lemma rows_app {A} (a : list A) (l1 l2 : list Z) :
  rows a (l1 ++ l2)
  = result_bind (rows a l1) (fun r1 =>
    result_bind (rows a l2) (fun r2 => Ok (r1 ++ r2))).
Proof.
  unfold rows. induction l1 as [|i l1 IH]; simpl.
  - destruct (result_map _ l2); reflexivity.
  - destruct (py_index a i); simpl; [|reflexivity].
    rewrite IH. destruct (result_map _ l1); simpl; [|reflexivity].
    destruct (result_map _ l2); reflexivity.
Qed.

Lemma rows_replicate {A} (a : list A) (i : Z) (x : A) (n : nat) :
  py_index a i = Some x -> rows a (replicate n i) = Ok (replicate n x).
Proof.
  intros Hx. unfold rows. induction n as [|n IH]; simpl; [reflexivity|].
  rewrite Hx. simpl. rewrite IH. reflexivity.
Qed.

(** Of a lift of fewer than 20 configurations the robot is sent the first
    configuration twenty times and then the last: the stride
    [len(traj_lift)//20] is zero. *)
Theorem short_lift_repeats_first_configuration (traj_ : trajectory)
    (first_ last_ : config) :
  (62 <= length traj_ < 81)%nat ->
  traj_ !! 61%nat = Some first_ -> last traj_ = Some last_ ->
  exists traj_goto,
    robot_waypoints traj_
    = Ok (traj_goto, replicate 20 first_ ++ [last_]).
Proof.
  intros Hlen Hfirst Hlast. unfold robot_waypoints.
  destruct (rows_ok (take 61 traj_) [0; 21; 41; -1]%Z) as (goto & -> & _).
  { rewrite length_take. repeat constructor; lia. }
  exists goto. cbn [result_bind].
  unfold lift_indices. rewrite length_drop.
  rewrite (Nat.div_small (length traj_ - 61) 20) by lia.
  change (map _ (seq 0 20)) with (replicate 20 0%Z).
  rewrite rows_app, (rows_replicate _ _ first_).
  - unfold rows at 1. cbn [result_map result_bind].
    rewrite py_index_last, last_drop, Hlast by lia. reflexivity.
  - rewrite py_index_nonneg by lia. simpl Z.to_nat.
    rewrite lookup_drop, Nat.add_0_r. exact Hfirst.
Qed.

Lemma short_lift_repeats_first_configuration_witness :
  exists traj_goto,
    robot_waypoints (ProposalBench.straight 70)
    = Ok (traj_goto, replicate 20 [of_nat 61] ++ [[of_nat 69]]).
Proof.
  apply short_lift_repeats_first_configuration;
    [vm_compute; lia | reflexivity | reflexivity].
Defined.

(** ** The order of the candidates *)


Section Order.

Variable scores : list float.




End Order.

(** ** What the trajectory handler leaves alone *)

Section Frames.

Context {PS X : Type} (E : externals PS) (f : session PS -> X).

Lemma keeps_ret {A} (a : A) : keeps f (ret a).
Proof. intros st. reflexivity. Qed.

Lemma keeps_get : keeps f get.
Proof. intros st. reflexivity. Qed.

Lemma keeps_lift {A} (r : result A) : keeps f (lift r).
Proof. intros st. reflexivity. Qed.

Lemma keeps_raise {A} (e : exn) : keeps f (raise (A := A) e).
Proof. intros st. reflexivity. Qed.

Lemma keeps_modify (g : session PS -> session PS) :
  (forall st, f (g st) = f st) -> keeps f (modify g).
Proof. intros Hg st. apply Hg. Qed.

Lemma keeps_bind {A B} (m : M PS A) (k : A -> M PS B) :
  keeps f m -> (forall a, keeps f (k a)) -> keeps f (bind m k).
Proof.
  intros Hm Hk st. unfold bind. specialize (Hm st).
  destruct (m st) as [[a|e] st1]; simpl in Hm |- *.
  - rewrite Hk. exact Hm.
  - exact Hm.
Qed.

Hypothesis Hf : search_frame f.

Lemma keeps_print (m : message) : keeps f (print m).
Proof using Hf. intros st. apply Hf. Qed.

Lemma keeps_set_traj (v : option trajectory) : keeps f (modify (set_traj v)).
Proof using Hf. intros st. apply Hf. Qed.

Lemma keeps_set_ur5_frame (v : option bool) :
  keeps f (modify (set_ur5_frame v)).
Proof using Hf. intros st. apply Hf. Qed.

Lemma keeps_call {A} (c : planner_call) (ind : nat) (method : PS -> A * PS) :
  keeps f (call_planner c ind method).
Proof using Hf.
  intros st. unfold call_planner. simpl.
  destruct (Hf (set_planner (method (planner st)).2 st)) as (_ & _ & _ & -> & _).
  apply Hf.
Qed.

End Frames.

Create HintDb keeps.

#[global] Hint Resolve keeps_print keeps_set_traj keeps_set_ur5_frame
  keeps_call : keeps.

(** Walks through a handler: binds and branches are split; reads, raises
    and the writes outside what is kept are closed. *)
Ltac keep_leaf :=
  first
    [ apply keeps_ret
    | apply keeps_get
    | apply keeps_lift
    | apply keeps_raise
    | apply keeps_modify; intros; reflexivity
    | solve [ eauto with keeps ] ].

Ltac keep :=
  match goal with
  | |- keeps _ (bind _ _) => apply keeps_bind; [ keep | intros ?; keep ]
  | |- keeps _ (if ?b then _ else _) => destruct b; keep
  | |- keeps _ (match ?x with _ => _ end) => destruct x; keep
  | |- keeps _ _ => first [ keep_leaf | idtac ]
  end.

Lemma search_frame_scoring_state {PS} : search_frame (@scoring_state PS).
Proof. intros st. repeat split. Qed.

Lemma search_frame_grasps_dict {PS} : search_frame (@grasps_dict PS).
Proof. intros st. repeat split. Qed.

Lemma search_frame_button {PS} : search_frame (@gen_traj_button_disabled PS).
Proof. intros st. repeat split. Qed.

#[global] Hint Resolve search_frame_scoring_state search_frame_grasps_dict
  search_frame_button : keeps.

Section Kept.

Context {PS X : Type} (E : externals PS) (f : session PS -> X).
Hypothesis Hf : search_frame f.

Lemma keeps_recenter pose : keeps f (recenter E pose).
Proof using Hf. unfold recenter. cbv zeta. keep. Qed.

Lemma keeps_set_visible v : keeps f (set_visible (PS := PS) v).
Proof using Hf. unfold set_visible. keep. Qed.

Lemma keeps_last_of_traj : keeps f (last_of_traj (PS := PS)).
Proof using Hf. unfold last_of_traj. keep. Qed.

Lemma keeps_extend_traj more : keeps f (extend_traj (PS := PS) more).
Proof using Hf. unfold extend_traj. keep. Qed.

#[local] Hint Resolve keeps_recenter keeps_set_visible keeps_last_of_traj
  keeps_extend_traj : keeps.

Lemma keeps_rotation_trial ind g2w ur5 i succ :
  keeps f (rotation_trial E ind g2w ur5 i succ).
Proof using Hf. unfold rotation_trial. cbv zeta. keep. Qed.

#[local] Hint Resolve keeps_rotation_trial : keeps.

Lemma keeps_rotation_loop ind g2w ur5 trials succ pose :
  keeps f (rotation_loop E ind g2w ur5 trials succ pose).
Proof using Hf.
  revert succ pose.
  induction trials as [|i trials IH]; intros succ pose; simpl; keep.
Qed.

Lemma keeps_single_attempt ind pose : keeps f (single_attempt E ind pose).
Proof using Hf. unfold single_attempt. cbv zeta. keep. Qed.

#[local] Hint Resolve keeps_rotation_loop keeps_single_attempt : keeps.

Lemma keeps_try_candidate ind pose : keeps f (try_candidate E ind pose).
Proof using Hf. unfold try_candidate. cbv zeta. keep. Qed.

#[local] Hint Resolve keeps_try_candidate : keeps.

Lemma keeps_candidate_loop l acc : keeps f (candidate_loop E l acc).
Proof using Hf.
  revert acc. induction l as [|ind l IH]; intros acc; simpl; keep.
Qed.

End Kept.

#[global] Hint Resolve keeps_recenter keeps_set_visible keeps_last_of_traj
  keeps_extend_traj keeps_candidate_loop : keeps.

Section Handler.

Context {PS : Type} (E : externals PS).

Lemma keeps_compose_stages a : keeps scoring_state (compose_stages E a).
Proof.
  unfold compose_stages, place_stage, pour_stage, goto_joints. cbv zeta.
  keep.
Qed.

Lemma keeps_synthesize l : keeps scoring_state (synthesize E l).
Proof.
  unfold synthesize. keep. apply keeps_compose_stages.
Qed.

(** Whether it returns or raises, the trajectory handler changes none of
    the grasps, the shown grasps, the three score arrays, the LERF points
    and their relevancy, the pick and place points, the scene's cloud and
    the primitive. *)
Theorem trajectory_handler_keeps_scoring_state (st : session PS) :
  scoring_state (gen_traj_on_click E st).2 = scoring_state st.
Proof.
  revert st. change (keeps scoring_state (gen_traj_on_click E)).
  unfold gen_traj_on_click. keep. apply keeps_synthesize.
Qed.

(** When the candidates before [k] in the ranked list record no success
    and candidate [k] is not among the shown grasps, the handler ends in
    a KeyError at [k]: it does not report that no trajectory was found,
    and it leaves its button disabled. *)
Theorem unshown_candidate_raises_KeyError (l1 : list nat) (k : nat)
    (l2 : list nat) (st st1 : session PS) (last_ : option attempt) :
  candidate_loop E l1 None (set_gen_traj_button_disabled true st)
  = (Ok last_, st1) ->
  (forall a, last_ = Some a -> succ_traj_list a = []) ->
  grasps_dict st !! k = None ->
  synthesize E (l1 ++ k :: l2) st = (Raise KeyError, st1)
  /\ gen_traj_button_disabled st1 = true.
Proof.
  intros Hbefore Hnone Hk.
  set (st0 := set_gen_traj_button_disabled true st) in *.
  assert (Hdict : grasps_dict st1 = grasps_dict st).
  { pose proof (keeps_candidate_loop E grasps_dict search_frame_grasps_dict
                  l1 None st0) as H.
    rewrite Hbefore in H. exact H. }
  assert (Hbutton : gen_traj_button_disabled st1 = true).
  { pose proof (keeps_candidate_loop E gen_traj_button_disabled
                  search_frame_button l1 None st0) as H.
    rewrite Hbefore in H. exact H. }
  split; [|exact Hbutton].
  unfold synthesize.
  rewrite (bind_ok (modify (set_gen_traj_button_disabled true)) _ st tt st0
             eq_refl).
  apply bind_raise.
  rewrite (candidate_loop_app E l1 (k :: l2) None st0 last_ st1 Hbefore)
    by (intros _; exact Hnone).
  cbn [candidate_loop]. apply bind_raise.
  unfold try_candidate. step. rewrite Hdict, Hk. reflexivity.
Qed.

(** *** The best recorded result *)

Lemma ltb_irrefl (x : float) : ltb x x = false.
Proof.
  destruct x as [a| | |]; try reflexivity.
  simpl. apply Qltb_false, Qle_refl.
Qed.

Lemma consider_member target b item b' :
  consider E target b item = Ok b' ->
  b' = b
  \/ (best_traj b' = Some item.1 /\ best_end_pose b' = Some item.2
      /\ path_length E item.1 = Ok (min_dist b')
      /\ ltb (min_dist b') (min_dist b) = true).
Proof.
  unfold consider, adopts.
  destruct (path_length E item.1) as [dist|e]; [|discriminate]. simpl.
  destruct (ltb dist (min_dist b)) eqn:Hlt; simpl.
  - destruct (best_end_pose b) as [pose|]; simpl.
    + destruct target as [t|]; [|discriminate]. simpl.
      destruct (gtb _ _); intros [= <-]; [right | left; reflexivity].
      repeat split; assumption.
    + intros [= <-]. right. repeat split; assumption.
  - intros [= <-]. left. reflexivity.
Qed.

(** The result the selection loop adopts is one of the recorded ones,
    trajectory and end pose of the same record, with the length of its
    path as the least distance; or the loop adopts none and the best
    trajectory and pose are left as [None].  It adopts none when no
    recorded path has a length below infinity. *)
Theorem best_result_is_a_recorded_one (target : option RigidTransform.t)
    (succ_traj_list_ : successes) (b : best) :
  select_best E target succ_traj_list_ no_best = Ok b ->
  (b = no_best
   /\ Forall (fun item =>
                exists dist, path_length E item.1 = Ok dist
                             /\ ltb dist PInf = false) succ_traj_list_)
  \/ exists item,
       item ∈ succ_traj_list_
       /\ best_traj b = Some item.1 /\ best_end_pose b = Some item.2
       /\ path_length E item.1 = Ok (min_dist b).
Proof.
  assert (Hgen : forall l b0 b1,
            select_best E target l b0 = Ok b1 ->
            (b1 = b0
             /\ Forall (fun item =>
                          exists dist, path_length E item.1 = Ok dist
                            /\ (ltb dist (min_dist b0) = false
                                \/ best_end_pose b0 <> None)) l)
            \/ exists item,
                 item ∈ l
                 /\ best_traj b1 = Some item.1
                 /\ best_end_pose b1 = Some item.2
                 /\ path_length E item.1 = Ok (min_dist b1)).
  { induction l as [|item l IH]; intros b0 b1; simpl.
    - intros [= <-]. left. split; [reflexivity | constructor].
    - destruct (consider E target b0 item) as [b'|e] eqn:Hc; [|discriminate].
      simpl. intros Hrest.
      destruct (IH _ _ Hrest) as [[-> Hall] | (it & Hin & H)].
      + destruct (consider_member _ _ _ _ Hc) as [-> | (Ht & Hp & Hd & Hlt)].
        * left. split; [reflexivity|]. constructor; [|exact Hall].
          revert Hc. unfold consider, adopts.
          destruct (path_length E item.1) as [dist|e]; [|discriminate].
          simpl. intros Hc. exists dist. split; [reflexivity|].
          destruct (ltb dist (min_dist b0)) eqn:Hlt; [|left; reflexivity].
          right. destruct (best_end_pose b0); [discriminate|].
          simpl in Hc. injection Hc as Hc. rewrite <- Hc in Hlt. simpl in Hlt.
          rewrite ltb_irrefl in Hlt. discriminate.
        * right. exists item. split; [left|]. repeat split; assumption.
      + right. exists it. split; [right; exact Hin | exact H]. }
  intros Hrun. destruct (Hgen _ _ _ Hrun) as [[-> Hall] | H]; [left | right].
  - split; [reflexivity|]. eapply Forall_impl; [exact Hall|].
    intros item (dist & Hd & [Hlt | Hne]); [|contradiction].
    exists dist. split; assumption.
  - exact H.
Qed.

End Handler.

Lemma unshown_candidate_raises_KeyError_witness :
  let st := Cases.planning prim_grasp [] in
  synthesize Bench.E [1; 2; 0]%nat st
  = (Raise KeyError, set_gen_traj_button_disabled true st).
Proof.
  intros st.
  refine (proj1 (unshown_candidate_raises_KeyError Bench.E [] 1%nat
                   [2; 0]%nat st (set_gen_traj_button_disabled true st)
                   None _ _ _)).
  - reflexivity.
  - discriminate.
  - vm_compute. reflexivity.
Defined.

Lemma best_result_is_a_recorded_one_witness :
  let recorded := [Cases.long_close] in
  let b := match select_best Bench.E (Some Cases.target) recorded no_best with
           | Ok b => b
           | Raise _ => no_best
           end in
  (b = no_best
   /\ Forall (fun item =>
                exists dist, path_length Bench.E item.1 = Ok dist
                             /\ ltb dist PInf = false) recorded)
  \/ exists item,
       item ∈ recorded
       /\ best_traj b = Some item.1 /\ best_end_pose b = Some item.2
       /\ path_length Bench.E item.1 = Ok (min_dist b).
Proof.
  intros recorded b.
  apply (best_result_is_a_recorded_one Bench.E (Some Cases.target) recorded b).
  vm_compute. reflexivity.
Defined.

(** ** Rescaling the overall scores *)





Lemma omap_lookup_fmap {A B} (g : A -> B) (a : list A) (idx : list nat) :
  omap (fun i => (g <$> a) !! i) idx = g <$> omap (fun i => a !! i) idx.
Proof.
  induction idx as [|i idx IH]; [reflexivity|].
  simpl. rewrite list_lookup_fmap.
  destruct (a !! i); simpl; [f_equal|]; exact IH.
Qed.

Lemma omap_lookup_nonempty {A} (a : list A) (idx : list nat) :
  idx <> [] -> Forall (fun i => (i < length a)%nat) idx ->
  omap (fun i => a !! i) idx <> [].
Proof.
  intros Hne Hidx Hnil.
  destruct (take_indices_in_range a idx Hidx) as [_ Hlen].
  rewrite Hnil in Hlen. destruct idx; [congruence | discriminate].
Qed.

(** With selected indices in range and at least one of them, the
    rescaling returns an array of the same length. *)
Lemma rescale_total (scores : list float) (inds : list nat) :
  inds <> [] -> Forall (fun i => (i < length scores)%nat) inds ->
  exists lo hi,
    rescale scores inds
    = Ok (map (fun s => div s hi) (map (fun s => sub s lo) scores)).
Proof.
  intros Hne Hidx. unfold rescale.
  destruct (take_indices_in_range scores inds Hidx) as [-> _]. simpl.
  pose proof (omap_lookup_nonempty scores inds Hne Hidx) as Hsel.
  destruct (omap (fun i => scores !! i) inds) as [|x sel] eqn:Hx; [congruence|].
  simpl. set (lo := fold_left min2 sel x).
  destruct (take_indices_in_range (map (fun s => sub s lo) scores) inds)
    as [-> _].
  { rewrite length_map. exact Hidx. }
  simpl. rewrite omap_lookup_fmap, Hx. simpl.
  eexists _, _. reflexivity.
Qed.





(** ** The sessions of the program *)

Section Program.

Context {PS : Type} (E : externals PS).

Lemma keeps_score_loop rc grasps_ :
  keeps frame_and_traj (score_loop E rc grasps_).
Proof. induction grasps_ as [|g rest IH]; simpl; keep. Qed.

Lemma keeps_show_selected pairs scores :
  keeps frame_and_traj (show_selected E pairs scores).
Proof.
  induction pairs as [|[ind g] rest IH]; simpl; keep.
Qed.

Lemma keeps_compute_scores rc : keeps frame_and_traj (compute_scores E rc).
Proof.
  unfold compute_scores, normalize_lerf_scores. keep.
  apply keeps_score_loop.
Qed.

Lemma keeps_update_overall_scores w q :
  keeps frame_and_traj (update_overall_scores E w q).
Proof.
  unfold update_overall_scores. cbv zeta. keep.
  all: apply keeps_show_selected.
Qed.

(** From the session [main] starts in, no handler binds the name
    [ur5_frame] or assigns a trajectory: after the scoring of [main], a
    LERF query, an update of the overall scores, a reset or a click on
    the trajectory button the frame is still unbound and [traj] still
    None; and the slider, finding no trajectory, shows nothing. *)
Theorem program_never_binds_the_frame (st : session PS) (n_words : nat)
    (rc : relevancy_cloud) (loaded : bool) :
  as_main_leaves_it st ->
  as_main_leaves_it (main_scoring E rc st).2
  /\ as_main_leaves_it (gen_grasp_on_click E n_words rc st).2
  /\ as_main_leaves_it (update_overall_scores_on_click E st).2
  /\ as_main_leaves_it (lerf_reset_on_click loaded st).2
  /\ as_main_leaves_it (gen_traj_on_click E st).2
  /\ gen_traj_slider_on_update st = (Ok tt, st).
Proof.
  intros Hmain.
  assert (Hkept : forall A (m : M PS A),
            keeps frame_and_traj m -> as_main_leaves_it (m st).2).
  { intros A m Hm. specialize (Hm st). unfold frame_and_traj in Hm.
    injection Hm as Hf Ht. destruct Hmain as [Hf0 Ht0].
    split; congruence. }
  split; [|split; [|split; [|split; [|split]]]].
  - apply Hkept. unfold main_scoring. cbv zeta. keep.
    all: first [apply keeps_compute_scores | apply keeps_update_overall_scores
               | apply keeps_show_selected | idtac].
  - apply Hkept. unfold gen_grasp_on_click. cbv zeta. keep.
    all: apply keeps_compute_scores.
  - apply Hkept. unfold update_overall_scores_on_click. keep.
    apply keeps_update_overall_scores.
  - apply Hkept. unfold lerf_reset_on_click. keep.
  - destruct Hmain as [Hframe Htraj].
    destruct (gen_traj_frame_unbound E st Hframe) as [-> | [-> | ->]];
      split; assumption.
  - unfold gen_traj_slider_on_update. step.
    destruct Hmain as [_ ->]. reflexivity.
Qed.

End Program.

(** ** Updating the overall scores *)

Section Update.

Context {PS : Type} (E : externals PS).

(** The shown grasps after the loop over the selection. *)
Lemma show_selected_run (pairs : list (nat * Grasp)) (scores : list float)
    (st : session PS) :
  Forall (fun p => (p.1 < length scores)%nat) pairs ->
  exists st',
    show_selected E pairs scores st = (Ok tt, st')
    /\ grasps_dict st' = foldl (shown_for E scores) (grasps_dict st) pairs
    /\ grasps st' = grasps st
    /\ lerf_scores st' = lerf_scores st
    /\ geom_scores st' = geom_scores st.
Proof.
  intros Hpairs. revert st.
  induction Hpairs as [|[ind g] pairs Hind _ IH]; intros st.
  - exists st. repeat split.
  - destruct (lookup_lt_is_Some_2 scores ind Hind) as [s Hs].
    destruct (IH (set_grasps_dict
                    (<[ind := add_grasps E g (Z.of_nat ind) s]>
                       (grasps_dict st)) st))
      as (st' & Hrun & Hdict & Hg & Hl & Hgeo).
    exists st'. split.
    { cbn [show_selected]. rewrite Hs. step. exact Hrun. }
    revert Hdict Hg Hl Hgeo. fields.
    intros Hdict Hg Hl Hgeo. split; [|auto].
    rewrite Hdict. cbn [foldl].
    change (shown_for E scores (grasps_dict st) (ind, g))
      with (<[ind := add_grasps E g (Z.of_nat ind)
                       (default NaN (scores !! ind))]> (grasps_dict st)).
    rewrite Hs. reflexivity.
Qed.

Lemma foldl_shown_lookup (scores : list float) (pairs : list (nat * Grasp))
    (d : gmap nat grasp_handles) (ind : nat) :
  ind ∉ pairs.*1 ->
  foldl (shown_for E scores) d pairs !! ind = d !! ind.
Proof.
  revert d. induction pairs as [|[i g] pairs IH]; intros d Hnot;
    [reflexivity|].
  cbn [foldl]. rewrite IH by (intros H; apply Hnot; right; exact H).
  unfold shown_for. cbn [fst snd]. apply lookup_insert_ne.
  intros ->. apply Hnot. left.
Qed.

Lemma foldl_shown_member (scores : list float) (pairs : list (nat * Grasp))
    (d : gmap nat grasp_handles) (k : nat) (ind : nat) (g : Grasp) :
  NoDup pairs.*1 -> pairs !! k = Some (ind, g) ->
  foldl (shown_for E scores) d pairs !! ind
  = Some (add_grasps E g (Z.of_nat ind) (default NaN (scores !! ind))).
Proof.
  revert d k. induction pairs as [|[i h] pairs IH]; intros d k Hnd Hk;
    [discriminate|].
  apply NoDup_cons in Hnd as [Hi Hnd]. destruct k as [|k]; cbn [foldl].
  - injection Hk as -> ->. rewrite foldl_shown_lookup by exact Hi.
    unfold shown_for. cbn [fst snd]. apply lookup_insert_eq.
  - apply (IH _ k Hnd Hk).
Qed.


(** A run of the update in which some candidate is above the quantile. *)
Lemma update_run (lerf_weight quantile : Q) (st : session PS)
    (origin : scores_origin) (scores : list float) (grasps_ : list Grasp) :
  fused_scores lerf_weight (lerf_scores st) (geom_scores st)
  = Ok (origin, scores) ->
  origin <> geom_scores_list ->
  grasps st = Some grasps_ ->
  (length grasps_ <= length scores)%nat ->
  let thr := np_quantile scores quantile in
  (exists ind, above grasps_ scores thr ind) ->
  let sel := filter (kept scores thr)
               (zip (seq 0 (length grasps_)) grasps_) in
  exists out st',
    update_overall_scores E lerf_weight quantile st = (Ok tt, st')
    /\ rescale scores sel.*1 = Ok out
    /\ length out = length scores
    /\ overall_scores st' = Some out
    /\ grasps_dict st'
       = foldl (shown_for E out) ∅ (zip sel.*1 (sort_by_score sel.*2))
    /\ grasps st' = grasps st
    /\ geom_scores st' = geom_scores st.
Proof.
  intros Hfused Horigin Hgrasps Hlen thr [ind0 Hind0] sel.
  destruct (selected_above grasps_ scores thr Hlen)
    as (Hsel & Hmem & Hpairs & Hnodup). fold sel in Hsel, Hmem, Hpairs, Hnodup.
  assert (Hne : sel.*1 <> []).
  { apply Hmem in Hind0. intros H. rewrite H in Hind0. inversion Hind0. }
  assert (Hrange : Forall (fun i => (i < length scores)%nat) sel.*1).
  { apply Forall_forall. intros i Hi. apply Hmem in Hi as (g & s & _ & Hs & _).
    eapply lookup_lt_Some. exact Hs. }
  destruct (rescale_total scores sel.*1 Hne Hrange) as (lo & hi & Hres).
  set (out := map (fun s => div s hi) (map (fun s => sub s lo) scores)) in *.
  assert (Hout : length out = length scores)
    by (unfold out; rewrite !length_map; reflexivity).
  assert (Hshow : Forall (fun p : nat * Grasp => (p.1 < length out)%nat)
                    (zip sel.*1 (sort_by_score sel.*2))).
  { apply Forall_forall. intros [i g] Hp. apply elem_of_zip_l in Hp.
    rewrite Hout. revert i Hp. apply Forall_forall. exact Hrange. }
  assert (Hscores : (length scores =? 0)%nat = false).
  { destruct Hind0 as (g & s & _ & Hs & _). apply lookup_lt_Some in Hs.
    apply Nat.eqb_neq. lia. }
  assert (Hselect : select grasps_ scores thr
                    = Ok (sel.*1, sort_by_score sel.*2)).
  { unfold select. rewrite Hsel. cbn [result_bind]. rewrite length_fmap.
    destruct (length sel =? 0)%nat eqn:Hz; [|reflexivity].
    apply Nat.eqb_eq, nil_length_inv in Hz. rewrite Hz in Hne.
    contradiction. }
  unfold update_overall_scores. step. rewrite Hfused. step. cbn [fst snd].
  rewrite Hscores, Hgrasps. step. fold thr. rewrite Hselect. step.
  cbn [fst snd].
  destruct origin; [contradiction | |]; step; rewrite Hres; step.
  - destruct (show_selected_run _ out
                (set_lerf_scores out (set_grasps_dict ∅ st)) Hshow)
      as (st1 & Hrun & Hdict & Hg & _ & Hgeo).
    exists out, (set_overall_scores (Some out) st1).
    rewrite (bind_ok _ _ _ _ _ Hrun). step.
    revert Hdict Hg Hgeo. fields. intros Hdict Hg Hgeo.
    rewrite Hg, Hgrasps. repeat split; assumption.
  - destruct (show_selected_run _ out (set_grasps_dict ∅ st) Hshow)
      as (st1 & Hrun & Hdict & Hg & _ & Hgeo).
    exists out, (set_overall_scores (Some out) st1).
    rewrite (bind_ok _ _ _ _ _ Hrun). step.
    revert Hdict Hg Hgeo. fields. intros Hdict Hg Hgeo.
    rewrite Hg, Hgrasps. repeat split; assumption.
Qed.

End Update.

(** ** The threshold *)

Lemma lerp_not_below (m qa qb g : Q) :
  (m <= qa)%Q -> (m <= qb)%Q -> (0 <= g)%Q -> (g <= 1)%Q ->
  exists r, lerp (Fin qa) (Fin qb) (Fin g) = Fin r /\ (m <= r)%Q.
Proof.
  intros Ha Hb Hg0 Hg1. unfold lerp.
  assert (H1 : (0 <= (qa - m) * (1 - g))%Q)
    by (apply Qmult_le_0_compat; lra).
  assert (H2 : (0 <= (qb - m) * g)%Q) by (apply Qmult_le_0_compat; lra).
  destruct (geb (Fin g) (Fin 0.5)); simpl; eexists; (split; [reflexivity|]);
    rewrite !Qred_correct; lra.
Qed.

Lemma lerp_nan_l (b t : float) : lerp NaN b t = NaN.
Proof.
  unfold lerp. destruct (geb t (Fin 0.5)); destruct b, t; reflexivity.
Qed.

Lemma lerp_nan_r (a t : float) : lerp a NaN t = NaN.
Proof.
  unfold lerp. destruct (geb t (Fin 0.5)); destruct a, t; reflexivity.
Qed.

(** With a quantile that is not negative the threshold is not below the
    least score: no score at the minimum is above it. *)
Lemma quantile_not_below (scores : list float) (quantile m : Q) :
  (0 <= quantile)%Q ->
  Forall (fun x => exists v, x = Fin v /\ (m <= v)%Q) scores ->
  gtb (Fin m) (np_quantile scores quantile) = false.
Proof.
  intros Hq Hall. unfold np_quantile.
  assert (Hnan : existsb is_nan scores = false).
  { induction Hall as [|x l (v & -> & _) _ IH]; [reflexivity | exact IH]. }
  rewrite Hnan.
  assert (Hsorted : Forall (fun x => exists v, x = Fin v /\ (m <= v)%Q)
                      (np_sort scores))
    by (rewrite np_sort_perm; exact Hall).
  assert (Hnth : forall i,
            nth i (np_sort scores) NaN = NaN
            \/ exists v, nth i (np_sort scores) NaN = Fin v /\ (m <= v)%Q).
  { intros i. destruct (nth_in_or_default i (np_sort scores) NaN) as [H | H];
      [right | left; exact H].
    apply list_elem_of_In in H.
    exact (proj1 (Forall_forall _ _) Hsorted _ H). }
  set (virtual_index := (inject_Z (Z.of_nat (length scores - 1)) * quantile)%Q).
  assert (Hv : (0 <= virtual_index)%Q).
  { apply Qmult_le_0_compat; [|exact Hq].
    change 0%Q with (inject_Z 0). rewrite <- Zle_Qle. lia. }
  assert (Hfloor : (0 <= Qfloor virtual_index)%Z).
  { rewrite <- (Qfloor_Z 0). apply Qfloor_resp_le. exact Hv. }
  set (previous := Z.to_nat (Qfloor virtual_index)).
  assert (Hprev : inject_Z (Z.of_nat previous) = inject_Z (Qfloor virtual_index)).
  { unfold previous. rewrite Z2Nat.id by exact Hfloor. reflexivity. }
  pose proof (Qfloor_le virtual_index) as Hlo.
  pose proof (Qlt_floor virtual_index) as Hhi.
  rewrite inject_Z_plus in Hhi.
  set (gamma := Qred (virtual_index - inject_Z (Z.of_nat previous))).
  assert (Hg : (0 <= gamma)%Q /\ (gamma <= 1)%Q).
  { unfold gamma. rewrite Qred_correct, Hprev.
    change (inject_Z 1) with 1%Q in Hhi. split; lra. }
  destruct (Hnth previous) as [-> | (qa & -> & Ha)]; [rewrite lerp_nan_l; reflexivity|].
  destruct (Hnth (Nat.min (previous + 1) (length scores - 1)))
    as [-> | (qb & -> & Hb)]; [rewrite lerp_nan_r; reflexivity|].
  destruct (lerp_not_below m qa qb gamma Ha Hb (proj1 Hg) (proj2 Hg))
    as (r & -> & Hr).
  unfold gtb. simpl. apply Qltb_false. exact Hr.
Qed.

(** ** What the update shows *)

Lemma insert_by_score_last (g : Grasp) (l : list Grasp) :
  Forall (fun h => ltb (score h) (score g) = true) l ->
  insert_by_score g l = l ++ [g].
Proof.
  induction 1 as [|h l Hh _ IH]; [reflexivity|].
  simpl. rewrite Hh, IH. reflexivity.
Qed.

Lemma sort_by_score_descending (l : list Grasp) :
  StronglySorted strictly_descending l -> sort_by_score l = l.
Proof.
  intros Hs. unfold sort_by_score.
  rewrite <- (reverse_involutive l) at 2. f_equal.
  induction Hs as [|g l _ IH Hg]; [reflexivity|].
  simpl. rewrite IH, reverse_cons. apply insert_by_score_last.
  apply Forall_reverse. exact Hg.
Qed.

Lemma StronglySorted_sublist {A} (R : A -> A -> Prop) (l1 l2 : list A) :
  sublist l1 l2 -> StronglySorted R l2 -> StronglySorted R l1.
Proof.
  induction 1 as [|x l1 l2 Hsub IH|x l1 l2 Hsub IH]; intros Hs.
  - constructor.
  - apply StronglySorted_inv in Hs as [Hs Hx].
    constructor; [apply IH; exact Hs|].
    apply Forall_forall. intros y Hy.
    apply (proj1 (Forall_forall _ _) Hx). eapply elem_of_sublist; eassumption.
  - apply StronglySorted_inv in Hs as [Hs _]. apply IH. exact Hs.
Qed.

Section Shown.

Context {PS : Type} (E : externals PS).

Lemma shown_after_update (lerf_weight quantile : Q) (st : session PS)
    (origin : scores_origin) (scores : list float) (grasps_ : list Grasp) :
  fused_scores lerf_weight (lerf_scores st) (geom_scores st)
  = Ok (origin, scores) ->
  origin <> geom_scores_list ->
  grasps st = Some grasps_ ->
  (length grasps_ <= length scores)%nat ->
  (exists ind, above grasps_ scores (np_quantile scores quantile) ind) ->
  exists out,
    (update_overall_scores E lerf_weight quantile st).1 = Ok tt
    /\ overall_scores (update_overall_scores E lerf_weight quantile st).2
       = Some out
    /\ length out = length scores
    /\ (forall ind,
          ind ∉ (filter (kept scores (np_quantile scores quantile))
                   (zip (seq 0 (length grasps_)) grasps_)).*1 ->
          grasps_dict (update_overall_scores E lerf_weight quantile st).2
            !! ind = None)
    /\ (forall k ind g,
          zip (filter (kept scores (np_quantile scores quantile))
                 (zip (seq 0 (length grasps_)) grasps_)).*1
            (sort_by_score
               (filter (kept scores (np_quantile scores quantile))
                  (zip (seq 0 (length grasps_)) grasps_)).*2)
            !! k = Some (ind, g) ->
          grasps_dict (update_overall_scores E lerf_weight quantile st).2
            !! ind
          = Some (add_grasps E g (Z.of_nat ind) (default NaN (out !! ind)))).
Proof.
  intros Hfused Horigin Hgrasps Hlen Habove.
  destruct (update_run E lerf_weight quantile st origin scores grasps_
              Hfused Horigin Hgrasps Hlen Habove)
    as (out & st' & Hrun & _ & Hout & Hov & Hdict & _).
  destruct (selected_above grasps_ scores (np_quantile scores quantile) Hlen)
    as (_ & _ & _ & Hnodup).
  set (sel := filter (kept scores (np_quantile scores quantile))
                (zip (seq 0 (length grasps_)) grasps_)) in *.
  assert (Hfst : (zip sel.*1 (sort_by_score sel.*2)).*1 = sel.*1).
  { apply fst_zip. rewrite (Permutation_length (sort_by_score_perm _)).
    rewrite !length_fmap. reflexivity. }
  exists out. rewrite Hrun. cbn [fst snd].
  split; [reflexivity|]. split; [exact Hov|]. split; [exact Hout|]. split.
  - intros ind Hind.
    rewrite Hdict, foldl_shown_lookup by (rewrite Hfst; exact Hind).
    apply lookup_empty.
  - intros k ind g Hk. rewrite Hdict.
    apply (foldl_shown_member E out _ ∅ k);
      [rewrite Hfst; exact Hnodup | exact Hk].
Qed.

End Shown.

Section Shows.

Context {PS : Type} (E : externals PS).

(** An update in which some candidate is above the quantile ends with
    exactly the candidates above the quantile shown, the grasps shown
    before being dropped, with as many overall scores as fused scores,
    and every shown mesh carries the rescaled score of its own
    candidate. *)
Theorem update_shows_exactly_the_selection (lerf_weight quantile : Q)
    (st : session PS) (origin : scores_origin) (scores : list float)
    (grasps_ : list Grasp) :
  fused_scores lerf_weight (lerf_scores st) (geom_scores st)
  = Ok (origin, scores) ->
  origin <> geom_scores_list ->
  grasps st = Some grasps_ ->
  (length grasps_ <= length scores)%nat ->
  let thr := np_quantile scores quantile in
  (exists ind, above grasps_ scores thr ind) ->
  let r := update_overall_scores E lerf_weight quantile st in
  r.1 = Ok tt
  /\ (forall ind, is_Some (grasps_dict r.2 !! ind)
                  <-> above grasps_ scores thr ind)
  /\ exists out,
       overall_scores r.2 = Some out /\ length out = length scores
       /\ forall ind h, grasps_dict r.2 !! ind = Some h ->
                        out !! ind = Some (mesh_score (h_mesh h)).
Proof.
  intros Hfused Horigin Hgrasps Hlen thr Habove r.
  destruct (shown_after_update E lerf_weight quantile st origin scores
              grasps_ Hfused Horigin Hgrasps Hlen Habove)
    as (out & Hok & Hov & Hout & Hnot & Hin).
  fold thr r in Hok, Hov, Hnot, Hin.
  destruct (selected_above grasps_ scores thr Hlen) as (_ & Hmem & _ & _).
  set (sel := filter (kept scores thr)
                (zip (seq 0 (length grasps_)) grasps_)) in *.
  assert (Hzip : forall ind, ind ∈ sel.*1 ->
            exists k g,
              zip sel.*1 (sort_by_score sel.*2) !! k = Some (ind, g)).
  { intros ind Hind. apply list_elem_of_lookup in Hind as [k Hk].
    destruct (lookup_lt_is_Some_2 (sort_by_score sel.*2) k) as [g Hg].
    { rewrite (Permutation_length (sort_by_score_perm _)), length_fmap.
      apply lookup_lt_Some in Hk. rewrite length_fmap in Hk. exact Hk. }
    exists k, g. apply lookup_zip_with_Some. exists ind, g. auto. }
  assert (Hshown : forall ind h, grasps_dict r.2 !! ind = Some h ->
            ind ∈ sel.*1
            /\ mesh_score (h_mesh h) = default NaN (out !! ind)).
  { intros ind h Hh.
    destruct (decide (ind ∈ sel.*1)) as [Hind | Hind];
      [|rewrite (Hnot ind Hind) in Hh; discriminate].
    split; [exact Hind|].
    destruct (Hzip ind Hind) as (k & g & Hk).
    rewrite (Hin k ind g Hk) in Hh. injection Hh as <-. reflexivity. }
  split; [exact Hok|]. split.
  - intros ind. rewrite <- Hmem. split.
    + intros [h Hh]. apply (Hshown ind h Hh).
    + intros Hind. destruct (Hzip ind Hind) as (k & g & Hk).
      rewrite (Hin k ind g Hk). eexists. reflexivity.
  - exists out. split; [exact Hov|]. split; [exact Hout|].
    intros ind h Hh. destruct (Hshown ind h Hh) as [Hind ->].
    apply Hmem in Hind as (g & s & _ & Hs & _).
    destruct (lookup_lt_is_Some_2 out ind) as [x ->]; [|reflexivity].
    rewrite Hout. eapply lookup_lt_Some. exact Hs.
Qed.

(** When the grasps come strictly descending by the detector's score,
    every grasp shown by the update sits at the pose of the candidate it
    is filed under. *)
Theorem shown_grasp_is_its_candidate (lerf_weight quantile : Q)
    (st : session PS) (origin : scores_origin) (scores : list float)
    (grasps_ : list Grasp) :
  fused_scores lerf_weight (lerf_scores st) (geom_scores st)
  = Ok (origin, scores) ->
  origin <> geom_scores_list ->
  grasps st = Some grasps_ ->
  (length grasps_ <= length scores)%nat ->
  (exists ind, above grasps_ scores (np_quantile scores quantile) ind) ->
  StronglySorted strictly_descending grasps_ ->
  let r := update_overall_scores E lerf_weight quantile st in
  forall ind h,
    grasps_dict r.2 !! ind = Some h ->
    exists g,
      grasps_ !! ind = Some g
      /\ h_frame h = mkFrame (SO3_from_matrix E (rotation_matrix g))
                       (translation g).
Proof.
  intros Hfused Horigin Hgrasps Hlen Habove Hsorted r ind h Hh.
  destruct (shown_after_update E lerf_weight quantile st origin scores
              grasps_ Hfused Horigin Hgrasps Hlen Habove)
    as (out & _ & _ & _ & Hnot & Hin).
  fold r in Hnot, Hin.
  destruct (selected_above grasps_ scores (np_quantile scores quantile) Hlen)
    as (_ & _ & Hpairs & _).
  set (sel := filter (kept scores (np_quantile scores quantile))
                (zip (seq 0 (length grasps_)) grasps_)) in *.
  assert (Hid : sort_by_score sel.*2 = sel.*2).
  { apply sort_by_score_descending.
    apply (StronglySorted_sublist _ _
             (zip (seq 0 (length grasps_)) grasps_).*2).
    - apply fmap_sublist, sublist_filter.
    - rewrite snd_zip by (rewrite length_seq; lia). exact Hsorted. }
  rewrite Hid, zip_fst_snd in Hin.
  destruct (decide (ind ∈ sel.*1)) as [Hind | Hind];
    [|rewrite (Hnot ind Hind) in Hh; discriminate].
  apply list_elem_of_fmap in Hind as ([i g] & -> & Hp).
  cbn [fst] in Hh |- *.
  apply list_elem_of_lookup in Hp as [k Hk].
  rewrite (Hin k i g Hk) in Hh. injection Hh as <-.
  exists g. split; [|reflexivity].
  apply (Hpairs (i, g)). apply list_elem_of_lookup. exists k. exact Hk.
Qed.

(** Whatever the quantile in [0,1], an update over finite fused scores
    never shows the candidates with the least fused score: the threshold
    is not below the least score and the test is strict. *)
Theorem least_scored_candidate_is_not_shown (lerf_weight quantile : Q)
    (st : session PS) (origin : scores_origin) (scores : list float)
    (grasps_ : list Grasp) (ind : nat) (m : Q) :
  fused_scores lerf_weight (lerf_scores st) (geom_scores st)
  = Ok (origin, scores) ->
  origin <> geom_scores_list ->
  grasps st = Some grasps_ ->
  (length grasps_ <= length scores)%nat ->
  (exists i, above grasps_ scores (np_quantile scores quantile) i) ->
  (0 <= quantile)%Q ->
  Forall (fun x => exists v, x = Fin v /\ (m <= v)%Q) scores ->
  scores !! ind = Some (Fin m) ->
  grasps_dict (update_overall_scores E lerf_weight quantile st).2 !! ind
  = None.
Proof.
  intros Hfused Horigin Hgrasps Hlen Habove Hq Hall Hind.
  destruct (shown_after_update E lerf_weight quantile st origin scores
              grasps_ Hfused Horigin Hgrasps Hlen Habove)
    as (out & _ & _ & _ & Hnot & _).
  apply Hnot.
  destruct (selected_above grasps_ scores (np_quantile scores quantile) Hlen)
    as (_ & Hmem & _ & _).
  rewrite Hmem. intros (g & s & _ & Hs & Hgt).
  assert (s = Fin m) by congruence. subst s.
  rewrite (quantile_not_below scores quantile m Hq Hall) in Hgt.
  discriminate.
Qed.

(** When every fused score has the same value no candidate is above the
    quantile, and the update raises a ValueError before it touches the
    session: the shown grasps and the overall scores stay as they were. *)
Theorem equal_scores_update_raises (lerf_weight quantile : Q)
    (st : session PS) (origin : scores_origin) (scores : list float)
    (grasps_ : list Grasp) (v : Q) :
  fused_scores lerf_weight (lerf_scores st) (geom_scores st)
  = Ok (origin, scores) ->
  scores <> [] ->
  grasps st = Some grasps_ ->
  (length grasps_ <= length scores)%nat ->
  (0 <= quantile)%Q ->
  Forall (is_value v) scores ->
  update_overall_scores E lerf_weight quantile st = (Raise ValueError, st).
Proof.
  intros Hfused Hne Hgrasps Hlen Hq Hall.
  assert (Hge : Forall (fun x => exists q, x = Fin q /\ (v <= q)%Q) scores).
  { eapply Forall_impl; [exact Hall|]. intros x (q & -> & Hqv).
    exists q. split; [reflexivity|]. rewrite Hqv. apply Qle_refl. }
  pose proof (quantile_not_below scores quantile v Hq Hge) as Hthr.
  set (thr := np_quantile scores quantile) in *.
  destruct (selected_above grasps_ scores thr Hlen) as (Hsel & Hmem & _ & _).
  set (sel := filter (kept scores thr)
                (zip (seq 0 (length grasps_)) grasps_)) in *.
  assert (Hnil : sel = []).
  { destruct sel as [|[i g] rest] eqn:Hs; [reflexivity|]. exfalso.
    assert (Hi : i ∈ ((i, g) :: rest).*1) by left.
    apply Hmem in Hi as (g' & s & _ & Hsi & Hgt).
    assert (Hval : is_value v s).
    { eapply (proj1 (Forall_forall _ _) Hall), list_elem_of_lookup; eauto. }
    destruct Hval as (q & -> & Hqv).
    assert (Hsame : gtb (Fin q) thr = gtb (Fin v) thr).
    { unfold gtb. apply ltb_same; [apply same_refl | exact Hqv]. }
    rewrite Hsame, Hthr in Hgt. discriminate. }
  assert (Hscores : (length scores =? 0)%nat = false).
  { destruct scores; [congruence | reflexivity]. }
  unfold update_overall_scores. step. rewrite Hfused. step. cbn [fst snd].
  rewrite Hscores, Hgrasps. step. fold thr.
  unfold select. rewrite Hsel, Hnil. reflexivity.
Qed.

End Shows.

Lemma program_never_binds_the_frame_witness :
  let st := set_ur5_frame None (Cases.planning prim_grasp []) in
  as_main_leaves_it (update_overall_scores_on_click Bench.E st).2
  /\ gen_traj_slider_on_update st = (Ok tt, st).
Proof.
  intros st.
  destruct (program_never_binds_the_frame Bench.E st 2 Cases.cloud true)
    as (_ & _ & Hupdate & _ & _ & Hslider).
  - split; reflexivity.
  - split; [exact Hupdate | exact Hslider].
Defined.

Lemma update_shows_exactly_the_selection_witness :
  (update_overall_scores Bench.E 0.95 0.25 Cases.scored).1 = Ok tt.
Proof.
  refine (proj1 (update_shows_exactly_the_selection Bench.E 0.95 0.25
                   Cases.scored fresh_array
                   [Fin (9 # 200); Fin 0; Fin (103 # 400)]
                   Cases.three_grasps _ _ _ _ _)).
  - vm_compute. reflexivity.
  - discriminate.
  - vm_compute. reflexivity.
  - simpl. lia.
  - exists 0%nat, (Cases.grasp_at 0.9 0), (Fin (9 # 200)).
    split; [reflexivity|]. split; [reflexivity|]. vm_compute. reflexivity.
Defined.

Lemma shown_grasp_is_its_candidate_witness :
  exists h g,
    grasps_dict (update_overall_scores Bench.E 0.95 0.25 Cases.scored).2
      !! 2%nat = Some h
    /\ Cases.three_grasps !! 2%nat = Some g
    /\ h_frame h = mkFrame (SO3_from_matrix Bench.E (rotation_matrix g))
                     (translation g).
Proof.
  destruct (grasps_dict
              (update_overall_scores Bench.E 0.95 0.25 Cases.scored).2
              !! 2%nat) as [h|] eqn:Hh; [|vm_compute in Hh; discriminate].
  destruct (shown_grasp_is_its_candidate Bench.E 0.95 0.25 Cases.scored
              fresh_array [Fin (9 # 200); Fin 0; Fin (103 # 400)]
              Cases.three_grasps) with (ind := 2%nat) (h := h)
    as (g & Hg & Hframe).
  - vm_compute. reflexivity.
  - discriminate.
  - vm_compute. reflexivity.
  - simpl. lia.
  - exists 0%nat, (Cases.grasp_at 0.9 0), (Fin (9 # 200)).
    split; [reflexivity|]. split; [reflexivity|]. vm_compute. reflexivity.
  - repeat constructor.
  - exact Hh.
  - exists h, g. split; [reflexivity|]. split; assumption.
Defined.

Lemma least_scored_candidate_is_not_shown_witness :
  grasps_dict (update_overall_scores Bench.E 0.95 0.25 Cases.scored).2
    !! 1%nat = None.
Proof.
  apply (least_scored_candidate_is_not_shown Bench.E 0.95 0.25 Cases.scored
           fresh_array [Fin (9 # 200); Fin 0; Fin (103 # 400)]
           Cases.three_grasps 1 0).
  - vm_compute. reflexivity.
  - discriminate.
  - vm_compute. reflexivity.
  - simpl. lia.
  - exists 0%nat, (Cases.grasp_at 0.9 0), (Fin (9 # 200)).
    split; [reflexivity|]. split; [reflexivity|]. vm_compute. reflexivity.
  - unfold Qle. simpl. lia.
  - repeat constructor; eexists; (split; [reflexivity|]);
      unfold Qle; simpl; lia.
  - reflexivity.
Defined.

Lemma equal_scores_update_raises_witness :
  let st := set_lerf_scores [Fin 1; Fin 1; Fin 1]
              (set_geom_scores [Fin 1; Fin 1; Fin 1]
                 (Cases.loaded Cases.three_grasps prim_grasp [])) in
  update_overall_scores Bench.E 0.5 0.9 st = (Raise ValueError, st).
Proof.
  intros st.
  apply (equal_scores_update_raises Bench.E 0.5 0.9 st fresh_array
           [Fin 1; Fin 1; Fin 1] Cases.three_grasps 1).
  - vm_compute. reflexivity.
  - discriminate.
  - reflexivity.
  - simpl. lia.
  - unfold Qle. simpl. lia.
  - repeat constructor; eexists; (split; [reflexivity|]); reflexivity.
Defined.

(** ** After a reset *)

(** After "Reset LERF" on a loaded scene the grasps shown stay in the
    scene and the score arrays stay as they were, but the grasps are
    gone: the trajectory button does nothing, and an update of the
    overall scores raises a TypeError at [enumerate(grasps)] and leaves
    the session as the reset left it. *)
Theorem reset_disables_update_and_trajectory {PS} (E : externals PS)
    (st : session PS) (lerf_weight quantile : Q) (origin : scores_origin)
    (scores : list float) :
  fused_scores lerf_weight (lerf_scores st) (geom_scores st)
  = Ok (origin, scores) ->
  scores <> [] ->
  let st' := (lerf_reset_on_click true st).2 in
  grasps st' = None /\ overall_scores st' = None
  /\ grasps_dict st' = grasps_dict st
  /\ gen_traj_on_click E st' = (Ok tt, st')
  /\ update_overall_scores E lerf_weight quantile st' = (Raise TypeError, st').
Proof.
  intros Hfused Hne st'.
  split; [reflexivity|]. split; [reflexivity|]. split; [reflexivity|].
  split; [reflexivity|].
  unfold update_overall_scores. step.
  change (lerf_scores st') with (lerf_scores st).
  change (geom_scores st') with (geom_scores st).
  rewrite Hfused. step. cbn [fst snd].
  destruct scores; [congruence|]. reflexivity.
Qed.

Lemma reset_disables_update_and_trajectory_witness :
  let st' := (lerf_reset_on_click true Cases.scored).2 in
  update_overall_scores Bench.E 0.95 0.25 st' = (Raise TypeError, st').
Proof.
  intros st'.
  refine (proj2 (proj2 (proj2 (proj2
            (reset_disables_update_and_trajectory Bench.E Cases.scored
               0.95 0.25 fresh_array
               [Fin (9 # 200); Fin 0; Fin (103 # 400)] _ _))))).
  - vm_compute. reflexivity.
  - discriminate.
Defined.

(** ** Grasp proposals *)

Lemma result_map_exists {A B} (f : A -> result B) (P : A -> B -> Prop)
    (l : list A) :
  (forall x, x ∈ l -> exists y, f x = Ok y /\ P x y) ->
  exists ys, result_map f l = Ok ys /\ Forall2 P l ys.
Proof.
  induction l as [|x l IH]; intros H.
  - exists []. split; [reflexivity | constructor].
  - destruct (H x) as (y & Hy & Hp); [left|].
    destruct IH as (ys & Hys & Hall); [intros z Hz; apply H; right; exact Hz|].
    exists (y :: ys). simpl. rewrite Hy. simpl. rewrite Hys. simpl.
    split; [reflexivity | constructor; assumption].
Qed.

Lemma elem_of_concat {A} (x : A) (ls : list (list A)) :
  x ∈ concat ls -> exists l, x ∈ l /\ l ∈ ls.
Proof.
  intros H. apply list_elem_of_In, in_concat in H as (l & Hl & Hx).
  exists l. split; apply list_elem_of_In; assumption.
Qed.

Lemma py_range_below (n step i : nat) :
  (0 < step)%nat -> i ∈ py_range 0 n step -> (i < n)%nat.
Proof.
  intros Hstep Hi. apply list_elem_of_lookup in Hi as [k Hk].
  exact (proj1 (py_range_from_full _ _ _ _ _ _ Hstep Hk)).
Qed.

Section Proposing.

Variable D : proposers.
Variables (world_pointcloud_ : list vec3) (hemisphere : list RigidTransform.t).
Variable graspnet_batch_size : nat.

Hypothesis Hsize : (0 < graspnet_batch_size)%nat.
Hypothesis Hfilters : filters_only D.
Hypothesis Hdetector : one_group_per_cloud D.

Lemma lift_off_floor_score (g : Grasp) : score (lift_off_floor g) = score g.
Proof. unfold lift_off_floor. destruct (ltb _ _); reflexivity. Qed.

Lemma batch_step_accepts (gg_all : option (list Grasp)) (i : nat) :
  (i < length hemisphere)%nat ->
  Forall accepted (default [] gg_all) ->
  exists gg_all',
    batch_step D world_pointcloud_ hemisphere graspnet_batch_size gg_all i
    = Ok gg_all'
    /\ Forall accepted (default [] gg_all').
Proof using Hsize Hfilters Hdetector.
  intros Hi Hall. unfold batch_step.
  set (n := length hemisphere) in *.
  assert (Hrange : length (ind_range i graspnet_batch_size n)
                   = (Nat.min (i + graspnet_batch_size) n - i)%nat)
    by (unfold ind_range; apply length_seq).
  destruct (result_map_exists
              (fun j =>
                 result_bind (of_option IndexError (hemisphere !! j))
                   (fun c2w =>
                      Ok (transform_points world_pointcloud_
                            (np_linalg_inv D c2w))))
              (fun _ _ => True)
              (ind_range i graspnet_batch_size n))
    as (clouds & -> & Hclouds).
  { intros j Hj. unfold ind_range in Hj. apply elem_of_seq in Hj.
    destruct (lookup_lt_is_Some_2 hemisphere j) as [c2w ->]; [fold n; lia|].
    eexists. split; [reflexivity | exact I]. }
  apply Forall2_length in Hclouds. cbn [result_bind].
  destruct (Hdetector clouds) as [Hgroups Hscores].
  set (gg_list := graspnet D clouds) in *.
  assert (Hlen : length gg_list
                 = (Nat.min (i + graspnet_batch_size) n - i)%nat)
    by (rewrite Hgroups, <- Hclouds; exact Hrange).
  destruct (result_map_exists
              (fun p : nat * list Grasp =>
                 result_bind
                   (of_option IndexError (hemisphere !! (i + p.1)%nat))
                   (fun c2w => Ok (map (grasp_transform c2w) p.2)))
              (fun _ y => Forall (fun g => is_nan (score g) = false) y)
              (zip (seq 0 (length gg_list)) gg_list))
    as (moved & -> & Hmoved).
  { intros [k gg] Hp.
    assert (Hk : (k < length gg_list)%nat).
    { apply elem_of_zip_l, elem_of_seq in Hp. lia. }
    assert (Hgg : gg ∈ gg_list) by (eapply elem_of_zip_r; exact Hp).
    cbn [fst snd].
    destruct (lookup_lt_is_Some_2 hemisphere (i + k)) as [c2w ->];
      [fold n; lia|].
    eexists. split; [reflexivity|].
    apply Forall_fmap. eapply Forall_impl;
      [exact (proj1 (Forall_forall _ _) Hscores gg Hgg)|].
    intros g Hg. exact Hg. }
  cbn [result_bind].
  assert (Hmlen : length moved = length gg_list).
  { apply Forall2_length in Hmoved. rewrite <- Hmoved.
    rewrite length_zip_with, length_seq. lia. }
  assert (Hmscores : Forall (Forall (fun g => is_nan (score g) = false)) moved).
  { apply Forall_forall. intros y Hy.
    apply list_elem_of_lookup in Hy as [k Hk].
    destruct (Forall2_lookup_r _ _ _ _ _ Hmoved Hk) as (p & _ & Hp).
    exact Hp. }
  destruct moved as [|first rest]; [simpl in Hmlen; lia|].
  cbn [head of_option result_bind tail].
  apply Forall_cons in Hmscores as [Hfirst Hrest].
  set (gg := filter (fun g => upright g = true)
               (filter (fun g => in_workspace g = true)
                  (map lift_off_floor (first ++ concat rest)))).
  assert (Hgg : Forall accepted gg).
  { apply Forall_forall. intros g Hg. unfold gg in Hg.
    apply list_elem_of_filter in Hg as [Hup Hg].
    apply list_elem_of_filter in Hg as [Hws Hg].
    apply list_elem_of_fmap in Hg as (g0 & -> & Hg0).
    split; [|split; assumption].
    rewrite lift_off_floor_score.
    apply elem_of_app in Hg0 as [Hg0 | Hg0].
    - exact (proj1 (Forall_forall _ _) Hfirst g0 Hg0).
    - apply elem_of_concat in Hg0 as (y & Hg0 & Hy).
      exact (proj1 (Forall_forall _ _)
               (proj1 (Forall_forall _ _) Hrest y Hy) g0 Hg0). }
  destruct (length gg =? 0)%nat; [exists gg_all; split; [reflexivity | exact Hall]|].
  destruct Hfilters as [Hnms Hlcd].
  eexists. split; [reflexivity|].
  assert (Hkept : Forall accepted
            (local_collision_detection D
               (nms D (Fin 0.01) rotation_thresh gg))).
  { apply Forall_forall. intros g Hg. apply Hlcd, Hnms in Hg.
    exact (proj1 (Forall_forall _ _) Hgg g Hg). }
  destruct gg_all as [all_|]; cbn [default]; [|exact Hkept].
  apply Forall_app. split; [exact Hall | exact Hkept].
Qed.

Lemma batch_loop_accepts (starts : list nat) (gg_all : option (list Grasp)) :
  Forall (fun i => (i < length hemisphere)%nat) starts ->
  Forall accepted (default [] gg_all) ->
  exists gg_all',
    batch_loop D world_pointcloud_ hemisphere graspnet_batch_size starts gg_all
    = Ok gg_all'
    /\ Forall accepted (default [] gg_all').
Proof using Hsize Hfilters Hdetector.
  intros Hstarts. revert gg_all.
  induction Hstarts as [|i starts Hi _ IH]; intros gg_all Hall.
  - exists gg_all. split; [reflexivity | exact Hall].
  - destruct (batch_step_accepts gg_all i Hi Hall) as (gg1 & Hstep & Hall1).
    simpl. rewrite Hstep. simpl. apply IH. exact Hall1.
Qed.

End Proposing.

(** With a positive batch size, a detector that answers every cloud with
    a group of scored grasps, and a suppression and a collision filter
    that only drop grasps, [get_grasps] returns: every grasp of the
    result is farther than 0.22 along x and has the y axis of its
    rotation less than 0.5 off level, and the result is ordered
    descending by score. *)
Theorem get_grasps_returns_filtered_sorted (D : proposers)
    (world_pointcloud_ : list vec3) (hemisphere : list RigidTransform.t)
    (graspnet_batch_size : nat) :
  (0 < graspnet_batch_size)%nat -> filters_only D -> one_group_per_cloud D ->
  exists gg_all,
    get_grasps D world_pointcloud_ hemisphere graspnet_batch_size = Ok gg_all
    /\ Forall passes gg_all
    /\ Sorted descending_by_score gg_all.
Proof.
  intros Hsize Hfilters Hdetector. unfold get_grasps.
  destruct (graspnet_batch_size =? 0)%nat eqn:Hz;
    [apply Nat.eqb_eq in Hz; lia|].
  destruct (batch_loop_accepts D world_pointcloud_ hemisphere
              graspnet_batch_size Hsize Hfilters Hdetector
              (py_range 0 (length hemisphere) graspnet_batch_size) None)
    as (gg_all & -> & Hall).
  { apply Forall_forall. intros i Hi. eapply py_range_below; eassumption. }
  { constructor. }
  cbn [result_bind]. destruct gg_all as [gg_all|].
  - eexists. split; [reflexivity|].
    assert (Hkept : Forall accepted
                      (nms D (Fin 0.01) rotation_thresh gg_all)).
    { apply Forall_forall. intros g Hg. apply (proj1 Hfilters) in Hg.
      exact (proj1 (Forall_forall _ _) Hall g Hg). }
    split.
    + rewrite sort_by_score_perm. eapply Forall_impl; [exact Hkept|].
      intros g [_ Hg]. exact Hg.
    + apply sort_by_score_sorted. eapply Forall_impl; [exact Hkept|].
      intros g [Hg _]. exact Hg.
  - exists []. split; [reflexivity|]. split; constructor.
Qed.

Lemma get_grasps_returns_filtered_sorted_witness :
  exists gg_all,
    get_grasps ProposalBench.D ProposalBench.world
      [ProposalBench.shift 0; ProposalBench.shift 1; ProposalBench.shift 2] 2
    = Ok gg_all
    /\ Forall passes gg_all
    /\ Sorted descending_by_score gg_all.
Proof.
  apply get_grasps_returns_filtered_sorted.
  - lia.
  - split; intros; intros g Hg; exact Hg.
  - intros clouds. split.
    + apply length_map.
    + apply Forall_fmap, Forall_forall. intros cloud _.
      apply Forall_fmap, Forall_forall. intros p _. simpl.
      destruct (vz p); reflexivity.
Defined.

(** On the bench: three poses in batches of two, a cloud of three points;
    the grasps that stay are the ones beyond 0.22 along x, the lowest
    lifted off the floor by 0.01. *)
Lemma get_grasps_on_the_bench :
  get_grasps ProposalBench.D ProposalBench.world
    [ProposalBench.shift 0; ProposalBench.shift 1; ProposalBench.shift 2] 2
  = Ok (map (fun p => mkGrasp (Fin p.1) (Fin 0.1) (Fin 0.02) (Fin 0.02) eye3
                        (vec_of p.2.1 0 p.2.2) 0)
          [(3 # 10, (1 # 2, 3 # 10)); (3 # 10, (1 # 2, 3 # 10));
           (3 # 10, (1 # 2, 3 # 10)); (-1 # 5, (2 # 5, -19 # 100));
           (-1 # 5, (2 # 5, -19 # 100)); (-1 # 5, (2 # 5, -19 # 100))]).
Proof. vm_compute. reflexivity. Qed.
